(** * TFM client for Mixxx: pagination aggregator and download cache

    A shallow embedding of [src/library/tfm/tfmapiclient.{h,cpp}] and of
    [src/library/tfm/tfmtrackmodel.cpp].

    - [Qt] holds the few pieces of the Qt library the two classes lean on:
      [QString] operations, [QJsonValue] accessors and [QVariant]
      conversions.
    - [ApiClient] is [tfm::TFMApiClient]: the members of the class, the
      network manager it talks to and the signals it emits are one state
      record threaded by a small state monad.
    - [TrackModel] is [TFMTrackModel]: the file system, the download manager
      and the row of the track table are explicit, and the size checks are
      done in binary64 as in the source.
    - [Binary64Facts], [ApiClientFacts] and [TrackModelFacts] hold the
      properties. *)

From Stdlib Require Import ZArith QArith Qround List String Ascii Bool Lia SpecFloat.
From stdpp Require Import gmap strings list pretty.

#[local] Set Warnings "-register-all".

Local Open Scope string_scope.
Local Open Scope list_scope.
Local Open Scope Z_scope.

(* ===================================================================== *)
(** ** The Qt layer *)
(* ===================================================================== *)

Module Qt.

(** *** Fixed-width integers

    [int] is 32 bits and [qint64] 64 bits, both two's complement. *)

Definition wrap (bits : Z) (z : Z) : Z :=
  (z + 2 ^ (bits - 1)) mod 2 ^ bits - 2 ^ (bits - 1).

Definition int_min : Z := - 2 ^ 31.
Definition int_max : Z := 2 ^ 31 - 1.
Definition qint64_min : Z := - 2 ^ 63.
Definition qint64_max : Z := 2 ^ 63 - 1.

Definition in_int (z : Z) : bool := (int_min <=? z) && (z <=? int_max).
Definition in_qint64 (z : Z) : bool := (qint64_min <=? z) && (z <=? qint64_max).

Definition wrap_int : Z -> Z := wrap 32.
Definition wrap_qint64 : Z -> Z := wrap 64.

(** *** QString

    A [QString] is a [string]; letter case is that of the ASCII letters. *)

Definition is_upper (c : ascii) : bool :=
  let n := nat_of_ascii c in (65 <=? n)%nat && (n <=? 90)%nat.

Definition lower_ascii (c : ascii) : ascii :=
  if is_upper c then ascii_of_nat (nat_of_ascii c + 32) else c.

Fixpoint toLower (s : string) : string :=
  match s with
  | EmptyString => EmptyString
  | String c s' => String (lower_ascii c) (toLower s')
  end.

Definition isEmpty (s : string) : bool :=
  match s with EmptyString => true | _ => false end.

Definition left (n : nat) (s : string) : string := String.substring 0 n s.

Definition right (n : nat) (s : string) : string :=
  String.substring (String.length s - n) n s.

(** [s.mid(pos)]: the characters from position [pos] to the end. *)
Definition mid (pos : nat) (s : string) : string :=
  String.substring pos (String.length s - pos) s.

Definition startsWith (s p : string) : bool := String.prefix p s.

(** [s.endsWith(t)], case sensitive. *)
Definition endsWith (s t : string) : bool :=
  (String.length t <=? String.length s)%nat
  && String.eqb (right (String.length t) s) t.

(** [s.endsWith(t, Qt::CaseInsensitive)]. *)
Definition endsWithCI (s t : string) : bool :=
  (String.length t <=? String.length s)%nat
  && String.eqb (toLower (right (String.length t) s)) (toLower t).

(** [s.contains(t)]: [t] starts at some position of [s]. *)
Fixpoint contains (s t : string) : bool :=
  String.prefix t s
  || match s with
     | EmptyString => false
     | String _ s' => contains s' t
     end.

(** [s.contains(t, Qt::CaseInsensitive)]. *)
Definition containsCI (s t : string) : bool := contains (toLower s) (toLower t).

(** [s.replace(before, after)] on single characters. *)
Fixpoint replace (before after : ascii) (s : string) : string :=
  match s with
  | EmptyString => EmptyString
  | String c s' =>
      String (if Ascii.eqb c before then after else c) (replace before after s')
  end.

(** [s.lastIndexOf(c)]: the last position of [c], or -1. *)
Fixpoint lastIndexOf_from (c : ascii) (s : string) (pos : Z) (found : Z) : Z :=
  match s with
  | EmptyString => found
  | String d s' =>
      lastIndexOf_from c s' (pos + 1) (if Ascii.eqb d c then pos else found)
  end.

Definition lastIndexOf (c : ascii) (s : string) : Z := lastIndexOf_from c s 0 (-1).

(** [s.chop(1)] while [s.endsWith('/')]. *)
Fixpoint chopSlashes_rev (r : list ascii) : list ascii :=
  match r with
  | c :: r' => if Ascii.eqb c "/" then chopSlashes_rev r' else r
  | [] => []
  end.

Definition chopSlashes (s : string) : string :=
  string_of_list_ascii
    (List.rev (chopSlashes_rev (List.rev (list_ascii_of_string s)))).

(** *** Decimal text to [qint64]: [QString::toLongLong()]

    Surrounding white space is skipped, one sign is accepted, and anything
    that is not a decimal number in range gives 0. *)

Definition is_space (c : ascii) : bool :=
  let n := nat_of_ascii c in (n =? 32)%nat || ((9 <=? n)%nat && (n <=? 13)%nat).

Definition digit_of (c : ascii) : option Z :=
  let n := nat_of_ascii c in
  if (48 <=? n)%nat && (n <=? 57)%nat then Some (Z.of_nat n - 48) else None.

Fixpoint skip_spaces (l : list ascii) : list ascii :=
  match l with
  | c :: l' => if is_space c then skip_spaces l' else l
  | [] => []
  end.

Fixpoint digits_value (l : list ascii) (acc : Z) : option Z :=
  match l with
  | [] => Some acc
  | c :: l' =>
      match digit_of c with
      | Some d => digits_value l' (10 * acc + d)
      | None => None
      end
  end.

Definition unsigned_value (l : list ascii) : option Z :=
  match l with
  | [] => None
  | _ => digits_value l 0
  end.

Definition toLongLong (s : string) : Z :=
  let body :=
    List.rev (skip_spaces (List.rev (skip_spaces (list_ascii_of_string s)))) in
  let signed :=
    match body with
    | c :: l' =>
        if Ascii.eqb c "-" then option_map Z.opp (unsigned_value l')
        else if Ascii.eqb c "+" then unsigned_value l'
        else unsigned_value body
    | [] => None
    end in
  match signed with
  | Some z => if in_qint64 z then z else 0
  | None => 0
  end.

(** *** JSON values

    A JSON number is a rational; an object is the list of its members and
    [value] reads the first member under a key. *)

Inductive QJsonValue : Type :=
| JNull
| JUndefined
| JBool (b : bool)
| JDouble (q : Q)
| JString (s : string)
| JArray (a : list QJsonValue)
| JObject (o : list (string * QJsonValue)).

Abbreviation QJsonArray := (list QJsonValue) (only parsing).
Abbreviation QJsonObject := (list (string * QJsonValue)) (only parsing).

Fixpoint value (o : QJsonObject) (key : string) : QJsonValue :=
  match o with
  | [] => JUndefined
  | (k, v) :: o' => if String.eqb k key then v else value o' key
  end.

Fixpoint containsKey (o : QJsonObject) (key : string) : bool :=
  match o with
  | [] => false
  | (k, _) :: o' => String.eqb k key || containsKey o' key
  end.

Definition isArray (v : QJsonValue) : bool :=
  match v with JArray _ => true | _ => false end.

Definition isObject (v : QJsonValue) : bool :=
  match v with JObject _ => true | _ => false end.

Definition toArray (v : QJsonValue) : QJsonArray :=
  match v with JArray a => a | _ => [] end.

Definition toObject (v : QJsonValue) : QJsonObject :=
  match v with JObject o => o | _ => [] end.

Definition toBool (v : QJsonValue) (defaultValue : bool) : bool :=
  match v with JBool b => b | _ => defaultValue end.

Definition toString (v : QJsonValue) : string :=
  match v with JString s => s | _ => "" end.

(** [toInt(defaultValue)]: the number when it is integral and fits an
    [int], the default otherwise. *)
Definition toInt (v : QJsonValue) (defaultValue : Z) : Z :=
  match v with
  | JDouble q =>
      let r := Qred q in
      if (Qden r =? 1)%positive && in_int (Qnum r) then Qnum r else defaultValue
  | _ => defaultValue
  end.

(** [qRound64]: nearest integer, halves away from zero. *)
Definition qRound64 (q : Q) : Z :=
  if Qle_bool 0 q then Qfloor (q + (1 # 2)) else Qceiling (q - (1 # 2)).

(** [v.toVariant().toLongLong()]. *)
Definition variantToLongLong (v : QJsonValue) : Z :=
  match v with
  | JBool b => if b then 1 else 0
  | JDouble q => let z := qRound64 q in if in_qint64 z then z else 0
  | JString s => toLongLong s
  | _ => 0
  end.

(** [QDateTime::fromString(text, Qt::ISODate)]: the calendar is Qt's; a
    date is kept as the text it was read from. *)
Record QDateTime : Type := fromISODate { isoText : string }.

(** *** More of QString *)

(** Every character of [s] passes [p]. *)
Fixpoint allChars (p : ascii -> bool) (s : string) : bool :=
  match s with
  | EmptyString => true
  | String c s' => p c && allChars p s'
  end.

(** [s.split(sep)] on a single character, empty parts kept. *)
Fixpoint split (sep : ascii) (s : string) : list string :=
  match s with
  | EmptyString => [EmptyString]
  | String c s' =>
      if Ascii.eqb c sep then EmptyString :: split sep s'
      else
        match split sep s' with
        | part :: parts => String c part :: parts
        | [] => [String c EmptyString]
        end
  end.

(** [s.section(sep, 1)]: the fields from the second one to the end, that
    is, what follows the first separator; empty without a separator. *)
Fixpoint section1 (sep : ascii) (s : string) : string :=
  match s with
  | EmptyString => EmptyString
  | String c s' => if Ascii.eqb c sep then s' else section1 sep s'
  end.

(** [QString::number(n)]: decimal digits, with a minus sign below zero. *)
Definition number (n : Z) : string := pretty n.

(** [QUrl::toPercentEncoding(s)] with no exclusions: letters, digits and
    [-._~] are kept, every other byte becomes [%] and two upper-case
    hexadecimal digits. *)
Definition isUnreserved (c : ascii) : bool :=
  let n := nat_of_ascii c in
  ((97 <=? n)%nat && (n <=? 122)%nat)
  || ((65 <=? n)%nat && (n <=? 90)%nat)
  || ((48 <=? n)%nat && (n <=? 57)%nat)
  || (n =? 45)%nat || (n =? 46)%nat || (n =? 95)%nat || (n =? 126)%nat.

Definition toHexUpper (n : nat) : ascii :=
  ascii_of_nat (if (n <? 10)%nat then 48 + n else 55 + n).

Fixpoint toPercentEncoding (s : string) : string :=
  match s with
  | EmptyString => EmptyString
  | String c s' =>
      if isUnreserved c then String c (toPercentEncoding s')
      else
        let n := nat_of_ascii c in
        String "%"
          (String (toHexUpper (n / 16))
             (String (toHexUpper (n mod 16)) (toPercentEncoding s')))
  end.

(** *** [QString::arg]

    A place marker is [%], an optional [L] and one or two decimal digits
    ([0] to [9]).
    [arg] replaces every marker of the lowest number the string has; a
    string without a marker is returned as it is.  Where the argument is a
    number, a marker with [L] gets the number as the default locale writes
    it, every other marker its decimal text. *)

Definition argDigit (c : ascii) : option nat :=
  let n := nat_of_ascii c in
  if (48 <=? n)%nat && (n <=? 57)%nat then Some (n - 48)%nat else None.

(** The marker that [s], the text after a [%], starts with: whether it has
    an [L], its number, and how many characters it takes after the [%]. *)
Definition placeMarker (s : string) : option (bool * nat * nat) :=
  let '(locale, digits, taken) :=
    match s with
    | String "L" s' => (true, s', 1%nat)
    | _ => (false, s, 0%nat)
    end in
  match digits with
  | String d1 rest =>
      match argDigit d1 with
      | Some n1 =>
          match rest with
          | String d2 _ =>
              match argDigit d2 with
              | Some n2 => Some (locale, (10 * n1 + n2)%nat, (taken + 2)%nat)
              | None => Some (locale, n1, (taken + 1)%nat)
              end
          | EmptyString => Some (locale, n1, (taken + 1)%nat)
          end
      | None => None
      end
  | EmptyString => None
  end.

Definition minOption (a : nat) (b : option nat) : nat :=
  match b with
  | Some b => Nat.min a b
  | None => a
  end.

(** The lowest number of a marker of [s]. *)
Fixpoint minEscape (s : string) : option nat :=
  match s with
  | EmptyString => None
  | String c s' =>
      if Ascii.eqb c "%" then
        match placeMarker s' with
        | Some (_, n, _) => Some (minOption n (minEscape s'))
        | None => minEscape s'
        end
      else minEscape s'
  end.

(** [s] with every marker of number [n] replaced, by [larg] where the
    marker has an [L] and by [arg] where it has none; [skip] characters at
    the head of [s] belong to a marker that has been replaced. *)
Fixpoint replaceEscapes (n : nat) (arg larg : string) (skip : nat) (s : string)
  : string :=
  match s with
  | EmptyString => EmptyString
  | String c s' =>
      match skip with
      | S skip' => replaceEscapes n arg larg skip' s'
      | O =>
          if Ascii.eqb c "%" then
            match placeMarker s' with
            | Some (locale, m, taken) =>
                if (m =? n)%nat then
                  (if locale then larg else arg)
                  +:+ replaceEscapes n arg larg taken s'
                else String c (replaceEscapes n arg larg 0 s')
            | None => String c (replaceEscapes n arg larg 0 s')
            end
          else String c (replaceEscapes n arg larg 0 s')
      end
  end.

(** [s.arg(a)] for a string [a]. *)
Definition arg (a : string) (s : string) : string :=
  match minEscape s with
  | Some n => replaceEscapes n a a 0 s
  | None => s
  end.

(** [s.arg(a)] for an [int] [a]; [localized] is the text of a number in
    the default locale. *)
Definition argNumber (localized : Z -> string) (a : Z) (s : string) : string :=
  match minEscape s with
  | Some n => replaceEscapes n (number a) (localized a) 0 s
  | None => s
  end.

(** A text without a per cent sign. *)
Definition hasNoPercent (s : string) : bool :=
  allChars (fun c => negb (Ascii.eqb c "%")) s.

End Qt.

(* ===================================================================== *)
(** ** tfm::TFMApiClient *)
(* ===================================================================== *)

Module ApiClient.
Import Qt.

(** *** The structs of tfmapiclient.h *)

Module Channel.
Record t : Type := mk {
    id : Z;
    name : string;
    imageUrl : string;
    isOwner : bool;
    canPost : bool;
    isFavorite : bool;
    type : string;
    fileCount : Z }.

Definition setIsFavorite (b : bool) (ch : t) : t :=
    mk (id ch) (name ch) (imageUrl ch) (isOwner ch) (canPost ch) b (type ch)
       (fileCount ch).
End Channel.

Module Track.
Record t : Type := mk {
    id : string;
    channelId : string;
    name : string;
    path : string;
    parentId : string;
    size : Z;
    type : string;
    category : string;
    isFile : bool;
    isFolder : bool;
    hasChildren : bool;
    streamUrl : string;
    downloadUrl : string;
    thumbnailUrl : string;
    dateCreated : QDateTime;
    dateModified : QDateTime }.

Definition setChannelId (c : string) (tr : t) : t :=
    mk (id tr) c (name tr) (path tr) (parentId tr) (size tr) (type tr)
       (category tr) (isFile tr) (isFolder tr) (hasChildren tr) (streamUrl tr)
       (downloadUrl tr) (thumbnailUrl tr) (dateCreated tr) (dateModified tr).
End Track.

Module Folder.
Record t : Type := mk {
    id : string;
    name : string;
    path : string;
    parentId : string;
    isFolder : bool;
    hasChildren : bool }.
End Folder.

Module PaginationInfo.
Record t : Type := mk {
    page : Z;
    pageSize : Z;
    totalItems : Z;
    totalPages : Z;
    hasNext : bool;
    hasPrevious : bool }.

  (** The member initialisers of the struct. *)
Definition init : t := mk 1 100 0 1 false false.
End PaginationInfo.

Module PaginatedRequest.
Record t : Type := mk {
    channelId : string;
    folderId : string;
    accumulatedTracks : list Track.t;
    currentPage : Z;
    pageSize : Z;
    totalPages : Z }.

Definition init : t := mk "" "" [] 1 100 1.

Definition setChannelId (c : string) (r : t) : t :=
    mk c (folderId r) (accumulatedTracks r) (currentPage r) (pageSize r)
       (totalPages r).
Definition setFolderId (f : string) (r : t) : t :=
    mk (channelId r) f (accumulatedTracks r) (currentPage r) (pageSize r)
       (totalPages r).
Definition appendTracks (l : list Track.t) (r : t) : t :=
    mk (channelId r) (folderId r) (accumulatedTracks r ++ l) (currentPage r)
       (pageSize r) (totalPages r).
Definition setCurrentPage (p : Z) (r : t) : t :=
    mk (channelId r) (folderId r) (accumulatedTracks r) p (pageSize r)
       (totalPages r).
Definition setTotalPages (p : Z) (r : t) : t :=
    mk (channelId r) (folderId r) (accumulatedTracks r) (currentPage r)
       (pageSize r) p.
End PaginatedRequest.

(** *** Signals *)

Inductive Signal : Type :=
| connectionChecked (success : bool) (serverVersion : string)
| channelsLoaded (channels : list Channel.t)
| tracksLoaded (channelId : string) (tracks : list Track.t)
| folderContentsLoaded (channelId folderId : string) (items : list Track.t)
| favoritesLoaded (favorites : list Channel.t)
| localFoldersLoaded (folders : list Folder.t)
| localTracksLoaded (folderId : string) (tracks : list Track.t)
| searchResultsReady (tracks : list Track.t)
| trackDownloaded (trackId localPath : string)
| apiError (errorMessage : string)
| requestStarted
| requestFinished.

(** *** Requests and replies

    An endpoint built with [QString("...%1...").arg(a).arg(b)] is kept as
    the template and the arguments in the order the source passes them.
    Its text is what the calls of [arg] make of the template, one after the
    other ([render]): a marker that an argument brings in is replaced by
    the calls that follow. *)

Inductive Arg : Type :=
| AString (s : string)
| AInt (z : Z)
| APercentEncoded (s : string).

Record Endpoint : Type := Fmt { template : string; args : list Arg }.

Definition applyArg (localized : Z -> string) (s : string) (a : Arg) : string :=
  match a with
  | AString x => arg x s
  | AInt z => argNumber localized z s
  | APercentEncoded x => arg (toPercentEncoding x) s
  end.

Definition render (localized : Z -> string) (e : Endpoint) : string :=
  fold_left (applyArg localized) (args e) (template e).

(** [createRequest]: the URL is [m_serverUrl + endpoint]; the two JSON
    headers are the same on every request. *)
Record QNetworkRequest : Type := mkRequest {
  urlBase : string;
  urlEndpoint : Endpoint }.

(** The text the request gives to [QUrl]. *)
Definition requestUrl (localized : Z -> string) (rq : QNetworkRequest) : string :=
  urlBase rq +:+ render localized (urlEndpoint rq).

(** The dynamic properties [setProperty] stores on a reply. *)
Inductive QVariant : Type :=
| VString (s : string)
| VInt (z : Z).

Definition variantToString (v : option QVariant) : string :=
  match v with
  | Some (VString s) => s
  | Some (VInt z) => pretty z
  | None => ""
  end.

Record QNetworkReply : Type := mkReply {
  request : QNetworkRequest;
  properties : gmap string QVariant }.

(** What the network manager hands to [onReplyFinished]: the error state of
    the reply and what [QJsonDocument::fromJson(reply->readAll())] makes of
    its body. *)
Inductive Body : Type :=
| ParseError (errorString : string)
| Document (doc : QJsonValue).

Record Finished : Type := mkFinished {
  networkError : option string;
  body : Body }.

(** *** The state

    The members of the class, the replies the network manager has handed
    out (by pointer), every request sent, and every signal emitted. *)

Record World : Type := mkWorld {
  m_serverUrl : string;
  m_localFolder : string;
  m_pendingReplies : list nat;
  m_paginatedRequests : gmap string PaginatedRequest.t;
  replies : gmap nat QNetworkReply;
  nextReply : nat;
  sent : list QNetworkRequest;
  emitted : list Signal }.

Definition M (A : Type) : Type := World -> A * World.

Definition ret {A} (a : A) : M A := fun w => (a, w).
Definition bind {A B} (c : M A) (k : A -> M B) : M B :=
  fun w => let (a, w') := c w in k a w'.

Declare Scope api_scope.
Delimit Scope api_scope with api.
Notation "x <- c ;; k" := (bind c (fun x => k))
  (at level 100, c at next level, right associativity) : api_scope.
Notation "c ;; k" := (bind c (fun _ => k))
  (at level 100, right associativity) : api_scope.
Local Open Scope api_scope.

Definition exec {A} (c : M A) (w : World) : World := snd (c w).

Definition serverUrl : M string := fun w => (m_serverUrl w, w).

Definition emit (s : Signal) : M unit := fun w =>
  (tt, mkWorld (m_serverUrl w) (m_localFolder w) (m_pendingReplies w)
         (m_paginatedRequests w) (replies w) (nextReply w) (sent w)
         (emitted w ++ [s])).

(** [m_pNetworkManager->get(request)]: a fresh reply object. *)
Definition networkGet (rq : QNetworkRequest) : M nat := fun w =>
  (nextReply w,
   mkWorld (m_serverUrl w) (m_localFolder w) (m_pendingReplies w)
     (m_paginatedRequests w)
     (<[nextReply w := mkReply rq ∅]> (replies w)) (S (nextReply w))
     (sent w ++ [rq]) (emitted w)).

Definition setProperty (reply : nat) (name : string) (v : QVariant) : M unit :=
  fun w =>
  (tt, mkWorld (m_serverUrl w) (m_localFolder w) (m_pendingReplies w)
         (m_paginatedRequests w)
         (alter (fun r => mkReply (request r) (<[name := v]> (properties r)))
                reply (replies w))
         (nextReply w) (sent w) (emitted w)).

Definition property (reply : nat) (name : string) : M (option QVariant) :=
  fun w => (r ← replies w !! reply; properties r !! name, w).

(** [reply->deleteLater()].  The replies that finish are replies of the
    client: the network manager it listens to is made for it alone
    ([TFMFeature]'s constructor) and is used for nothing else. *)
Definition deleteLater (reply : nat) : M unit := fun w =>
  (tt, mkWorld (m_serverUrl w) (m_localFolder w) (m_pendingReplies w)
         (m_paginatedRequests w) (delete reply (replies w)) (nextReply w)
         (sent w) (emitted w)).

Definition modifyPending (f : list nat -> list nat) : M unit := fun w =>
  (tt, mkWorld (m_serverUrl w) (m_localFolder w) (f (m_pendingReplies w))
         (m_paginatedRequests w) (replies w) (nextReply w) (sent w)
         (emitted w)).

Definition paginatedRequests : M (gmap string PaginatedRequest.t) :=
  fun w => (m_paginatedRequests w, w).

Definition modifyPaginated
    (f : gmap string PaginatedRequest.t -> gmap string PaginatedRequest.t)
  : M unit := fun w =>
  (tt, mkWorld (m_serverUrl w) (m_localFolder w) (m_pendingReplies w)
         (f (m_paginatedRequests w)) (replies w) (nextReply w) (sent w)
         (emitted w)).

(** [m_paginatedRequests[key]]: [QMap::operator[]] inserts a
    default-constructed value under a key that is not there yet. *)
Definition subscript (key : string) (m : gmap string PaginatedRequest.t)
  : PaginatedRequest.t := default PaginatedRequest.init (m !! key).

Definition updateAt (key : string) (f : PaginatedRequest.t -> PaginatedRequest.t)
  : M unit :=
  modifyPaginated (fun m => <[key := f (subscript key m)]> m).

Definition when (b : bool) (c : M unit) : M unit := if b then c else ret tt.

(** *** Configuration *)

Definition setServerUrl (url : string) : M unit := fun w =>
  (tt, mkWorld (chopSlashes url) (m_localFolder w) (m_pendingReplies w)
         (m_paginatedRequests w) (replies w) (nextReply w) (sent w)
         (emitted w)).

Definition setLocalFolder (path : string) : M unit := fun w =>
  (tt, mkWorld (m_serverUrl w) path (m_pendingReplies w)
         (m_paginatedRequests w) (replies w) (nextReply w) (sent w)
         (emitted w)).

Definition createRequest (endpoint : Endpoint) : M QNetworkRequest :=
  url <- serverUrl ;; ret (mkRequest url endpoint).

Definition notConfigured : string := "TFM server URL is not configured".

(** *** Issuing requests *)

Definition fetchChannels : M unit :=
  url <- serverUrl ;;
  if isEmpty url then emit (apiError notConfigured)
  else
    emit requestStarted ;;
    rq <- createRequest (Fmt "/api/mobile/channels" []) ;;
    reply <- networkGet rq ;;
    setProperty reply "requestType" (VString "fetchChannels") ;;
    modifyPending (fun l => l ++ [reply]).

Definition checkConnection : M unit :=
  url <- serverUrl ;;
  if isEmpty url then emit (apiError notConfigured) else fetchChannels.

Definition fetchChannelTracksPage (channelId : string) (page pageSize : Z)
  : M unit :=
  emit requestStarted ;;
  let endpoint :=
    Fmt "/api/mobile/channels/%1/files?Page=%2&PageSize=%3"
        [AString channelId; AInt page; AInt pageSize] in
  rq <- createRequest endpoint ;;
  reply <- networkGet rq ;;
  setProperty reply "requestType" (VString "fetchChannelTracks") ;;
  setProperty reply "channelId" (VString channelId) ;;
  setProperty reply "page" (VInt page) ;;
  modifyPending (fun l => l ++ [reply]).

Definition fetchChannelTracks (channelId : string) (offset limit : Z) : M unit :=
  url <- serverUrl ;;
  if isEmpty url then emit (apiError notConfigured)
  else
    let requestKey := "channel:" +:+ channelId in
    modifyPaginated (delete requestKey) ;;
    fetchChannelTracksPage channelId 1 limit.

Definition fetchFolderContentsPage (channelId folderId : string)
    (page pageSize : Z) : M unit :=
  emit requestStarted ;;
  let endpoint :=
    Fmt "/api/mobile/channels/%1/files?folderId=%2&Page=%3&PageSize=%4"
        [AString channelId; AString folderId; AInt page; AInt pageSize] in
  rq <- createRequest endpoint ;;
  reply <- networkGet rq ;;
  setProperty reply "requestType" (VString "fetchFolderContents") ;;
  setProperty reply "channelId" (VString channelId) ;;
  setProperty reply "folderId" (VString folderId) ;;
  setProperty reply "page" (VInt page) ;;
  modifyPending (fun l => l ++ [reply]).

Definition fetchFolderContents (channelId folderId : string) (offset limit : Z)
  : M unit :=
  url <- serverUrl ;;
  if isEmpty url then emit (apiError notConfigured)
  else
    let requestKey := "folder:" +:+ channelId +:+ ":" +:+ folderId in
    modifyPaginated (delete requestKey) ;;
    fetchFolderContentsPage channelId folderId 1 limit.

Definition fetchFavorites : M unit :=
  url <- serverUrl ;;
  if isEmpty url then emit (apiError notConfigured)
  else
    emit requestStarted ;;
    rq <- createRequest (Fmt "/api/mobile/channels/favorites" []) ;;
    reply <- networkGet rq ;;
    setProperty reply "requestType" (VString "fetchFavorites") ;;
    modifyPending (fun l => l ++ [reply]).

Definition fetchLocalFolders : M unit :=
  url <- serverUrl ;;
  if isEmpty url then emit (apiError notConfigured)
  else
    emit requestStarted ;;
    rq <- createRequest (Fmt "/api/mobile/files/local" []) ;;
    reply <- networkGet rq ;;
    setProperty reply "requestType" (VString "fetchLocalFolders") ;;
    modifyPending (fun l => l ++ [reply]).

Definition fetchLocalTracks (folderPath : string) : M unit :=
  url <- serverUrl ;;
  if isEmpty url then emit (apiError notConfigured)
  else
    emit requestStarted ;;
    let endpoint :=
      if isEmpty folderPath then
        Fmt "/api/mobile/files/local?filter=audio_folders&page=1&pageSize=100&sortBy=name&sortDescending=false"
            []
      else
        Fmt "/api/mobile/files/local?Path=%1&filter=audio_folders&page=1&pageSize=100&sortBy=name&sortDescending=false"
            [APercentEncoded folderPath] in
    rq <- createRequest endpoint ;;
    reply <- networkGet rq ;;
    setProperty reply "requestType" (VString "fetchLocalTracks") ;;
    setProperty reply "folderPath" (VString folderPath) ;;
    modifyPending (fun l => l ++ [reply]).

(** [offset / limit + 1] on [int]s: the division rounds to zero.  With a
    zero divisor, with [INT_MIN / -1] and with a sum above [INT_MAX] the
    expression has no value: the behaviour of the program is undefined. *)
Definition searchPage (offset limit : Z) : option Z :=
  if (limit =? 0) || ((offset =? int_min) && (limit =? -1)) then None
  else
    let page := Z.quot offset limit + 1 in
    if page <=? int_max then Some page else None.

(** Where the page has no value the call goes no further than the signal
    it has emitted by then: nothing is sent (and [defined] below keeps the
    call out of the runs of the client). *)
Definition searchTracks (query : string) (offset limit : Z) : M unit :=
  url <- serverUrl ;;
  if isEmpty url then emit (apiError notConfigured)
  else
    emit requestStarted ;;
    match searchPage offset limit with
    | Some page =>
        let endpoint :=
          Fmt "/api/mobile/channels/0/files?SearchText=%1&Page=%2&PageSize=%3"
              [AString query; AInt page; AInt limit] in
        rq <- createRequest endpoint ;;
        reply <- networkGet rq ;;
        setProperty reply "requestType" (VString "searchTracks") ;;
        modifyPending (fun l => l ++ [reply])
    | None => ret tt
    end.

Definition downloadTrack (trackId destPath : string) : M unit :=
  emit (apiError "Download not implemented - use streaming instead").

(** *** Parsing *)

Definition parseChannel (json : QJsonObject) : Channel.t :=
  Channel.mk
    (variantToLongLong (value json "id"))
    (toString (value json "name"))
    (toString (value json "imageUrl"))
    (toBool (value json "isOwner") false)
    (toBool (value json "canPost") false)
    (toBool (value json "isFavorite") false)
    (toString (value json "type"))
    (toInt (value json "fileCount") 0).

(** [tr.channelId] is left empty by [parseTrack]. *)
Definition parseTrack (json : QJsonObject) : Track.t :=
  Track.mk
    (toString (value json "id"))
    ""
    (toString (value json "name"))
    (toString (value json "path"))
    (toString (value json "parentId"))
    (variantToLongLong (value json "size"))
    (toString (value json "type"))
    (toString (value json "category"))
    (toBool (value json "isFile") false)
    (toBool (value json "isFolder") false)
    (toBool (value json "hasChildren") false)
    (toString (value json "streamUrl"))
    (toString (value json "downloadUrl"))
    (toString (value json "thumbnailUrl"))
    (fromISODate (toString (value json "dateCreated")))
    (fromISODate (toString (value json "dateModified"))).

Definition parseFolder (json : QJsonObject) : Folder.t :=
  Folder.mk
    (toString (value json "id"))
    (toString (value json "name"))
    (toString (value json "path"))
    (toString (value json "parentId"))
    (toBool (value json "isFolder") false)
    (toBool (value json "hasChildren") false).

Definition parsePagination (responseObj : QJsonObject) : PaginationInfo.t :=
  let info := PaginationInfo.init in
  let paginationVal := value responseObj "pagination" in
  if isObject paginationVal then
    let pagination := toObject paginationVal in
    PaginationInfo.mk
      (toInt (value pagination "page") 1)
      (toInt (value pagination "pageSize") 100)
      (toInt (value pagination "totalItems") 0)
      (toInt (value pagination "totalPages") 1)
      (toBool (value pagination "hasNext") false)
      (toBool (value pagination "hasPrevious") false)
  else info.

(** *** Handling replies *)

(** The item array of a paged listing: [data] itself, or [data.items].
    [handleResponse] has this text twice, once per paged request type. *)
Definition itemArray (dataVal : QJsonValue) : QJsonArray :=
  if isArray dataVal then toArray dataVal
  else if isObject dataVal then
    let dataObj := toObject dataVal in
    if containsKey dataObj "items" then toArray (value dataObj "items") else []
  else [].

Definition hasKey (key : string) (m : gmap string PaginatedRequest.t) : bool :=
  match m !! key with Some _ => true | None => false end.

Definition handleResponse (reply : nat) (requestType : string) (data : Body)
  : M unit :=
  match data with
  | ParseError errorString =>
      emit (apiError ("JSON parse error: " +:+ errorString))
  | Document doc =>
      let responseObj := toObject doc in
      let success := toBool (value responseObj "success") false in
      if negb success then
        let errorMsg := toString (value responseObj "error") in
        let errorMsg :=
          if isEmpty errorMsg then toString (value responseObj "message")
          else errorMsg in
        let errorMsg :=
          if isEmpty errorMsg then "Unknown API error" else errorMsg in
        emit (apiError errorMsg)
      else if String.eqb requestType "fetchChannels" then
        let arr := toArray (value responseObj "data") in
        let channels := map (fun val => parseChannel (toObject val)) arr in
        emit (channelsLoaded channels)
      else if String.eqb requestType "fetchChannelTracks" then
        channelIdV <- property reply "channelId" ;;
        let channelId := variantToString channelIdV in
        let arr := itemArray (value responseObj "data") in
        let tracks :=
          map (fun val => Track.setChannelId channelId (parseTrack (toObject val)))
              arr in
        let pagination := parsePagination responseObj in
        let requestKey := "channel:" +:+ channelId in
        m <- paginatedRequests ;;
        when (negb (hasKey requestKey m))
          (modifyPaginated (insert requestKey PaginatedRequest.init) ;;
           updateAt requestKey (PaginatedRequest.setChannelId channelId)) ;;
        updateAt requestKey (PaginatedRequest.appendTracks tracks) ;;
        updateAt requestKey
          (PaginatedRequest.setCurrentPage (PaginationInfo.page pagination)) ;;
        updateAt requestKey
          (PaginatedRequest.setTotalPages (PaginationInfo.totalPages pagination)) ;;
        if PaginationInfo.hasNext pagination then
          fetchChannelTracksPage channelId
            (wrap_int (PaginationInfo.page pagination + 1))
            (PaginationInfo.pageSize pagination)
        else
          m <- paginatedRequests ;;
          let allTracks :=
            PaginatedRequest.accumulatedTracks (subscript requestKey m) in
          modifyPaginated (delete requestKey) ;;
          emit (tracksLoaded channelId allTracks)
      else if String.eqb requestType "fetchFolderContents" then
        channelIdV <- property reply "channelId" ;;
        folderIdV <- property reply "folderId" ;;
        let channelId := variantToString channelIdV in
        let folderId := variantToString folderIdV in
        let arr := itemArray (value responseObj "data") in
        let items :=
          map (fun val => Track.setChannelId channelId (parseTrack (toObject val)))
              arr in
        let pagination := parsePagination responseObj in
        let requestKey := "folder:" +:+ channelId +:+ ":" +:+ folderId in
        m <- paginatedRequests ;;
        when (negb (hasKey requestKey m))
          (modifyPaginated (insert requestKey PaginatedRequest.init) ;;
           updateAt requestKey (PaginatedRequest.setChannelId channelId) ;;
           updateAt requestKey (PaginatedRequest.setFolderId folderId)) ;;
        updateAt requestKey (PaginatedRequest.appendTracks items) ;;
        updateAt requestKey
          (PaginatedRequest.setCurrentPage (PaginationInfo.page pagination)) ;;
        updateAt requestKey
          (PaginatedRequest.setTotalPages (PaginationInfo.totalPages pagination)) ;;
        if PaginationInfo.hasNext pagination then
          fetchFolderContentsPage channelId folderId
            (wrap_int (PaginationInfo.page pagination + 1))
            (PaginationInfo.pageSize pagination)
        else
          m <- paginatedRequests ;;
          let allItems :=
            PaginatedRequest.accumulatedTracks (subscript requestKey m) in
          modifyPaginated (delete requestKey) ;;
          emit (folderContentsLoaded channelId folderId allItems)
      else if String.eqb requestType "fetchFavorites" then
        let arr := toArray (value responseObj "data") in
        let favorites :=
          map (fun val => Channel.setIsFavorite true (parseChannel (toObject val)))
              arr in
        emit (favoritesLoaded favorites)
      else if String.eqb requestType "fetchLocalFolders"
              || String.eqb requestType "fetchLocalTracks" then
        let dataVal := value responseObj "data" in
        let itemsArr :=
          if isObject dataVal then toArray (value (toObject dataVal) "items")
          else [] in
        if String.eqb requestType "fetchLocalFolders" then
          let folders :=
            map parseFolder
              (filter (fun item => toBool (value item "isFolder") false = true)
                      (map toObject itemsArr)) in
          emit (localFoldersLoaded folders)
        else
          folderPathV <- property reply "folderPath" ;;
          let folderPath := variantToString folderPathV in
          let tracks := map (fun val => parseTrack (toObject val)) itemsArr in
          emit (localTracksLoaded folderPath tracks)
      else if String.eqb requestType "searchTracks" then
        let arr := toArray (value responseObj "data") in
        let tracks := map (fun val => parseTrack (toObject val)) arr in
        emit (searchResultsReady tracks)
      else ret tt
  end.

Definition onReplyFinished (reply : nat) (result : Finished) : M unit :=
  modifyPending (filter (fun r => r ≠ reply)) ;;
  emit requestFinished ;;
  match networkError result with
  | Some errorString =>
      emit (apiError ("Network error: " +:+ errorString)) ;;
      deleteLater reply
  | None =>
      requestTypeV <- property reply "requestType" ;;
      handleResponse reply (variantToString requestTypeV) (body result) ;;
      deleteLater reply
  end.

(** [cancelPendingRequests]: the loop calls [abort()] on the pending
    replies that have not finished, then the list is cleared.  [abort()]
    makes a reply finish with an error, and the client answers a finished
    reply in [onReplyFinished], which removes it from [m_pendingReplies],
    the list the loop is going through.  Which replies the loop reaches
    after that is not fixed by the source, so the replies that are aborted
    within the call, with the state they finish in, are given: [aborted]. *)
Fixpoint abortAll (aborted : list (nat * Finished)) : M unit :=
  match aborted with
  | [] => ret tt
  | (reply, result) :: rest => onReplyFinished reply result ;; abortAll rest
  end.

Definition cancelPendingRequests (aborted : list (nat * Finished)) : M unit :=
  abortAll aborted ;;
  modifyPending (fun _ => []).

(** *** Vocabulary of the properties *)

(** The keys of [m_paginatedRequests]. *)
Definition channelKey (channelId : string) : string := "channel:" +:+ channelId.

Definition folderKey (channelId folderId : string) : string :=
  "folder:" +:+ channelId +:+ ":" +:+ folderId.

(** The entries one page contributes: its items in array order, parsed and
    stamped with the channel. *)
Definition pageTracks (channelId : string) (doc : QJsonValue) : list Track.t :=
  map (fun val => Track.setChannelId channelId (parseTrack (toObject val)))
      (itemArray (value (toObject doc) "data")).

Definition succeeded (doc : QJsonValue) : bool :=
  toBool (value (toObject doc) "success") false.

Definition pagination (doc : QJsonValue) : PaginationInfo.t :=
  parsePagination (toObject doc).

(** A failure envelope, or a body that is not JSON. *)
Definition failure (data : Body) : bool :=
  match data with
  | ParseError _ => true
  | Document doc => negb (succeeded doc)
  end.

(** The entry of a key after one more page, from the entry before it. *)
Definition accumulate (channelId folderId : string) (tracks : list Track.t)
    (info : PaginationInfo.t) (old : option PaginatedRequest.t)
  : PaginatedRequest.t :=
  match old with
  | Some r =>
      PaginatedRequest.mk (PaginatedRequest.channelId r)
        (PaginatedRequest.folderId r)
        (PaginatedRequest.accumulatedTracks r ++ tracks)
        (PaginationInfo.page info) (PaginatedRequest.pageSize r)
        (PaginationInfo.totalPages info)
  | None =>
      PaginatedRequest.mk channelId folderId tracks (PaginationInfo.page info)
        100 (PaginationInfo.totalPages info)
  end.

(** The reply objects the two page fetchers create. *)
Definition channelPageReply (url channelId : string) (page pageSize : Z)
  : QNetworkReply :=
  mkReply
    (mkRequest url
       (Fmt "/api/mobile/channels/%1/files?Page=%2&PageSize=%3"
            [AString channelId; AInt page; AInt pageSize]))
    (<["page" := VInt page]>
       (<["channelId" := VString channelId]>
          (<["requestType" := VString "fetchChannelTracks"]> ∅))).

Definition folderPageReply (url channelId folderId : string) (page pageSize : Z)
  : QNetworkReply :=
  mkReply
    (mkRequest url
       (Fmt "/api/mobile/channels/%1/files?folderId=%2&Page=%3&PageSize=%4"
            [AString channelId; AString folderId; AInt page; AInt pageSize]))
    (<["page" := VInt page]>
       (<["folderId" := VString folderId]>
          (<["channelId" := VString channelId]>
             (<["requestType" := VString "fetchFolderContents"]> ∅)))).

(** The world after a fetch that the configuration gate refused. *)
Definition refused (w : World) : unit * World :=
  (tt, mkWorld (m_serverUrl w) (m_localFolder w) (m_pendingReplies w)
         (m_paginatedRequests w) (replies w) (nextReply w) (sent w)
         (emitted w ++ [apiError notConfigured])).

(** A reply that arrived without a network error. *)
Definition arrives (doc : QJsonValue) : Finished := mkFinished None (Document doc).

(** *** Sample runs *)

Definition unconfigured : World := mkWorld "" "" [] ∅ ∅ 0 [] [].
Definition configured : World := mkWorld "http://tfm" "" [] ∅ ∅ 0 [] [].

Definition item (id : string) : QJsonValue := JObject [("id", JString id)].

Definition envelope (items : list QJsonValue) (page : Z) (hasNext : bool)
  : QJsonValue :=
  JObject [("success", JBool true);
           ("data", JArray items);
           ("pagination",
             JObject [("page", JDouble (inject_Z page)); ("hasNext", JBool hasNext)])].

Definition refusal : QJsonValue :=
  JObject [("success", JBool false); ("error", JString "boom")].

Definition track (channelId id : string) : Track.t :=
  Track.setChannelId channelId (parseTrack [("id", JString id)]).

(** Channel 7: the first page has arrived and announces a second one. *)
Definition firstPageDone : World :=
  exec (fetchChannelTracks "7" 0 100 ;;
        onReplyFinished 0 (arrives (envelope [item "a"] 1 true))) configured.

(** ... and the second page comes back as a failure envelope. *)
Definition failedSecondPage : World :=
  exec (onReplyFinished 1 (arrives refusal)) firstPageDone.

(** Channel 7 is fetched twice in a row; then the page of the first fetch
    arrives, then the page of the second. *)
Definition supersededFetch : World :=
  exec (fetchChannelTracks "7" 0 100 ;;
        fetchChannelTracks "7" 0 100 ;;
        onReplyFinished 0 (arrives (envelope [item "old"] 1 true)) ;;
        onReplyFinished 1 (arrives (envelope [item "new"] 1 false))) configured.

(** *** The URL of a local file

    The path, as its UTF-8 bytes, is percent-encoded twice. *)
Definition getLocalTrackUrl (filePath : string) (w : World) : string :=
  let firstEncode := toPercentEncoding filePath in
  let doubleEncode := toPercentEncoding firstEncode in
  m_serverUrl w +:+ "/api/mobile/stream/local?path=" +:+ doubleEncode.

(** *** The client in use

    The calls of the public interface, and the signal of the network
    manager that a reply has finished. *)

Inductive Call : Type :=
| SetServerUrl (url : string)
| SetLocalFolder (path : string)
| CheckConnection
| FetchChannels
| FetchChannelTracks (channelId : string) (offset limit : Z)
| FetchFolderContents (channelId folderId : string) (offset limit : Z)
| FetchFavorites
| FetchLocalFolders
| FetchLocalTracks (folderPath : string)
| SearchTracks (query : string) (offset limit : Z)
| DownloadTrack (trackId destPath : string)
| CancelPendingRequests (aborted : list (nat * Finished))
| ReplyFinished (reply : nat) (result : Finished).

Definition call (c : Call) : M unit :=
  match c with
  | SetServerUrl url => setServerUrl url
  | SetLocalFolder path => setLocalFolder path
  | CheckConnection => checkConnection
  | FetchChannels => fetchChannels
  | FetchChannelTracks channelId offset limit =>
      fetchChannelTracks channelId offset limit
  | FetchFolderContents channelId folderId offset limit =>
      fetchFolderContents channelId folderId offset limit
  | FetchFavorites => fetchFavorites
  | FetchLocalFolders => fetchLocalFolders
  | FetchLocalTracks folderPath => fetchLocalTracks folderPath
  | SearchTracks query offset limit => searchTracks query offset limit
  | DownloadTrack trackId destPath => downloadTrack trackId destPath
  | CancelPendingRequests aborted => cancelPendingRequests aborted
  | ReplyFinished reply result => onReplyFinished reply result
  end.

(** A reply that is in flight. *)
Definition inFlight (reply : nat) (w : World) : bool :=
  match replies w !! reply with Some _ => true | None => false end.

(** The calls that can take place in a state and have a defined
    behaviour there.  A reply finishes once, while it is in flight.
    [searchTracks] needs a value for its page once it is past the
    configuration gate.  What [cancelPendingRequests] aborts are pending
    replies in flight, each once, and they finish with an error. *)
Definition defined (c : Call) (w : World) : bool :=
  match c with
  | SearchTracks _ offset limit =>
      isEmpty (m_serverUrl w)
      || match searchPage offset limit with Some _ => true | None => false end
  | CancelPendingRequests aborted =>
      bool_decide (NoDup (map fst aborted))
      && forallb
           (fun '(reply, result) =>
              inFlight reply w
              && bool_decide (reply ∈ m_pendingReplies w)
              && match networkError result with Some _ => true | None => false end)
           aborted
  | ReplyFinished reply _ => inFlight reply w
  | _ => true
  end.

(** One step of the client, and a run of steps: [None] where a call could
    not take place or its behaviour is undefined. *)
Definition step (c : Call) (w : World) : option World :=
  if defined c w then Some (exec (call c) w) else None.

Fixpoint steps (cs : list Call) (w : World) : option World :=
  match cs with
  | [] => Some w
  | c :: rest =>
      match step c w with
      | Some w' => steps rest w'
      | None => None
      end
  end.

(** The network manager finishes the replies [p], [p + 1], ... one after
    the other, each with the next document of the list. *)
Fixpoint deliver (p : nat) (docs : list QJsonValue) : M unit :=
  match docs with
  | [] => ret tt
  | doc :: rest => onReplyFinished p (arrives doc) ;; deliver (S p) rest
  end.

(** *** More vocabulary *)

(** The tracks accumulated so far under an entry of the map. *)
Definition accumulated (entry : option PaginatedRequest.t) : list Track.t :=
  match entry with
  | Some r => PaginatedRequest.accumulatedTracks r
  | None => []
  end.

(** A page that succeeded and announces another one. *)
Definition continues (doc : QJsonValue) : bool :=
  succeeded doc && PaginationInfo.hasNext (pagination doc).

(** The URLs of one page of a channel, of one page of a folder and of a
    search, as the templates read. *)
Definition channelPageUrl (url channelId : string) (page pageSize : Z) : string :=
  url +:+ "/api/mobile/channels/" +:+ channelId +:+ "/files?Page="
  +:+ number page +:+ "&PageSize=" +:+ number pageSize.

Definition folderPageUrl (url channelId folderId : string) (page pageSize : Z)
  : string :=
  url +:+ "/api/mobile/channels/" +:+ channelId +:+ "/files?folderId="
  +:+ folderId +:+ "&Page=" +:+ number page +:+ "&PageSize=" +:+ number pageSize.

Definition searchUrl (url query : string) (page pageSize : Z) : string :=
  url +:+ "/api/mobile/channels/0/files?SearchText=" +:+ query +:+ "&Page="
  +:+ number page +:+ "&PageSize=" +:+ number pageSize.

(** The requests that ask for one page of a channel and of a folder. *)
Definition channelPageRequest (url channelId : string) (page pageSize : Z)
  : QNetworkRequest :=
  mkRequest url
    (Fmt "/api/mobile/channels/%1/files?Page=%2&PageSize=%3"
         [AString channelId; AInt page; AInt pageSize]).

Definition folderPageRequest (url channelId folderId : string)
    (page pageSize : Z) : QNetworkRequest :=
  mkRequest url
    (Fmt "/api/mobile/channels/%1/files?folderId=%2&Page=%3&PageSize=%4"
         [AString channelId; AString folderId; AInt page; AInt pageSize]).

(** The requests that follow a page which announces another one. *)
Definition nextChannelPage (url channelId : string) (doc : QJsonValue)
  : QNetworkRequest :=
  channelPageRequest url channelId
    (wrap_int (PaginationInfo.page (pagination doc) + 1))
    (PaginationInfo.pageSize (pagination doc)).

Definition nextFolderPage (url channelId folderId : string) (doc : QJsonValue)
  : QNetworkRequest :=
  folderPageRequest url channelId folderId
    (wrap_int (PaginationInfo.page (pagination doc) + 1))
    (PaginationInfo.pageSize (pagination doc)).

(** The URLs of the pages that follow a page which announces another one. *)
Definition nextChannelPageUrl (url channelId : string) (doc : QJsonValue) : string :=
  channelPageUrl url channelId
    (wrap_int (PaginationInfo.page (pagination doc) + 1))
    (PaginationInfo.pageSize (pagination doc)).

Definition nextFolderPageUrl (url channelId folderId : string) (doc : QJsonValue)
  : string :=
  folderPageUrl url channelId folderId
    (wrap_int (PaginationInfo.page (pagination doc) + 1))
    (PaginationInfo.pageSize (pagination doc)).

(** A property of a reply as [handleResponse] reads it: the text of
    [reply->property(name).toString()], empty when there is none. *)
Definition replyProperty (w : World) (p : nat) (name : string) : string :=
  variantToString (r ← replies w !! p; properties r !! name).

(** A finished reply that ends in [apiError]: a network error, a body that
    is not JSON, or a failure envelope. *)
Definition isError (result : Finished) : bool :=
  match networkError result with
  | Some _ => true
  | None => failure (body result)
  end.

(** Every pending reply is pending once and is a reply object that is
    alive; the reply objects that are alive were handed out before. *)
Definition pendingAlive (w : World) : Prop :=
  NoDup (m_pendingReplies w)
  /\ Forall (fun p => is_Some (replies w !! p)) (m_pendingReplies w)
  /\ (forall p, is_Some (replies w !! p) -> (p < nextReply w)%nat).

(** Kinds of signals: the two of the progress indication, the two of the
    header that no line of the client emits, and those that carry an answer
    or an error. *)
Definition isStarted (s : Signal) : bool :=
  match s with requestStarted => true | _ => false end.

Definition isFinished (s : Signal) : bool :=
  match s with requestFinished => true | _ => false end.

Definition isUnused (s : Signal) : bool :=
  match s with
  | connectionChecked _ _ | trackDownloaded _ _ => true
  | _ => false
  end.

Definition isQuiet (s : Signal) : bool :=
  negb (isStarted s) && negb (isFinished s) && negb (isUnused s).

(** How often a signal of a kind was emitted. *)
Definition count (p : Signal -> bool) (w : World) : nat :=
  length (List.filter p (emitted w)).

(** A run of [n] slashes. *)
Definition slashes (n : nat) : string := string_of_list_ascii (repeat "/"%char n).

(** The characters of a percent-encoded text. *)
Definition isUrlSafe (c : ascii) : bool := isUnreserved c || Ascii.eqb c "%".

End ApiClient.

(* ===================================================================== *)
(** ** TFMTrackModel *)
(* ===================================================================== *)

Module TrackModel.
Import Qt.

(** *** Binary64 arithmetic

    The size checks of [downloadTrackSync] are done in [double]:
    [data.size() < contentLength * 0.99] converts both integers, multiplies
    by the literal and compares.  The operations are those of the Standard
    Library's specification of IEEE 754 at precision 53. *)

Definition prec : Z := 53.
Definition emax : Z := 1024.

(** An integer converted to [double], rounded to nearest even. *)
Definition double_of_Z (z : Z) : spec_float := binary_normalize prec emax z 0 false.

(** The literal [0.99], that is [0x1.fae147ae147aep-1]. *)
Definition d0_99 : spec_float := S754_finite false 8917127262193582 (-53).

(** [size < total * 0.99]. *)
Definition belowTolerance (size total : Z) : bool :=
  SFltb (double_of_Z size) (SFmul prec emax (double_of_Z total) d0_99).

(** *** The host of the model *)

Abbreviation QByteArray := (list Byte.byte) (only parsing).

(** A row of the [tfm_tracks] table, as [getTrack] reads it.
    [libraryTitle] is the title column of the library cache, [title] the
    field of that name. *)
Record Row : Type := mkRow {
  libraryTitle : string;
  title : string;
  external_id : string;
  id : string;
  file_size : Z;
  local_path : string;
  file_url : string;
  location : string }.

(** What the download manager comes back with for one GET. *)
Record Reply : Type := mkAnswer {
  finishedInTime : bool;      (* the reply finished before the 60 s timer *)
  failed : bool;              (* [reply->error() != QNetworkReply::NoError] *)
  statusCode : Z;
  contentType : string;
  contentLength : Z;          (* the header as a number, 0 when absent *)
  payload : QByteArray }.

(** What the disk does with one write of a buffer. *)
Inductive WriteOutcome : Type :=
| OpenFailed
| Written (written : Z) (stored : QByteArray).

(** Qt and the operating system: the path component of a URL, the answer
    to a GET and the outcome of a write. *)
Record Env : Type := mkEnv {
  urlPath : string -> string;
  download : string -> Reply;
  storage : string -> QByteArray -> WriteOutcome }.

(** The regular files on disk and the URLs requested so far. *)
Record Host : Type := mkHost {
  files : gmap string QByteArray;
  requested : list string }.

Definition exists_ (path : string) (w : Host) : bool :=
  match files w !! path with Some _ => true | None => false end.

Definition isFile (path : string) (w : Host) : bool := exists_ path w.

Definition fileSize (path : string) (w : Host) : Z :=
  match files w !! path with
  | Some content => Z.of_nat (length content)
  | None => 0
  end.

Definition remove (path : string) (w : Host) : Host :=
  mkHost (delete path (files w)) (requested w).

Definition store (path : string) (content : QByteArray) (w : Host) : Host :=
  mkHost (<[path := content]> (files w)) (requested w).

Definition get (url : string) (w : Host) : Host :=
  mkHost (files w) (requested w ++ [url]).

Definition size (data : QByteArray) : Z := Z.of_nat (length data).

(** *** getFileExtension *)

Definition knownExtension (ext : string) : bool :=
  String.eqb ext ".mp3" || String.eqb ext ".flac" || String.eqb ext ".wav"
  || String.eqb ext ".ogg" || String.eqb ext ".m4a" || String.eqb ext ".aac"
  || String.eqb ext ".opus" || String.eqb ext ".wma".

Definition extensionOf (name : string) : option string :=
  let dotPos := lastIndexOf "." name in
  if 0 <? dotPos then
    let ext := toLower (mid (Z.to_nat dotPos) name) in
    if knownExtension ext then Some ext else None
  else None.

Definition getFileExtension (env : Env) (trackName url : string) : string :=
  match (if negb (isEmpty trackName) then extensionOf trackName else None) with
  | Some ext => ext
  | None =>
      match extensionOf (urlPath env url) with
      | Some ext => ext
      | None => ".mp3"
      end
  end.

(** *** downloadTrackSync

    The sniff of the first bytes for an audio signature only writes to the
    log and is left out, as is the log itself. *)

(** Lines 323 to 349: open, write, close, verify. *)
Definition writeFile (env : Env) (destPath : string) (data : QByteArray)
    (w : Host) : string * Host :=
  match storage env destPath data with
  | OpenFailed => ("", w)
  | Written written stored =>
      let w := store destPath stored w in
      if negb (written =? size data) then ("", remove destPath w)
      else if negb (fileSize destPath w =? size data) then ("", remove destPath w)
      else (destPath, w)
  end.

Definition downloadTrackSync (env : Env) (url destPath : string)
    (expectedSize : Z) (w : Host) : string * Host :=
  let w := get url w in
  let reply := download env url in
  if negb (finishedInTime reply) then ("", w)
  else if failed reply then ("", w)
  else if negb (statusCode reply =? 200) then ("", w)
  else if containsCI (contentType reply) "text/html" then ("", w)
  else
    let contentLength := contentLength reply in
    let data := payload reply in
    if size data =? 0 then ("", w)
    else if (0 <? contentLength) && negb (size data =? contentLength)
            && belowTolerance (size data) contentLength then ("", w)
    else if (0 <? expectedSize) && negb (size data =? expectedSize)
            && belowTolerance (size data) expectedSize then ("", w)
    else writeFile env destPath data w.

(** *** getTrack *)

Definition getTrackLocation (index : Row) (w : Host) : string :=
  let localPath := local_path index in
  if (5 <? Z.of_nat (String.length localPath)) && isFile localPath w then localPath
  else
    let fileUrl := file_url index in
    if negb (isEmpty fileUrl) && startsWith fileUrl "http" then fileUrl
    else
      let location := location index in
      if negb (isEmpty location) && startsWith location "http" then location
      else "".

Definition isRemote (location : string) : bool :=
  startsWith location "http://" || startsWith location "https://".

(** Lines 70 to 75. *)
Definition sanitize (externalId : string) : string :=
  replace ":" "_" (replace "\" "_" (replace "/" "_" externalId)).

(** Lines 77 to 82, after the cache directory and its slash. *)
Definition cacheFileName (sanitizedId fileExt : string) : string :=
  let sanitizedId :=
    if endsWithCI sanitizedId fileExt then
      left (String.length sanitizedId - String.length fileExt) sanitizedId
    else sanitizedId in
  sanitizedId +:+ fileExt.

Definition cachePath (env : Env) (m_cacheDir : string) (index : Row)
    (location : string) : string :=
  let trackName :=
    if isEmpty (libraryTitle index) then title index else libraryTitle index in
  let externalId :=
    if isEmpty (external_id index) then id index else external_id index in
  let fileExt := getFileExtension env trackName location in
  m_cacheDir +:+ "/" +:+ cacheFileName (sanitize externalId) fileExt.

(** Lines 87 to 109: the location after the probe of the cache. *)
Definition probeCache (localPath location : string) (expectedSize : Z)
    (w : Host) : string * Host :=
  if exists_ localPath w then
    let cachedSize := fileSize localPath w in
    let sizeValid := 1000 <? cachedSize in
    let sizeMatches := (expectedSize <=? 0) || (cachedSize =? expectedSize) in
    if sizeValid && sizeMatches then (localPath, w)
    else (location, remove localPath w)
  else (location, w).

(** [getTrack] up to the call of [getOrAddTrack]: the file handed to the
    track collection, or nothing where the source returns a null track. *)
Definition getTrack (env : Env) (m_cacheDir : string) (index : Row) (w : Host)
  : option string * Host :=
  let location := getTrackLocation index w in
  if isEmpty location then (None, w)
  else if isRemote location then
    let localPath := cachePath env m_cacheDir index location in
    let expectedSize := file_size index in
    let '(location', w) := probeCache localPath location expectedSize w in
    if negb (String.eqb location' localPath) then
      let storedLocalPath := local_path index in
      if (5 <? Z.of_nat (String.length storedLocalPath))
         && isFile storedLocalPath w
      then (Some storedLocalPath, w)
      else
        let '(downloadedPath, w) :=
          downloadTrackSync env location' localPath expectedSize w in
        if negb (isEmpty downloadedPath) then (Some downloadedPath, w)
        else (None, w)
    else (Some location', w)
  else (Some location, w).

(** *** Vocabulary of the properties *)

(** The validity test of lines 92 to 95. *)
Definition cacheValid (cachedSize expectedSize : Z) : bool :=
  (1000 <? cachedSize) && ((expectedSize <=? 0) || (cachedSize =? expectedSize)).

(** The name ends with the extension, and what is before it does not. *)
Definition endsWithOnce (name ext : string) : bool :=
  endsWith name ext
  && negb (endsWithCI (left (String.length name - String.length ext) name) ext).

(** *** Sample worlds *)

Definition audio (n : nat) : QByteArray := replicate n Byte.x00.

(** A server that answers every GET with [reply], and a disk that stores
    what it is given. *)
Definition serving (reply : Reply) : Env :=
  mkEnv (fun url => url) (fun _ => reply) (fun _ data => Written (size data) data).

Definition song : Row :=
  mkRow "" "song.mp3" "abc" "1" 5000 ""
        "http://tfm/api/mobile/stream/download/7/abc" "".

Definition songUrl : string := "http://tfm/api/mobile/stream/download/7/abc".

Definition emptyDisk : Host := mkHost ∅ [].

Definition cachedDisk : Host := mkHost {[ "/cache/abc.mp3" := audio 5000 ]} [].

(** The same track with a stored local path, and a disk that has the file
    of that path and a file of [n] bytes at the cache path. *)
Definition localSong : Row :=
  mkRow "" "song.mp3" "abc" "1" 5000 "/music/song.mp3"
        "http://tfm/api/mobile/stream/download/7/abc" "".

Definition localAndCached (n : nat) : Host :=
  mkHost {[ "/music/song.mp3" := audio 3000; "/cache/abc.mp3" := audio n ]} [].

Definition notFound : Reply := mkAnswer true false 404 "text/plain" 9 (audio 9).

Definition emptyAnswer : Reply := mkAnswer true false 200 "audio/mpeg" 0 [].

(** 4960 bytes arrive where 5000 were announced. *)
Definition slightlyShort : Reply :=
  mkAnswer true false 200 "audio/mpeg" 5000 (audio 4960).

(** *** More vocabulary *)

(** The characters that [getTrack] replaces in an external id. *)
Definition isSeparator (c : ascii) : bool :=
  Ascii.eqb c "/" || Ascii.eqb c "\" || Ascii.eqb c ":".

Definition noSeparator (s : string) : bool :=
  allChars (fun c => negb (isSeparator c)) s.

End TrackModel.

(* ===================================================================== *)
(** ** The library feature (src/library/tfm/tfmfeature.cpp)

    The parts of [TFMFeature] that decide what is asked of the API client
    and what is kept of its answers.  The sidebar widgets, the loading
    dialog and the SQL statements are left out. *)
(* ===================================================================== *)

Module Feature.
Import Qt ApiClient.

Definition kChannelType : string := "channel".
Definition kFavoriteType : string := "favorite".
Definition kLocalFolderType : string := "local_folder".
Definition kFolderType : string := "folder".
Definition kRootChannels : string := "root_channels".
Definition kRootFavorites : string := "root_favorites".
Definition kRootLocal : string := "root_local".

(** *** The data of the sidebar items *)

(** [slotChannelsLoaded]: the item of a channel, and of a favourite. *)
Definition channelItemData (ch : Channel.t) : string :=
  kChannelType +:+ ":" +:+ number (Channel.id ch).

Definition favoriteItemData (ch : Channel.t) : string :=
  kFavoriteType +:+ ":" +:+ number (Channel.id ch).

(** [addFoldersToSidebar] and [addSubfoldersToSidebar]: the item of a
    folder of a channel. *)
Definition folderItemData (channelId : string) (folder : Track.t) : string :=
  kFolderType +:+ ":" +:+ channelId +:+ ":" +:+ Track.id folder.

(** [addLocalFoldersToSidebar]: the item of a local folder. *)
Definition localFolderItemData (folder : Track.t) : string :=
  kLocalFolderType +:+ ":" +:+ Track.path folder.

(** An id without a colon. *)
Definition hasNoColon (s : string) : bool :=
  allChars (fun c => negb (Ascii.eqb c ":")) s.

(** *** activateChild

    What a click on the item with data [dataStr] does: the value it
    assigns to [m_currentItemType], if any, and the call of the API client
    it makes ([loadChannelTracks] is [fetchChannelTracks] with the default
    offset and limit of the header).  [None] where no branch is taken. *)

Record Activated : Type := mkActivated {
  currentItemType : option string;
  clientCall : Call }.

Definition activateChild (dataStr : string) : option Activated :=
  if startsWith dataStr (kChannelType +:+ ":") then
    let channelId := section1 ":" dataStr in
    Some (mkActivated (Some kChannelType) (FetchChannelTracks channelId 0 100))
  else if startsWith dataStr (kFavoriteType +:+ ":") then
    let channelId := section1 ":" dataStr in
    Some (mkActivated (Some kFavoriteType) (FetchChannelTracks channelId 0 100))
  else if startsWith dataStr (kFolderType +:+ ":") then
    match split ":" dataStr with
    | _ :: channelId :: folderId :: _ =>
        Some (mkActivated None (FetchFolderContents channelId folderId 0 100))
    | _ => None
    end
  else if String.eqb dataStr kRootLocal then
    Some (mkActivated None (FetchLocalTracks ""))
  else if startsWith dataStr (kLocalFolderType +:+ ":") then
    let folderPath := mid (String.length (kLocalFolderType +:+ ":")) dataStr in
    Some (mkActivated None (FetchLocalTracks folderPath))
  else None.

(** *** The items of an answer

    The loop at the head of [slotTracksLoaded], [slotFolderContentsLoaded]
    and [slotLocalTracksLoaded], the same text three times. *)

Definition itemIsFolder (item : Track.t) : bool :=
  Track.isFolder item
  || (negb (Track.isFile item) && String.eqb (Track.category item) "Folder").

Definition itemIsAudio (item : Track.t) : bool :=
  String.eqb (toLower (Track.category item)) "audio"
  || endsWithCI (Track.name item) ".mp3"
  || endsWithCI (Track.name item) ".flac"
  || endsWithCI (Track.name item) ".wav"
  || endsWithCI (Track.name item) ".ogg"
  || endsWithCI (Track.name item) ".m4a".

(** One turn of the loop on the pair of [audioTracks] and [folders]. *)
Definition separateItem (lists : list Track.t * list Track.t) (item : Track.t)
  : list Track.t * list Track.t :=
  let (audioTracks, folders) := lists in
  if itemIsFolder item then (audioTracks, folders ++ [item])
  else if itemIsAudio item then (audioTracks ++ [item], folders)
  else (audioTracks, folders).

Definition separate (tracks : list Track.t) : list Track.t * list Track.t :=
  fold_left separateItem tracks ([], []).

(** The test at the head of the loop of [insertTracksIntoDatabase]:
    [true] where the loop goes on to the next track. *)
Definition skipped (tr : Track.t) : bool :=
  negb (String.eqb (toLower (Track.category tr)) "audio")
  && negb (endsWithCI (Track.name tr) ".mp3")
  && negb (endsWithCI (Track.name tr) ".flac")
  && negb (endsWithCI (Track.name tr) ".wav")
  && negb (endsWithCI (Track.name tr) ".ogg")
  && negb (endsWithCI (Track.name tr) ".m4a").

(** *** The configuration

    [setServerUrl] also writes the URL to the configuration, which is left
    out. *)

Definition setServerUrl (url : string) : M unit := ApiClient.setServerUrl url.

Definition isConfigured (w : World) : bool := negb (isEmpty (m_serverUrl w)).

End Feature.

(* ===================================================================== *)
(** ** Facts about binary64 rounding *)
(* ===================================================================== *)

(** The size checks compare an integer with a product rounded to binary64.
    This module relates the Standard Library's rounding to integer
    arithmetic: [round_order] places the rounded value of [M * 2^E] against
    any 53-bit float, and [belowTolerance_exact] concludes that the check
    [size < total * 0.99] is the exact comparison [100 * size < 99 * total]
    for every buffer below 2^45 bytes. *)

Module Binary64Facts.
Import Qt TrackModel.

Lemma digits2_pos_bounds (p : positive) :
  2 ^ (Zpos (digits2_pos p) - 1) <= Zpos p < 2 ^ Zpos (digits2_pos p).
Proof.
  induction p as [p IH|p IH|]; cbn [digits2_pos].
  - rewrite Pos2Z.inj_succ, Z.pow_succ_r by lia.
    replace (Z.succ (Zpos (digits2_pos p)) - 1) with (Z.succ (Zpos (digits2_pos p) - 1)) by lia.
    rewrite Z.pow_succ_r by lia. lia.
  - rewrite Pos2Z.inj_succ, Z.pow_succ_r by lia.
    replace (Z.succ (Zpos (digits2_pos p)) - 1) with (Z.succ (Zpos (digits2_pos p) - 1)) by lia.
    rewrite Z.pow_succ_r by lia. lia.
  - cbn. lia.
Qed.

Lemma digits2_pos_unique (p : positive) (n : Z) :
  2 ^ (n - 1) <= Zpos p < 2 ^ n -> Zpos (digits2_pos p) = n.
Proof.
  intros [Hlo Hhi]. pose proof (digits2_pos_bounds p) as [Dlo Dhi].
  set (d := Zpos (digits2_pos p)) in *.
  assert (0 < n).
  { destruct (Z.ltb_spec 0 n); [assumption|].
    destruct (Z.eq_dec n 0) as [->|];
      [cbn in Hhi; lia | rewrite Z.pow_neg_r in Hhi by lia; lia]. }
  destruct (Z.lt_trichotomy d n) as [Hlt|[Heq|Hgt]]; [|assumption|].
  - assert (2 ^ d <= 2 ^ (n - 1)) by (apply Z.pow_le_mono_r; lia). lia.
  - assert (2 ^ n <= 2 ^ (d - 1)) by (apply Z.pow_le_mono_r; lia). lia.
Qed.

Lemma iter_pos_nat {A : Type} (f : A -> A) (p : positive) (x : A) :
  SpecFloat.iter_pos f p x = Nat.iter (Pos.to_nat p) f x.
Proof.
  revert x. induction p as [p IH|p IH|]; intros x; cbn [SpecFloat.iter_pos].
  - rewrite !IH, Pos2Nat.inj_xI.
    replace (S (2 * Pos.to_nat p)) with (Pos.to_nat p + (Pos.to_nat p + 1))%nat by lia.
    rewrite !Nat.iter_add. reflexivity.
  - rewrite !IH, Pos2Nat.inj_xO.
    replace (2 * Pos.to_nat p)%nat with (Pos.to_nat p + Pos.to_nat p)%nat by lia.
    rewrite Nat.iter_add. reflexivity.
  - reflexivity.
Qed.


Lemma shr_1_spec (mrs : shr_record) :
  0 <= shr_m mrs ->
  shr_m (shr_1 mrs) = shr_m mrs / 2
  /\ shr_r (shr_1 mrs) = Z.odd (shr_m mrs)
  /\ shr_s (shr_1 mrs) = shr_r mrs || shr_s mrs.
Proof.
  destruct mrs as [m r s]. cbn [shr_m shr_r shr_s]. intros Hm.
  destruct m as [|p|p]; [| |lia].
  - repeat split.
  - destruct p as [p|p|]; cbn [shr_1 shr_m shr_r shr_s].
    + repeat split. rewrite Pos2Z.inj_xI.
      apply Z.div_unique with (r := 1); lia.
    + repeat split. rewrite Pos2Z.inj_xO.
      apply Z.div_unique with (r := 0); lia.
    + repeat split.
Qed.

Lemma shr_iter_spec (M : Z) (j : nat) :
  0 <= M ->
  let mrs := Nat.iter j shr_1 (Build_shr_record M false false) in
  shr_m mrs = M / 2 ^ Z.of_nat j
  /\ (M mod 2 ^ Z.of_nat j = 0 -> shr_r mrs = false /\ shr_s mrs = false).
Proof.
  intros HM. induction j as [|j [IHm IHrs]].
  - cbn. rewrite Z.div_1_r. auto.
  - cbn zeta in *. rewrite Nat.iter_succ.
    set (mrs := Nat.iter j shr_1 _) in *.
    assert (Hpos : 0 <= shr_m mrs).
    { rewrite IHm. apply Z.div_pos; [lia | apply Z.pow_pos_nonneg; lia]. }
    destruct (shr_1_spec mrs Hpos) as (Em & Er & Es).
    assert (Hp : 0 < 2 ^ Z.of_nat j) by (apply Z.pow_pos_nonneg; lia).
    rewrite Nat2Z.inj_succ, Z.pow_succ_r by lia.
    split.
    + rewrite Em, IHm, Z.div_div by lia. f_equal. lia.
    + intros Hmod. apply Z.mod_divide in Hmod; [|lia].
      destruct Hmod as [q Hq].
      assert (M mod 2 ^ Z.of_nat j = 0).
      { apply Z.mod_divide; [lia|]. exists (q * 2). lia. }
      destruct (IHrs H) as [Hr Hs]. rewrite Er, Es, Hr, Hs. split; [|reflexivity].
      rewrite IHm. replace M with ((q * 2) * 2 ^ Z.of_nat j) by lia.
      rewrite Z.div_mul by lia. rewrite Z.mul_comm. apply Z.odd_even.
Qed.

Lemma round_nearest_even_bounds (m : Z) (l : SpecFloat.location) :
  m <= round_nearest_even m l <= m + 1.
Proof.
  destruct l as [|[| |]]; cbn [round_nearest_even]; try lia.
  destruct (Z.even m); lia.
Qed.


Lemma shr_spec (M E k : Z) :
  0 <= M -> 0 <= k ->
  exists mrs : shr_record,
    shr (Build_shr_record M false false) E k = (mrs, E + k)
    /\ shr_m mrs = M / 2 ^ k
    /\ (M mod 2 ^ k = 0 -> shr_r mrs = false /\ shr_s mrs = false).
Proof.
  intros HM Hk. destruct k as [|p|p]; [| |lia].
  - eexists. cbn [shr]. rewrite Z.add_0_r, Z.pow_0_r, Z.div_1_r. auto.
  - eexists. cbn [shr]. split; [reflexivity|]. rewrite iter_pos_nat.
    rewrite <- (positive_nat_Z p). apply shr_iter_spec. exact HM.
Qed.

Lemma fexp_normal (e : Z) : -1074 <= e - 53 -> fexp 53 1024 e = e - 53.
Proof. intros H. unfold fexp, emin. lia. Qed.

Lemma binary_round_aux_spec (M : positive) (E : Z) :
  let d := Zpos (digits2_pos M) in
  let k := d - 53 in
  let m0 := Zpos M / 2 ^ k in
  53 <= d -> -1074 <= E + k -> E + k + 1 <= 971 ->
  exists (m : positive) (e : Z),
    binary_round_aux 53 1024 false (Zpos M) E loc_Exact = S754_finite false m e
    /\ 2 ^ 52 <= Zpos m < 2 ^ 53
    /\ ((e = E + k /\ m0 <= Zpos m <= m0 + 1
         /\ (Zpos M mod 2 ^ k = 0 -> Zpos m = m0))
        \/ (e = E + k + 1 /\ Zpos m = 2 ^ 52 /\ m0 = 2 ^ 53 - 1
            /\ Zpos M mod 2 ^ k <> 0)).
Proof.
  intros d k m0 Hd Hlo Hhi.
  pose proof (digits2_pos_bounds M) as [Mlo Mhi]. fold d in Mlo, Mhi.
  assert (Hk : 0 <= k) by (unfold k; lia).
  assert (Hm0 : 2 ^ 52 <= m0 < 2 ^ 53).
  { unfold m0. assert (0 < 2 ^ k) by (apply Z.pow_pos_nonneg; lia). split.
    - apply Z.div_le_lower_bound; [lia|].
      rewrite <- Z.pow_add_r by lia. replace (k + 52) with (d - 1) by (unfold k; lia).
      exact Mlo.
    - apply Z.div_lt_upper_bound; [lia|].
      rewrite <- Z.pow_add_r by lia. replace (k + 53) with d by (unfold k; lia).
      exact Mhi. }
  unfold binary_round_aux, shr_fexp. cbn [shr_record_of_loc Zdigits2]. fold d.
  rewrite fexp_normal by (unfold k in Hlo; lia).
  replace (d + E - 53 - E) with k by (unfold k; lia).
  destruct (shr_spec (Zpos M) E k ltac:(lia) Hk) as (mrs & -> & Hm & Hrs).
  fold m0 in Hm.
  set (m1 := round_nearest_even (shr_m mrs) (loc_of_shr_record mrs)).
  assert (Hm1 : m0 <= m1 <= m0 + 1).
  { unfold m1. rewrite <- Hm. apply round_nearest_even_bounds. }
  assert (Hexact : Zpos M mod 2 ^ k = 0 -> m1 = m0).
  { intros Hz. destruct (Hrs Hz) as [Hr Hs]. unfold m1.
    destruct mrs as [mm r s]. cbn [shr_m shr_r shr_s] in *. subst r s mm. reflexivity. }
  destruct m1 as [|pm1|pm1] eqn:Em1; [lia| |lia].
  destruct (Z.eq_dec (Zpos pm1) (2 ^ 53)) as [Hover|Hnot].
  - assert (pm1 = 9007199254740992%positive)
      by (change (2 ^ 53) with 9007199254740992 in Hover; congruence).
    subst pm1. change (Zdigits2 9007199254740992) with 54.
    rewrite fexp_normal by lia.
    replace (54 + (E + k) - 53 - (E + k)) with 1 by lia.
    cbn [shr SpecFloat.iter_pos shr_1 shr_m].
    replace (E + k + 1 <=? 1024 - 53) with true by (symmetry; apply Z.leb_le; lia).
    exists 4503599627370496%positive, (E + k + 1).
    split; [reflexivity|]. split; [cbn; lia|]. right.
    change (2 ^ 52) with 4503599627370496. change (2 ^ 53) with 9007199254740992 in *.
    repeat split; lia.
  - assert (Hdig : Zpos (digits2_pos pm1) = 53).
    { apply digits2_pos_unique. change (53 - 1) with 52. lia. }
    cbn [Zdigits2]. rewrite Hdig, fexp_normal by lia.
    replace (53 + (E + k) - 53 - (E + k)) with 0 by lia.
    cbn [shr shr_m].
    replace (E + k <=? 1024 - 53) with true by (symmetry; apply Z.leb_le; lia).
    exists pm1, (E + k). split; [reflexivity|]. split; [lia|]. left.
    split; [reflexivity|]. split; [lia|]. exact Hexact.
Qed.


Lemma round_order (M : positive) (E b : Z) (mt et : Z) :
  let d := Zpos (digits2_pos M) in
  53 <= d -> -1074 <= E + (d - 53) -> E + (d - 53) + 1 <= 971 ->
  2 ^ 52 <= mt < 2 ^ 53 -> 0 <= E + b -> 0 <= et + b ->
  exists (m : positive) (e : Z),
    binary_round_aux 53 1024 false (Zpos M) E loc_Exact = S754_finite false m e
    /\ (Zpos M * 2 ^ (E + b) <= mt * 2 ^ (et + b) ->
        e < et \/ (e = et /\ Zpos m <= mt))
    /\ ((mt + 1) * 2 ^ (et + b) <= Zpos M * 2 ^ (E + b) ->
        et < e \/ (e = et /\ mt < Zpos m)).
Proof.
  intros d Hd Hlo Hhi Hmt HE Het.
  destruct (binary_round_aux_spec M E Hd Hlo Hhi) as (m & e & Hres & Hm & Hcase).
  fold d in Hcase. set (k := d - 53) in *. set (m0 := Zpos M / 2 ^ k) in *.
  exists m, e. split; [exact Hres|].
  assert (Hk : 0 <= k) by (unfold k; lia).
  assert (HK : 0 < 2 ^ k) by (apply Z.pow_pos_nonneg; lia).
  assert (HP : 0 < 2 ^ (E + b)) by (apply Z.pow_pos_nonneg; lia).
  assert (HT : 0 < 2 ^ (et + b)) by (apply Z.pow_pos_nonneg; lia).
  assert (Hdiv : Zpos M = 2 ^ k * m0 + Zpos M mod 2 ^ k) by (apply Z.div_mod; lia).
  assert (Hrem : 0 <= Zpos M mod 2 ^ k < 2 ^ k) by (apply Z.mod_pos_bound; lia).
  assert (HPe : 2 ^ (E + k + b) = 2 ^ k * 2 ^ (E + b)).
  { replace (E + k + b) with (k + (E + b)) by lia. apply Z.pow_add_r; lia. }
  assert (Hm0 : 2 ^ 52 <= m0 < 2 ^ 53).
  { destruct Hcase as [(_ & H1 & _)|(_ & _ & H1 & _)]; [|rewrite H1; cbn; lia].
    pose proof (digits2_pos_bounds M) as [Mlo Mhi]. fold d in Mlo, Mhi.
    unfold m0. split.
    - apply Z.div_le_lower_bound; [lia|].
      rewrite <- Z.pow_add_r by lia. replace (k + 52) with (d - 1) by (unfold k; lia).
      exact Mlo.
    - apply Z.div_lt_upper_bound; [lia|].
      rewrite <- Z.pow_add_r by lia. replace (k + 53) with d by (unfold k; lia).
      exact Mhi. }
  change (2 ^ 52) with 4503599627370496 in *.
  change (2 ^ 53) with 9007199254740992 in *.
  set (P := 2 ^ (E + b)) in *. set (K := 2 ^ k) in *. set (T := 2 ^ (et + b)) in *.
  set (r := Zpos M mod K) in *.
  destruct (Z.lt_trichotomy et (E + k)) as [Hlt|[Heq|Hgt]].
  - (* the target lies below the binade of the result *)
    assert (HTP : 2 * T <= K * P).
    { rewrite <- HPe. unfold T. rewrite <- Z.pow_succ_r by lia.
      apply Z.pow_le_mono_r; lia. }
    split.
    + intros Hle. exfalso.
      assert (mt * T < 9007199254740992 * T) by (apply Z.mul_lt_mono_pos_r; lia).
      assert (4503599627370496 * (K * P) <= m0 * (K * P))
        by (apply Z.mul_le_mono_nonneg_r; lia).
      assert (m0 * (K * P) <= Zpos M * P).
      { rewrite Hdiv. nia. }
      lia.
    + intros _. destruct Hcase as [(-> & _)|(-> & _)]; lia.
  - (* same binade *)
    assert (HTP : T = K * P).
    { rewrite <- HPe. unfold T. f_equal. lia. }
    split.
    + intros Hle. rewrite HTP in Hle.
      assert (HMK : Zpos M <= mt * K).
      { apply Z.mul_le_mono_pos_r with (p := P); [lia|].
        rewrite <- Z.mul_assoc. exact Hle. }
      assert (Hm0t : m0 <= mt).
      { unfold m0. apply Z.div_le_upper_bound; lia. }
      destruct Hcase as [(-> & Hb & Hex)|(-> & _ & H1 & Hnz)].
      * right. split; [lia|].
        destruct (Z.eq_dec m0 mt) as [E0|N0]; [|lia].
        rewrite Hex; [lia|]. subst mt. lia.
      * exfalso. assert (E0 : mt = m0) by lia. subst mt. apply Hnz. lia.
    + intros Hge. rewrite HTP in Hge.
      assert (HMK : (mt + 1) * K <= Zpos M).
      { apply Z.mul_le_mono_pos_r with (p := P); [lia|].
        rewrite <- Z.mul_assoc. exact Hge. }
      assert (Hm0t : mt + 1 <= m0).
      { unfold m0. apply Z.div_le_lower_bound; lia. }
      destruct Hcase as [(-> & Hb & _)|(-> & _)]; lia.
  - (* the target lies above the binade of the result *)
    assert (HTP : 2 * (K * P) <= T).
    { rewrite <- HPe. rewrite <- Z.pow_succ_r by lia. unfold T.
      apply Z.pow_le_mono_r; lia. }
    split.
    + intros _. destruct Hcase as [(-> & _)|(-> & -> & _)]; lia.
    + intros Hge. exfalso.
      assert ((4503599627370496 + 1) * T <= (mt + 1) * T)
        by (apply Z.mul_le_mono_nonneg_r; lia).
      assert (Zpos M * P < (m0 + 1) * (K * P)).
      { rewrite Hdiv. nia. }
      assert ((m0 + 1) * (K * P) <= 9007199254740992 * (K * P))
        by (apply Z.mul_le_mono_nonneg_r; lia).
      lia.
Qed.


Lemma iter_xO_spec (z p : positive) : Zpos (Pos.iter xO z p) = Zpos z * 2 ^ Zpos p.
Proof.
  induction p as [|p IH] using Pos.peano_ind.
  - cbn. lia.
  - rewrite Pos.iter_succ, Pos2Z.inj_xO, IH, Pos2Z.inj_succ, Z.pow_succ_r by lia. lia.
Qed.

Lemma double_of_Z_spec (z : Z) :
  0 < z < 2 ^ 63 ->
  exists (m : positive) (e : Z),
    double_of_Z z = S754_finite false m e
    /\ 2 ^ 52 <= Zpos m < 2 ^ 53
    /\ -52 <= e <= 11
    /\ (z < 2 ^ 53 -> Zpos m * 2 ^ (e + 52) = z * 2 ^ 52)
    /\ (2 ^ 53 <= z -> 2 ^ 105 <= Zpos m * 2 ^ (e + 52)).
Proof.
  intros [Hz0 Hz63]. destruct z as [|p|p]; [lia| |lia].
  pose proof (digits2_pos_bounds p) as [Plo Phi].
  set (d := Zpos (digits2_pos p)) in *.
  assert (Hd : 1 <= d <= 63).
  { split; [unfold d; lia|].
    assert (d - 1 < 63); [|lia]. apply (Z.pow_lt_mono_r_iff 2); lia. }
  unfold double_of_Z, binary_normalize, binary_round, prec, emax.
  rewrite Z.add_0_r. fold d. rewrite fexp_normal by lia.
  unfold shl_align. rewrite Z.sub_0_r.
  destruct (d - 53) as [|q|q] eqn:Eq.
  - (* exactly 53 digits *)
    destruct (binary_round_aux_spec p 0) as (m & e & -> & Hm & Hcase);
      fold d; try lia.
    fold d in Hcase. rewrite Eq, Z.pow_0_r, Z.div_1_r, Z.mod_1_r in Hcase.
    exists m, e. split; [reflexivity|]. split; [exact Hm|].
    destruct Hcase as [(-> & _ & Hex)|(_ & _ & _ & Hnz)]; [|congruence].
    rewrite (Hex eq_refl). repeat split; lia.
  - (* more than 53 digits: rounding *)
    destruct (binary_round_aux_spec p 0) as (m & e & -> & Hm & Hcase);
      fold d; try lia.
    fold d in Hcase. rewrite Eq in Hcase.
    exists m, e. split; [reflexivity|]. split; [exact Hm|].
    assert (He : 1 <= e <= 11) by (destruct Hcase as [(-> & _)|(-> & _)]; lia).
    split; [lia|]. split.
    + intros Hsmall. exfalso.
      assert (2 ^ 53 <= 2 ^ (d - 1)) by (apply Z.pow_le_mono_r; lia). lia.
    + intros _. change (2 ^ 105) with (2 ^ 52 * 2 ^ 53).
      apply Z.mul_le_mono_nonneg; try lia.
      apply Z.pow_le_mono_r; lia.
  - (* fewer than 53 digits: the mantissa is shifted left *)
    pose proof (iter_xO_spec p q) as Hshift.
    set (M := Pos.iter xO p q) in *.
    assert (Hq : Zpos q = 53 - d) by lia.
    assert (Hdq : 2 ^ (d - 1) * 2 ^ Zpos q = 2 ^ 52).
    { rewrite <- Z.pow_add_r by lia. f_equal. lia. }
    assert (Hdq' : 2 ^ d * 2 ^ Zpos q = 2 ^ 53).
    { rewrite <- Z.pow_add_r by lia. f_equal. lia. }
    assert (HQ : 0 < 2 ^ Zpos q) by (apply Z.pow_pos_nonneg; lia).
    assert (HM : 2 ^ 52 <= Zpos M < 2 ^ 53).
    { rewrite Hshift, <- Hdq, <- Hdq'. split.
      - apply Z.mul_le_mono_nonneg_r; lia.
      - apply Z.mul_lt_mono_pos_r; lia. }
    assert (HdM : Zpos (digits2_pos M) = 53).
    { apply digits2_pos_unique. change (53 - 1) with 52. exact HM. }
    destruct (binary_round_aux_spec M (Z.neg q)) as (m & e & -> & Hm & Hcase);
      rewrite ?HdM; try lia.
    rewrite HdM in Hcase. change (53 - 53) with 0 in Hcase.
    rewrite Z.pow_0_r, Z.div_1_r, Z.mod_1_r in Hcase.
    exists m, e. split; [reflexivity|]. split; [exact Hm|].
    destruct Hcase as [(-> & _ & Hex)|(_ & _ & _ & Hnz)]; [|congruence].
    rewrite (Hex eq_refl). split; [lia|]. split.
    + intros _. rewrite Hshift, <- Z.mul_assoc, <- Z.pow_add_r by lia.
      f_equal. f_equal. lia.
    + intros Hbig. exfalso.
      assert (2 ^ d <= 2 ^ 53) by (apply Z.pow_le_mono_r; lia). lia.
Qed.

Lemma SFltb_finite_true (ms m : positive) (es e : Z) :
  es < e \/ (e = es /\ Zpos ms < Zpos m) ->
  SFltb (S754_finite false ms es) (S754_finite false m e) = true.
Proof.
  unfold SFltb, SFcompare.
  change (Pos.compare_cont Eq ms m) with (Pos.compare ms m).
  intros [H|[-> H]].
  - apply Z.compare_lt_iff in H. rewrite H. reflexivity.
  - rewrite Z.compare_refl. apply Pos.compare_lt_iff in H. rewrite H. reflexivity.
Qed.

Lemma SFltb_finite_false (ms m : positive) (es e : Z) :
  e < es \/ (e = es /\ Zpos m <= Zpos ms) ->
  SFltb (S754_finite false ms es) (S754_finite false m e) = false.
Proof.
  unfold SFltb, SFcompare.
  change (Pos.compare_cont Eq ms m) with (Pos.compare ms m).
  intros [H|[-> H]].
  - apply Z.compare_gt_iff in H. rewrite H. reflexivity.
  - rewrite Z.compare_refl. destruct (Pos.compare_spec ms m); try reflexivity. lia.
Qed.


Lemma belowTolerance_exact (s L : Z) :
  0 <= s < 2 ^ 45 -> 0 < L < 2 ^ 63 ->
  belowTolerance s L = (100 * s <? 99 * L).
Proof.
  intros Hs HL. unfold belowTolerance.
  destruct (double_of_Z_spec L HL) as (mL & eL & -> & HmL & HeL & HLex & HLbig).
  unfold d0_99, prec, emax. cbn [SFmul xorb].
  set (mc := 8917127262193582%positive).
  set (M := (mL * mc)%positive).
  assert (HM : 2 ^ 104 <= Zpos M < 2 ^ 106).
  { unfold M, mc. rewrite Pos2Z.inj_mul.
    change (2 ^ 52) with 4503599627370496 in HmL.
    change (2 ^ 53) with 9007199254740992 in HmL.
    change (2 ^ 104) with 20282409603651670423947251286016.
    change (2 ^ 106) with 81129638414606681695789005144064. lia. }
  pose proof (digits2_pos_bounds M) as [Mlo Mhi].
  set (d := Zpos (digits2_pos M)) in *.
  assert (Hd : 105 <= d <= 106).
  { split.
    - assert (104 < d); [|lia]. apply (Z.pow_lt_mono_r_iff 2); lia.
    - assert (d - 1 < 106); [|lia]. apply (Z.pow_lt_mono_r_iff 2); lia. }
  destruct (Z.eq_dec s 0) as [->|Hs0].
  - (* an empty buffer is the double 0 *)
    destruct (binary_round_aux_spec M (eL + -53)) as (m & e & -> & _);
      fold d; try lia.
    symmetry. apply Z.ltb_lt. lia.
  - destruct (double_of_Z_spec s) as (ms & es & -> & Hms & Hes & Hsex & _).
    { change (2 ^ 45) with 35184372088832 in Hs.
      change (2 ^ 63) with 9223372036854775808. lia. }
    assert (Hsex' : Zpos ms * 2 ^ (es + 52) = s * 2 ^ 52).
    { apply Hsex. change (2 ^ 45) with 35184372088832 in Hs.
      change (2 ^ 53) with 9007199254740992. lia. }
    assert (Hes' : es + 52 < 45).
    { apply (Z.pow_lt_mono_r_iff 2); [lia|lia|].
      assert (0 < 2 ^ (es + 52)) by (apply Z.pow_pos_nonneg; lia).
      assert (2 ^ 52 * 2 ^ (es + 52) <= Zpos ms * 2 ^ (es + 52))
        by (apply Z.mul_le_mono_nonneg_r; lia).
      change (2 ^ 45) with 35184372088832 in *.
      change (2 ^ 52) with 4503599627370496 in *. lia. }
    destruct (round_order M (eL + -53) 105 (Zpos ms) es) as (m & e & -> & Hle & Hgt);
      fold d; try lia.
    assert (HX : Zpos M * 2 ^ (eL + -53 + 105) = Zpos mc * (Zpos mL * 2 ^ (eL + 52))).
    { unfold M. rewrite Pos2Z.inj_mul. replace (eL + -53 + 105) with (eL + 52) by lia.
      ring. }
    assert (HY : Zpos ms * 2 ^ (es + 105) = s * 2 ^ 105).
    { replace (es + 105) with (es + 52 + 53) by lia. rewrite Z.pow_add_r by lia.
      rewrite Z.mul_assoc, Hsex'. change (2 ^ 105) with (2 ^ 52 * 2 ^ 53). ring. }
    assert (HU : 2 ^ (es + 105) <= 2 ^ 97) by (apply Z.pow_le_mono_r; lia).
    rewrite HX in Hle, Hgt. rewrite Z.mul_add_distr_r, Z.mul_1_l, HY in Hgt.
    rewrite HY in Hle.
    set (X := Zpos mL * 2 ^ (eL + 52)) in *. set (U := 2 ^ (es + 105)) in *.
    unfold mc in Hle, Hgt.
    change (2 ^ 45) with 35184372088832 in *.
    change (2 ^ 53) with 9007199254740992 in *.
    change (2 ^ 52) with 4503599627370496 in *.
    change (2 ^ 63) with 9223372036854775808 in *.
    change (2 ^ 97) with 158456325028528675187087900672 in *.
    change (2 ^ 105) with 40564819207303340847894502572032 in *.
    destruct (Z.ltb_spec (100 * s) (99 * L)) as [Hlt|Hge].
    + apply SFltb_finite_true. apply Hgt.
      destruct (Z.lt_ge_cases L 9007199254740992) as [Hsmall|Hbig].
      * specialize (HLex Hsmall). lia.
      * specialize (HLbig Hbig). lia.
    + apply SFltb_finite_false. apply Hle.
      assert (Hsmall : L < 9007199254740992) by lia.
      specialize (HLex Hsmall). lia.
Qed.

End Binary64Facts.

(* ===================================================================== *)
(** ** Facts about the Qt layer *)
(* ===================================================================== *)

Module QtFacts.
Import Qt.

(** *** Characters of a text *)

Lemma allChars_app (p : ascii -> bool) (s t : string) :
  allChars p (s +:+ t) = allChars p s && allChars p t.
Proof.
  induction s as [|c s IH]; [reflexivity|].
  change (allChars p (String c s +:+ t)) with (p c && allChars p (s +:+ t)).
  rewrite IH. apply andb_assoc.
Qed.

Lemma allChars_substring (p : ascii -> bool) (s : string) :
  allChars p s = true ->
  forall n m : nat, allChars p (String.substring n m s) = true.
Proof.
  induction s as [|c s IH]; intros H n m; [destruct n, m; reflexivity|].
  cbn in H. apply andb_true_iff in H as [Hc Hs].
  destruct n as [|n]; destruct m as [|m]; cbn; try reflexivity.
  - rewrite Hc. apply (IH Hs 0%nat m).
  - apply (IH Hs n 0%nat).
  - apply (IH Hs n (S m)).
Qed.

Lemma append_empty_r (s : string) : s +:+ "" = s.
Proof.
  induction s as [|c s IH]; [reflexivity|].
  change (String c s +:+ "") with (String c (s +:+ "")). now rewrite IH.
Qed.

(** *** Place markers

    A text without a per cent sign has no marker: [arg] leaves it as it is
    and goes on behind it. *)

Lemma minEscape_app_l (s t : string) :
  hasNoPercent s = true -> minEscape (s +:+ t) = minEscape t.
Proof.
  unfold hasNoPercent. induction s as [|c s IH]; intros H; [reflexivity|].
  cbn [allChars] in H. apply andb_true_iff in H as [Hc Hs].
  apply negb_true_iff in Hc.
  change (String c s +:+ t) with (String c (s +:+ t)).
  cbn [minEscape]. rewrite Hc. apply IH, Hs.
Qed.

Lemma replaceEscapes_app_l (n : nat) (a l s t : string) :
  hasNoPercent s = true ->
  replaceEscapes n a l 0 (s +:+ t) = s +:+ replaceEscapes n a l 0 t.
Proof.
  unfold hasNoPercent. induction s as [|c s IH]; intros H; [reflexivity|].
  cbn [allChars] in H. apply andb_true_iff in H as [Hc Hs].
  apply negb_true_iff in Hc.
  change (String c s +:+ t) with (String c (s +:+ t)).
  cbn [replaceEscapes]. rewrite Hc, (IH Hs). reflexivity.
Qed.

Lemma pretty_N_go_noPercent (x : N) :
  forall s : string, hasNoPercent s = true -> hasNoPercent (pretty_N_go x s) = true.
Proof.
  induction (N.lt_wf_0 x) as [x _ IH]; intros s Hs.
  assert (x = 0 \/ 0 < x)%N as [->|Hx] by lia.
  - rewrite pretty_N_go_0. exact Hs.
  - rewrite pretty_N_go_step by exact Hx. apply IH.
    + apply N.div_lt; [exact Hx|reflexivity].
    + unfold hasNoPercent. cbn [allChars]. fold (hasNoPercent s). rewrite Hs.
      unfold pretty_N_char. repeat case_match; reflexivity.
Qed.

Lemma number_noPercent (z : Z) : hasNoPercent (number z) = true.
Proof.
  assert (HN : forall x : N, hasNoPercent (pretty x) = true).
  { intros x. unfold pretty, pretty_N. destruct (decide (x = 0%N)); [reflexivity|].
    apply pretty_N_go_noPercent. reflexivity. }
  unfold number, pretty, pretty_Z. destruct z as [|x|x]; [reflexivity|apply HN|].
  unfold hasNoPercent. rewrite allChars_app. apply (HN (Npos x)).
Qed.

End QtFacts.

(* ===================================================================== *)
(** ** Facts about TFMApiClient *)
(* ===================================================================== *)

Module ApiClientFacts.
Import Qt ApiClient.
Local Open Scope api_scope.

(** Runs the monadic text of an operation on a world given by its fields. *)
Ltac run :=
  cbv beta iota zeta delta
    [exec bind ret serverUrl emit networkGet setProperty property deleteLater
     modifyPending paginatedRequests modifyPaginated updateAt when createRequest
     m_serverUrl m_localFolder m_pendingReplies m_paginatedRequests replies
     nextReply sent emitted fst snd networkError body negb isEmpty
     variantToString request properties].

(** Rewrites the innermost finished reply with a step lemma. *)
Ltac finish_page lem :=
  match goal with
  | |- context [exec (onReplyFinished ?p ?f) (mkWorld ?a ?b ?c ?d ?e ?g ?h ?i)] =>
      erewrite (lem p _ _ _ (mkWorld a b c d e g h i))
  end.

Ltac finish_folder_page lem :=
  match goal with
  | |- context [exec (onReplyFinished ?p ?f) (mkWorld ?a ?b ?c ?d ?e ?g ?h ?i)] =>
      erewrite (lem p _ _ _ _ (mkWorld a b c d e g h i))
  end.

(** *** JSON *)

Lemma value_absent (o : QJsonObject) (key : string) :
  containsKey o key = false -> value o key = JUndefined.
Proof.
  induction o as [|[k v] o IH]; simpl; [reflexivity|].
  destruct (String.eqb k key); simpl; [discriminate|exact IH].
Qed.

(** C8. [parsePagination] fills every missing field with its default:
    page 1, page size 100, 0 items, 1 page, no next and no previous page.
    This holds when the response has no pagination object at all, and field
    by field when the object is there but lacks the field. *)
Theorem parsePagination_defaults (responseObj : QJsonObject) :
  (isObject (value responseObj "pagination") = false ->
   parsePagination responseObj = PaginationInfo.mk 1 100 0 1 false false)
  /\ (forall pagination : QJsonObject,
        value responseObj "pagination" = JObject pagination ->
        let info := parsePagination responseObj in
        (containsKey pagination "page" = false -> PaginationInfo.page info = 1)
        /\ (containsKey pagination "pageSize" = false ->
            PaginationInfo.pageSize info = 100)
        /\ (containsKey pagination "totalItems" = false ->
            PaginationInfo.totalItems info = 0)
        /\ (containsKey pagination "totalPages" = false ->
            PaginationInfo.totalPages info = 1)
        /\ (containsKey pagination "hasNext" = false ->
            PaginationInfo.hasNext info = false)
        /\ (containsKey pagination "hasPrevious" = false ->
            PaginationInfo.hasPrevious info = false)).
Proof.
  split.
  - intros H. unfold parsePagination. rewrite H. reflexivity.
  - intros pagination H. unfold parsePagination. rewrite H. cbn [isObject toObject].
    cbv zeta.
    cbn [PaginationInfo.page PaginationInfo.pageSize PaginationInfo.totalItems
         PaginationInfo.totalPages PaginationInfo.hasNext PaginationInfo.hasPrevious].
    repeat split; intros A; rewrite (value_absent _ _ A); reflexivity.
Qed.

Lemma parsePagination_defaults_witness :
  parsePagination [("success", JBool true)]
  = PaginationInfo.mk 1 100 0 1 false false
  /\ PaginationInfo.pageSize
       (parsePagination [("pagination", JObject [("hasNext", JBool true)])])
     = 100.
Proof.
  split.
  - exact (proj1 (parsePagination_defaults [("success", JBool true)]) eq_refl).
  - exact (proj1 (proj2
             (proj2 (parsePagination_defaults
                       [("pagination", JObject [("hasNext", JBool true)])])
                    [("hasNext", JBool true)] eq_refl))
           eq_refl).
Defined.

(** *** The configuration gate *)

(** C6. With an empty server URL each of the seven fetch operations only
    emits [apiError] with the message of the gate: nothing is sent, no reply
    is pending, and no member of the client changes. *)
Theorem configuration_gate (w : World) :
  m_serverUrl w = "" ->
  fetchChannels w = refused w
  /\ (forall channelId offset limit,
        fetchChannelTracks channelId offset limit w = refused w)
  /\ (forall channelId folderId offset limit,
        fetchFolderContents channelId folderId offset limit w = refused w)
  /\ fetchFavorites w = refused w
  /\ fetchLocalFolders w = refused w
  /\ (forall folderPath, fetchLocalTracks folderPath w = refused w)
  /\ (forall query offset limit, searchTracks query offset limit w = refused w).
Proof.
  intros Hurl.
  unfold fetchChannels, fetchChannelTracks, fetchFolderContents, fetchFavorites,
    fetchLocalFolders, fetchLocalTracks, searchTracks, refused, bind, serverUrl.
  rewrite Hurl. cbn [isEmpty]. unfold emit. rewrite Hurl.
  repeat split.
Qed.

Lemma configuration_gate_witness :
  fetchChannels unconfigured = refused unconfigured
  /\ sent (snd (searchTracks "x" 0 50 unconfigured)) = [].
Proof.
  destruct (configuration_gate unconfigured eq_refl)
    as (H1 & _ & _ & _ & _ & _ & H7).
  split; [exact H1|]. rewrite H7. reflexivity.
Defined.

(** *** One step of each operation *)

Lemma isEmpty_false (s : string) : s <> "" -> isEmpty s = false.
Proof. destruct s; [congruence | reflexivity]. Qed.

Lemma exec_bind {A} (c : M A) (k : M unit) (w : World) :
  exec (c ;; k) w = exec k (exec c w).
Proof. unfold exec, bind. destruct (c w). reflexivity. Qed.

Lemma fetchChannelTracks_eq (channelId : string) (offset limit : Z) (w : World) :
  m_serverUrl w <> "" ->
  exec (fetchChannelTracks channelId offset limit) w =
  mkWorld (m_serverUrl w) (m_localFolder w) (m_pendingReplies w ++ [nextReply w])
    (delete (channelKey channelId) (m_paginatedRequests w))
    (<[nextReply w := channelPageReply (m_serverUrl w) channelId 1 limit]> (replies w))
    (S (nextReply w))
    (sent w ++ [request (channelPageReply (m_serverUrl w) channelId 1 limit)])
    (emitted w ++ [requestStarted]).
Proof.
  intros Hurl. destruct w as [url lf pend pag reps nxt snt emt].
  cbn [m_serverUrl] in Hurl. unfold fetchChannelTracks.
  cbv beta iota zeta delta [exec bind serverUrl m_serverUrl].
  rewrite (isEmpty_false _ Hurl). unfold fetchChannelTracksPage. run.
  rewrite !alter_insert_eq. reflexivity.
Qed.

Lemma fetchFolderContents_eq (channelId folderId : string) (offset limit : Z)
    (w : World) :
  m_serverUrl w <> "" ->
  exec (fetchFolderContents channelId folderId offset limit) w =
  mkWorld (m_serverUrl w) (m_localFolder w) (m_pendingReplies w ++ [nextReply w])
    (delete (folderKey channelId folderId) (m_paginatedRequests w))
    (<[nextReply w := folderPageReply (m_serverUrl w) channelId folderId 1 limit]>
       (replies w))
    (S (nextReply w))
    (sent w ++ [request (folderPageReply (m_serverUrl w) channelId folderId 1 limit)])
    (emitted w ++ [requestStarted]).
Proof.
  intros Hurl. destruct w as [url lf pend pag reps nxt snt emt].
  cbn [m_serverUrl] in Hurl. unfold fetchFolderContents.
  cbv beta iota zeta delta [exec bind serverUrl m_serverUrl].
  rewrite (isEmpty_false _ Hurl). unfold fetchFolderContentsPage. run.
  rewrite !alter_insert_eq. reflexivity.
Qed.

Lemma channelPageReply_type (url channelId : string) (page pageSize : Z) :
  properties (channelPageReply url channelId page pageSize) !! "requestType"
  = Some (VString "fetchChannelTracks").
Proof. reflexivity. Qed.

Lemma channelPageReply_channel (url channelId : string) (page pageSize : Z) :
  properties (channelPageReply url channelId page pageSize) !! "channelId"
  = Some (VString channelId).
Proof. reflexivity. Qed.

Lemma folderPageReply_type (url channelId folderId : string) (page pageSize : Z) :
  properties (folderPageReply url channelId folderId page pageSize) !! "requestType"
  = Some (VString "fetchFolderContents").
Proof. reflexivity. Qed.

Lemma folderPageReply_channel (url channelId folderId : string) (page pageSize : Z) :
  properties (folderPageReply url channelId folderId page pageSize) !! "channelId"
  = Some (VString channelId).
Proof. reflexivity. Qed.

Lemma folderPageReply_folder (url channelId folderId : string) (page pageSize : Z) :
  properties (folderPageReply url channelId folderId page pageSize) !! "folderId"
  = Some (VString folderId).
Proof. reflexivity. Qed.

(** A successful page of a channel listing: the entry of the key grows by
    the page; then either the next page is requested or the accumulated
    list is emitted and the entry removed. *)
Lemma channel_page_finished (p : nat) (r : QNetworkReply) (channelId : string)
    (doc : QJsonValue) (w : World) :
  replies w !! p = Some r ->
  properties r !! "requestType" = Some (VString "fetchChannelTracks") ->
  properties r !! "channelId" = Some (VString channelId) ->
  succeeded doc = true ->
  let key := channelKey channelId in
  let info := pagination doc in
  let entry :=
    accumulate channelId "" (pageTracks channelId doc) info
      (m_paginatedRequests w !! key) in
  let pending := filter (fun q => q ≠ p) (m_pendingReplies w) in
  exec (onReplyFinished p (mkFinished None (Document doc))) w =
  if PaginationInfo.hasNext info then
    let next :=
      channelPageReply (m_serverUrl w) channelId
        (wrap_int (PaginationInfo.page info + 1)) (PaginationInfo.pageSize info) in
    mkWorld (m_serverUrl w) (m_localFolder w) (pending ++ [nextReply w])
      (<[key := entry]> (m_paginatedRequests w))
      (delete p (<[nextReply w := next]> (replies w)))
      (S (nextReply w)) (sent w ++ [request next])
      (emitted w ++ [requestFinished; requestStarted])
  else
    mkWorld (m_serverUrl w) (m_localFolder w) pending
      (delete key (m_paginatedRequests w)) (delete p (replies w))
      (nextReply w) (sent w)
      (emitted w ++ [requestFinished;
                     tracksLoaded channelId (PaginatedRequest.accumulatedTracks entry)]).
Proof.
  intros Hr Ht Hc Hs. cbv zeta.
  destruct w as [url lf pend pag reps nxt snt emt], r as [rq props].
  cbn [replies properties] in Hr, Ht, Hc.
  unfold onReplyFinished. run. rewrite Hr. cbn [mbind option_bind properties].
  rewrite Ht.
  unfold handleResponse. fold (succeeded doc). rewrite Hs. run.
  change (String.eqb "fetchChannelTracks" "fetchChannels") with false.
  change (String.eqb "fetchChannelTracks" "fetchChannelTracks") with true.
  cbv iota. run. rewrite Hr. cbn [mbind option_bind properties]. rewrite Hc. run.
  fold (pageTracks channelId doc). fold (pagination doc). fold (channelKey channelId).
  unfold hasKey, accumulate.
  destruct (pag !! channelKey channelId) as [old|] eqn:Hold; run;
    destruct (PaginationInfo.hasNext (pagination doc)); run;
    unfold fetchChannelTracksPage, subscript; run;
    rewrite ?lookup_insert_eq, ?Hold; cbn [default];
    rewrite ?insert_insert_eq, ?alter_insert_eq, ?delete_insert_eq, ?lookup_insert_eq;
    cbn [default]; rewrite <- ?List.app_assoc; reflexivity.
Qed.

(** The same step for a page of a folder listing. *)
Lemma folder_page_finished (p : nat) (r : QNetworkReply) (channelId folderId : string)
    (doc : QJsonValue) (w : World) :
  replies w !! p = Some r ->
  properties r !! "requestType" = Some (VString "fetchFolderContents") ->
  properties r !! "channelId" = Some (VString channelId) ->
  properties r !! "folderId" = Some (VString folderId) ->
  succeeded doc = true ->
  let key := folderKey channelId folderId in
  let info := pagination doc in
  let entry :=
    accumulate channelId folderId (pageTracks channelId doc) info
      (m_paginatedRequests w !! key) in
  let pending := filter (fun q => q ≠ p) (m_pendingReplies w) in
  exec (onReplyFinished p (mkFinished None (Document doc))) w =
  if PaginationInfo.hasNext info then
    let next :=
      folderPageReply (m_serverUrl w) channelId folderId
        (wrap_int (PaginationInfo.page info + 1)) (PaginationInfo.pageSize info) in
    mkWorld (m_serverUrl w) (m_localFolder w) (pending ++ [nextReply w])
      (<[key := entry]> (m_paginatedRequests w))
      (delete p (<[nextReply w := next]> (replies w)))
      (S (nextReply w)) (sent w ++ [request next])
      (emitted w ++ [requestFinished; requestStarted])
  else
    mkWorld (m_serverUrl w) (m_localFolder w) pending
      (delete key (m_paginatedRequests w)) (delete p (replies w))
      (nextReply w) (sent w)
      (emitted w ++ [requestFinished;
                     folderContentsLoaded channelId folderId
                       (PaginatedRequest.accumulatedTracks entry)]).
Proof.
  intros Hr Ht Hc Hf Hs. cbv zeta.
  destruct w as [url lf pend pag reps nxt snt emt], r as [rq props].
  cbn [replies properties] in Hr, Ht, Hc, Hf.
  unfold onReplyFinished. run. rewrite Hr. cbn [mbind option_bind properties].
  rewrite Ht.
  unfold handleResponse. fold (succeeded doc). rewrite Hs. run.
  change (String.eqb "fetchFolderContents" "fetchChannels") with false.
  change (String.eqb "fetchFolderContents" "fetchChannelTracks") with false.
  change (String.eqb "fetchFolderContents" "fetchFolderContents") with true.
  cbv iota. run. rewrite Hr. cbn [mbind option_bind properties]. rewrite Hc, Hf. run.
  fold (pageTracks channelId doc). fold (pagination doc).
  fold (folderKey channelId folderId).
  unfold hasKey, accumulate.
  destruct (pag !! folderKey channelId folderId) as [old|] eqn:Hold; run;
    destruct (PaginationInfo.hasNext (pagination doc)); run;
    unfold fetchFolderContentsPage, subscript; run;
    rewrite ?lookup_insert_eq, ?Hold; cbn [default];
    rewrite ?insert_insert_eq, ?alter_insert_eq, ?delete_insert_eq, ?lookup_insert_eq;
    cbn [default]; rewrite <- ?List.app_assoc; reflexivity.
Qed.

(** A failing reply, whatever request it answers: one [apiError], and
    nothing else moves but the bookkeeping of the reply itself. *)
Lemma failure_finished (p : nat) (data : Body) (w : World) :
  failure data = true ->
  exists errorMsg : string,
    exec (onReplyFinished p (mkFinished None data)) w =
    mkWorld (m_serverUrl w) (m_localFolder w)
      (filter (fun q => q ≠ p) (m_pendingReplies w)) (m_paginatedRequests w)
      (delete p (replies w)) (nextReply w) (sent w)
      (emitted w ++ [requestFinished; apiError errorMsg]).
Proof.
  intros Hf. destruct w as [url lf pend pag reps nxt snt emt].
  unfold onReplyFinished, handleResponse. destruct data as [e|doc]; cbn [failure] in Hf.
  - eexists. run. rewrite <- List.app_assoc. reflexivity.
  - apply negb_true_iff in Hf. unfold succeeded in Hf.
    eexists. run. rewrite Hf. run. rewrite <- List.app_assoc. reflexivity.
Qed.

(** *** Two pages *)

Lemma channel_two_pages (w : World) (channelId : string) (offset limit : Z)
    (doc1 doc2 : QJsonValue) :
  m_serverUrl w <> "" ->
  succeeded doc1 = true -> PaginationInfo.hasNext (pagination doc1) = true ->
  succeeded doc2 = true -> PaginationInfo.hasNext (pagination doc2) = false ->
  let w' :=
    exec (fetchChannelTracks channelId offset limit ;;
          onReplyFinished (nextReply w) (arrives doc1) ;;
          onReplyFinished (S (nextReply w)) (arrives doc2)) w in
  emitted w' =
    emitted w ++ [requestStarted; requestFinished; requestStarted; requestFinished;
                  tracksLoaded channelId
                    (pageTracks channelId doc1 ++ pageTracks channelId doc2)]
  /\ m_paginatedRequests w' !! channelKey channelId = None.
Proof.
  intros Hurl S1 N1 S2 N2. cbv zeta. unfold arrives.
  rewrite !exec_bind, (fetchChannelTracks_eq _ _ _ _ Hurl).
  finish_page channel_page_finished;
    [ | cbn [replies]; apply lookup_insert_eq
      | apply channelPageReply_type | apply channelPageReply_channel | exact S1 ].
  rewrite N1. cbv zeta. cbn [m_paginatedRequests m_serverUrl nextReply].
  finish_page channel_page_finished;
    [ | cbn [replies nextReply]; rewrite lookup_delete_ne by lia;
        apply lookup_insert_eq
      | apply channelPageReply_type | apply channelPageReply_channel | exact S2 ].
  rewrite N2. cbn [emitted m_paginatedRequests].
  rewrite lookup_insert_eq, lookup_delete_eq.
  cbn [accumulate PaginatedRequest.accumulatedTracks].
  split; [ | apply lookup_delete_eq ].
  rewrite <- !List.app_assoc. reflexivity.
Qed.

Lemma folder_two_pages (w : World) (channelId folderId : string) (offset limit : Z)
    (doc1 doc2 : QJsonValue) :
  m_serverUrl w <> "" ->
  succeeded doc1 = true -> PaginationInfo.hasNext (pagination doc1) = true ->
  succeeded doc2 = true -> PaginationInfo.hasNext (pagination doc2) = false ->
  let w' :=
    exec (fetchFolderContents channelId folderId offset limit ;;
          onReplyFinished (nextReply w) (arrives doc1) ;;
          onReplyFinished (S (nextReply w)) (arrives doc2)) w in
  emitted w' =
    emitted w ++ [requestStarted; requestFinished; requestStarted; requestFinished;
                  folderContentsLoaded channelId folderId
                    (pageTracks channelId doc1 ++ pageTracks channelId doc2)]
  /\ m_paginatedRequests w' !! folderKey channelId folderId = None.
Proof.
  intros Hurl S1 N1 S2 N2. cbv zeta. unfold arrives.
  rewrite !exec_bind, (fetchFolderContents_eq _ _ _ _ _ Hurl).
  finish_folder_page folder_page_finished;
    [ | cbn [replies]; apply lookup_insert_eq
      | apply folderPageReply_type | apply folderPageReply_channel
      | apply folderPageReply_folder | exact S1 ].
  rewrite N1. cbv zeta. cbn [m_paginatedRequests m_serverUrl nextReply].
  finish_folder_page folder_page_finished;
    [ | cbn [replies nextReply]; rewrite lookup_delete_ne by lia;
        apply lookup_insert_eq
      | apply folderPageReply_type | apply folderPageReply_channel
      | apply folderPageReply_folder | exact S2 ].
  rewrite N2. cbn [emitted m_paginatedRequests].
  rewrite lookup_insert_eq, lookup_delete_eq.
  cbn [accumulate PaginatedRequest.accumulatedTracks].
  split; [ | apply lookup_delete_eq ].
  rewrite <- !List.app_assoc. reflexivity.
Qed.

(** C4. A fetch of a channel, or of a folder, whose first page says
    [hasNext = true] and whose second page says [hasNext = false] emits one
    list: the entries of page 1 followed by the entries of page 2, each page
    in the order of its array, nothing dropped, repeated or sorted.  After
    the emission the key has no entry in [m_paginatedRequests]. *)
Theorem aggregation_completeness (w : World) (channelId folderId : string)
    (offset limit : Z) (doc1 doc2 : QJsonValue) :
  m_serverUrl w <> "" ->
  succeeded doc1 = true -> PaginationInfo.hasNext (pagination doc1) = true ->
  succeeded doc2 = true -> PaginationInfo.hasNext (pagination doc2) = false ->
  let all := pageTracks channelId doc1 ++ pageTracks channelId doc2 in
  (let w' :=
     exec (fetchChannelTracks channelId offset limit ;;
           onReplyFinished (nextReply w) (arrives doc1) ;;
           onReplyFinished (S (nextReply w)) (arrives doc2)) w in
   emitted w' =
     emitted w ++ [requestStarted; requestFinished; requestStarted; requestFinished;
                   tracksLoaded channelId all]
   /\ m_paginatedRequests w' !! channelKey channelId = None)
  /\ (let w' :=
        exec (fetchFolderContents channelId folderId offset limit ;;
              onReplyFinished (nextReply w) (arrives doc1) ;;
              onReplyFinished (S (nextReply w)) (arrives doc2)) w in
      emitted w' =
        emitted w ++ [requestStarted; requestFinished; requestStarted;
                      requestFinished;
                      folderContentsLoaded channelId folderId all]
      /\ m_paginatedRequests w' !! folderKey channelId folderId = None).
Proof.
  intros Hurl S1 N1 S2 N2. split.
  - apply channel_two_pages; assumption.
  - apply folder_two_pages; assumption.
Qed.

Lemma aggregation_completeness_witness :
  emitted
    (exec (fetchChannelTracks "7" 0 100 ;;
           onReplyFinished 0 (arrives (envelope [item "a"; item "b"] 1 true)) ;;
           onReplyFinished 1 (arrives (envelope [item "c"] 2 false))) configured)
  = [requestStarted; requestFinished; requestStarted; requestFinished;
     tracksLoaded "7" [track "7" "a"; track "7" "b"; track "7" "c"]].
Proof.
  assert (Hurl : m_serverUrl configured <> "") by discriminate.
  exact (proj1 (proj1
    (aggregation_completeness configured "7" "f" 0 100
       (envelope [item "a"; item "b"] 1 true) (envelope [item "c"] 2 false)
       Hurl eq_refl eq_refl eq_refl eq_refl))).
Defined.

(** *** A failing page *)

(** C2, as stated, fails: after the failure envelope of the second page the
    entry of channel 7 is still in the map, holding the entry of page 1. *)
Lemma failure_keeps_state :
  PaginatedRequest.accumulatedTracks <$>
    (m_paginatedRequests failedSecondPage !! channelKey "7")
  = Some [track "7" "a"]
  /\ m_paginatedRequests failedSecondPage !! channelKey "7" <> None.
Proof. split; [vm_compute; reflexivity | vm_compute; discriminate]. Qed.

(** C2, as the code has it.  A reply that is a failure envelope or is not
    JSON ends the fetch with a single [apiError]: no list is emitted and no
    further page is requested.  The entry of the key is not removed: the map
    [m_paginatedRequests] is left as it was, and the entry goes away when
    the next fetch of that channel or folder starts. *)
Theorem envelope_failure_abort (w : World) (p : nat) (data : Body) :
  failure data = true ->
  let w' := exec (onReplyFinished p (mkFinished None data)) w in
  (exists errorMsg : string,
      emitted w' = emitted w ++ [requestFinished; apiError errorMsg])
  /\ sent w' = sent w
  /\ m_paginatedRequests w' = m_paginatedRequests w
  /\ (m_serverUrl w <> "" ->
      (forall channelId offset limit,
          m_paginatedRequests (exec (fetchChannelTracks channelId offset limit) w')
            !! channelKey channelId = None)
      /\ (forall channelId folderId offset limit,
          m_paginatedRequests
            (exec (fetchFolderContents channelId folderId offset limit) w')
            !! folderKey channelId folderId = None)).
Proof.
  intros Hf. cbv zeta. destruct (failure_finished p data w Hf) as [msg ->].
  cbn [emitted sent m_paginatedRequests]. repeat split; eauto.
  - intros. rewrite fetchChannelTracks_eq by assumption.
    cbn [m_paginatedRequests]. apply lookup_delete_eq.
  - intros. rewrite fetchFolderContents_eq by assumption.
    cbn [m_paginatedRequests]. apply lookup_delete_eq.
Qed.

Lemma envelope_failure_abort_witness :
  sent failedSecondPage = sent firstPageDone
  /\ m_paginatedRequests failedSecondPage = m_paginatedRequests firstPageDone.
Proof.
  destruct (envelope_failure_abort firstPageDone 1 (Document refusal) eq_refl)
    as (_ & Hsent & Hmap & _).
  split; [exact Hsent | exact Hmap].
Defined.

(** *** A fetch restarted while a reply is in flight *)

(** The second fetch does empty the entry of the key and asks for page 1. *)
Lemma restart_clears_entry (w : World) (channelId : string) (offset limit : Z) :
  m_serverUrl w <> "" ->
  let w' := exec (fetchChannelTracks channelId offset limit) w in
  m_paginatedRequests w' !! channelKey channelId = None
  /\ replies w' !! nextReply w
     = Some (channelPageReply (m_serverUrl w) channelId 1 limit).
Proof.
  intros Hurl. cbv zeta. rewrite fetchChannelTracks_eq by assumption.
  cbn [m_paginatedRequests replies].
  split; [apply lookup_delete_eq | apply lookup_insert_eq].
Qed.

(** C3, where the code departs from it.  Channel 7 is fetched twice before
    any reply; the page of the superseded first fetch arrives, then the page
    of the second.  The list emitted for the channel starts with the entry
    of the superseded fetch. *)
Theorem superseded_page_is_emitted :
  emitted supersededFetch =
  [requestStarted; requestStarted; requestFinished; requestStarted; requestFinished;
   tracksLoaded "7" [track "7" "old"; track "7" "new"]].
Proof. vm_compute. reflexivity. Qed.

(** *** The text of the URLs

    With ids and a search text that have no per cent sign, the calls of
    [arg] fill the templates as they read. *)

Import QtFacts.

(** Goes past a text without a per cent sign at the head of the string. *)
Ltac skip_text :=
  first [rewrite minEscape_app_l
           by first [reflexivity|assumption|apply number_noPercent]
        |rewrite replaceEscapes_app_l
           by first [reflexivity|assumption|apply number_noPercent]].

Lemma render_channel_page (localized : Z -> string) (url channelId : string)
    (page pageSize : Z) :
  hasNoPercent channelId = true ->
  requestUrl localized (channelPageRequest url channelId page pageSize)
  = channelPageUrl url channelId page pageSize.
Proof.
  intros Hc. unfold requestUrl, channelPageRequest, channelPageUrl, render.
  cbn [urlBase urlEndpoint args template fold_left applyArg]. f_equal.
  replace (arg channelId "/api/mobile/channels/%1/files?Page=%2&PageSize=%3")
    with ("/api/mobile/channels/" +:+ channelId +:+ "/files?Page=%2&PageSize=%3")
    by reflexivity.
  unfold argNumber at 2. repeat skip_text.
  change (minEscape "/files?Page=%2&PageSize=%3") with (Some 2%nat). cbv iota.
  repeat skip_text.
  replace (replaceEscapes 2 (number page) (localized page) 0
             "/files?Page=%2&PageSize=%3")
    with ("/files?Page=" +:+ number page +:+ "&PageSize=%3") by reflexivity.
  unfold argNumber. repeat skip_text.
  change (minEscape "&PageSize=%3") with (Some 3%nat). cbv iota.
  repeat skip_text.
  replace (replaceEscapes 3 (number pageSize) (localized pageSize) 0 "&PageSize=%3")
    with ("&PageSize=" +:+ number pageSize +:+ "") by reflexivity.
  rewrite append_empty_r. reflexivity.
Qed.

Lemma render_folder_page (localized : Z -> string) (url channelId folderId : string)
    (page pageSize : Z) :
  hasNoPercent channelId = true -> hasNoPercent folderId = true ->
  requestUrl localized (folderPageRequest url channelId folderId page pageSize)
  = folderPageUrl url channelId folderId page pageSize.
Proof.
  intros Hc Hf. unfold requestUrl, folderPageRequest, folderPageUrl, render.
  cbn [urlBase urlEndpoint args template fold_left applyArg]. f_equal.
  replace (arg channelId
             "/api/mobile/channels/%1/files?folderId=%2&Page=%3&PageSize=%4")
    with ("/api/mobile/channels/" +:+ channelId
          +:+ "/files?folderId=%2&Page=%3&PageSize=%4")
    by reflexivity.
  unfold arg. repeat skip_text.
  change (minEscape "/files?folderId=%2&Page=%3&PageSize=%4") with (Some 2%nat).
  cbv iota. repeat skip_text.
  replace (replaceEscapes 2 folderId folderId 0
             "/files?folderId=%2&Page=%3&PageSize=%4")
    with ("/files?folderId=" +:+ folderId +:+ "&Page=%3&PageSize=%4")
    by reflexivity.
  unfold argNumber at 2. repeat skip_text.
  change (minEscape "&Page=%3&PageSize=%4") with (Some 3%nat). cbv iota.
  repeat skip_text.
  replace (replaceEscapes 3 (number page) (localized page) 0 "&Page=%3&PageSize=%4")
    with ("&Page=" +:+ number page +:+ "&PageSize=%4") by reflexivity.
  unfold argNumber. repeat skip_text.
  change (minEscape "&PageSize=%4") with (Some 4%nat). cbv iota.
  repeat skip_text.
  replace (replaceEscapes 4 (number pageSize) (localized pageSize) 0 "&PageSize=%4")
    with ("&PageSize=" +:+ number pageSize +:+ "") by reflexivity.
  rewrite append_empty_r. reflexivity.
Qed.

Lemma render_search (localized : Z -> string) (url query : string)
    (page pageSize : Z) :
  hasNoPercent query = true ->
  requestUrl localized
    (mkRequest url
       (Fmt "/api/mobile/channels/0/files?SearchText=%1&Page=%2&PageSize=%3"
            [AString query; AInt page; AInt pageSize]))
  = searchUrl url query page pageSize.
Proof.
  intros Hq. unfold requestUrl, searchUrl, render.
  cbn [urlBase urlEndpoint args template fold_left applyArg]. f_equal.
  replace (arg query "/api/mobile/channels/0/files?SearchText=%1&Page=%2&PageSize=%3")
    with ("/api/mobile/channels/0/files?SearchText=" +:+ query
          +:+ "&Page=%2&PageSize=%3")
    by reflexivity.
  unfold argNumber at 2. repeat skip_text.
  change (minEscape "&Page=%2&PageSize=%3") with (Some 2%nat). cbv iota.
  repeat skip_text.
  replace (replaceEscapes 2 (number page) (localized page) 0 "&Page=%2&PageSize=%3")
    with ("&Page=" +:+ number page +:+ "&PageSize=%3") by reflexivity.
  unfold argNumber. repeat skip_text.
  change (minEscape "&PageSize=%3") with (Some 3%nat). cbv iota.
  repeat skip_text.
  replace (replaceEscapes 3 (number pageSize) (localized pageSize) 0 "&PageSize=%3")
    with ("&PageSize=" +:+ number pageSize +:+ "") by reflexivity.
  rewrite append_empty_r. reflexivity.
Qed.

(** *** Any finished reply *)

(** As [run], with the projections of replies and requests left in place. *)
Ltac run_reply :=
  cbv beta iota zeta delta
    [exec bind ret serverUrl emit networkGet setProperty property deleteLater
     modifyPending paginatedRequests modifyPaginated updateAt when createRequest
     m_serverUrl m_localFolder m_pendingReplies m_paginatedRequests replies
     nextReply sent emitted fst snd networkError body negb isEmpty].

Lemma variantToString_known (o : option QNetworkReply) (name t : string) :
  String.eqb (variantToString (o ≫= fun r => properties r !! name)) t = true ->
  t <> "" -> is_Some o.
Proof.
  destruct o; [eauto|]. cbn. destruct t; [congruence|discriminate].
Qed.

(** What a finished reply does to the client: it leaves the map of paged
    requests alone but for the keys of its own channel and folder, and it
    either sends nothing or sends the request of the next page. *)
Lemma reply_finished_shape (p : nat) (res : Finished) (w : World) :
  let ch := replyProperty w p "channelId" in
  let f := replyProperty w p "folderId" in
  exists (pag' : gmap string PaginatedRequest.t),
    (forall k, k <> channelKey ch -> k <> folderKey ch f ->
               pag' !! k = m_paginatedRequests w !! k)
    /\ ((exists sigs : list Signal,
          exec (onReplyFinished p res) w =
            mkWorld (m_serverUrl w) (m_localFolder w)
              (filter (fun q => q ≠ p) (m_pendingReplies w)) pag'
              (delete p (replies w)) (nextReply w) (sent w)
              (emitted w ++ requestFinished :: sigs)
          /\ Forall (fun s => isQuiet s = true) sigs)
        \/ (exists r : QNetworkReply,
              is_Some (replies w !! p)
              /\ exec (onReplyFinished p res) w =
                mkWorld (m_serverUrl w) (m_localFolder w)
                  (filter (fun q => q ≠ p) (m_pendingReplies w) ++ [nextReply w])
                  pag'
                  (delete p (<[nextReply w := r]> (replies w))) (S (nextReply w))
                  (sent w ++ [request r])
                  (emitted w ++ [requestFinished; requestStarted]))).
Proof.
  cbv zeta. unfold replyProperty.
  destruct w as [url lf pend pag reps nxt snt emt], res as [err data].
  cbn [replies m_paginatedRequests m_serverUrl m_localFolder m_pendingReplies
       nextReply sent emitted].
  set (ch := variantToString (reps !! p ≫= (fun r => properties r !! "channelId"))).
  set (f := variantToString (reps !! p ≫= (fun r => properties r !! "folderId"))).
  assert (Hsame : forall sigs : list Signal,
             Forall (fun s => isQuiet s = true) sigs ->
             forall w',
             w' = mkWorld url lf (filter (fun q => q ≠ p) pend) pag
                    (delete p reps) nxt snt ((emt ++ [requestFinished]) ++ sigs) ->
             exists pag' : gmap string PaginatedRequest.t,
               (forall k, k <> channelKey ch -> k <> folderKey ch f ->
                          pag' !! k = pag !! k)
               /\ ((exists sigs : list Signal,
                      w' = mkWorld url lf (filter (fun q => q ≠ p) pend) pag'
                             (delete p reps) nxt snt (emt ++ requestFinished :: sigs)
                      /\ Forall (fun s => isQuiet s = true) sigs)
                   \/ (exists r : QNetworkReply,
                         is_Some (reps !! p)
                         /\ w' = mkWorld url lf (filter (fun q => q ≠ p) pend ++ [nxt]) pag'
                                (delete p (<[nxt := r]> reps)) (S nxt)
                                (snt ++ [request r])
                                (emt ++ [requestFinished; requestStarted])))).
  { intros sigs Hs w' ->. exists pag. split; [reflexivity|]. left. exists sigs.
    rewrite <- List.app_assoc. auto. }
  unfold onReplyFinished. destruct err as [e|].
  { eapply (Hsame [apiError _]); [repeat constructor|]. run_reply. reflexivity. }
  run_reply.
  set (rt := variantToString (reps !! p ≫= (fun r => properties r !! "requestType"))).
  unfold handleResponse. destruct data as [e|doc].
  { eapply (Hsame [apiError _]); [repeat constructor|]. run_reply. reflexivity. }
  destruct (toBool (value (toObject doc) "success") false) eqn:Hsucc;
    cbv beta iota delta [negb].
  2:{ eapply (Hsame [apiError _]); [repeat constructor|]. run_reply. reflexivity. }
  destruct (String.eqb rt "fetchChannels").
  { eapply (Hsame [channelsLoaded _]); [repeat constructor|]. run_reply. reflexivity. }
  destruct (String.eqb rt "fetchChannelTracks") eqn:Hct.
  { apply variantToString_known in Hct; [|discriminate].
    run_reply. fold ch. unfold hasKey.
    destruct (pag !! ("channel:" +:+ ch)) as [old|] eqn:Hold; run_reply;
      destruct (PaginationInfo.hasNext _); run_reply;
      unfold fetchChannelTracksPage, subscript; run_reply;
      rewrite ?lookup_insert_eq, ?Hold; cbn [default];
      rewrite ?insert_insert_eq, ?alter_insert_eq, ?delete_insert_eq, ?lookup_insert_eq;
      cbn [default request properties id]; rewrite <- ?List.app_assoc;
      eexists;
      (split; [|first [right; eexists; split; [exact Hct|solve [f_equal; reflexivity]]
                      |left; eexists; split;
                       [solve [f_equal; reflexivity]|repeat constructor]]]);
      intros k Hk _; unfold channelKey in Hk;
      rewrite ?lookup_insert_ne, ?lookup_delete_ne by congruence; reflexivity. }
  destruct (String.eqb rt "fetchFolderContents") eqn:Hfc.
  { apply variantToString_known in Hfc; [|discriminate].
    run_reply. fold ch. fold f. unfold hasKey.
    destruct (pag !! ("folder:" +:+ ch +:+ ":" +:+ f)) as [old|] eqn:Hold; run_reply;
      destruct (PaginationInfo.hasNext _); run_reply;
      unfold fetchFolderContentsPage, subscript; run_reply;
      rewrite ?lookup_insert_eq, ?Hold; cbn [default];
      rewrite ?insert_insert_eq, ?alter_insert_eq, ?delete_insert_eq, ?lookup_insert_eq;
      cbn [default request properties id]; rewrite <- ?List.app_assoc;
      eexists;
      (split; [|first [right; eexists; split; [exact Hfc|solve [f_equal; reflexivity]]
                      |left; eexists; split;
                       [solve [f_equal; reflexivity]|repeat constructor]]]);
      intros k _ Hk; unfold folderKey in Hk;
      rewrite ?lookup_insert_ne, ?lookup_delete_ne by congruence; reflexivity. }
  destruct (String.eqb rt "fetchFavorites").
  { eapply (Hsame [favoritesLoaded _]); [repeat constructor|]. run_reply. reflexivity. }
  destruct (String.eqb rt "fetchLocalFolders").
  { cbn [orb]. eapply (Hsame [localFoldersLoaded _]); [repeat constructor|].
    run_reply. reflexivity. }
  cbn [orb].
  destruct (String.eqb rt "fetchLocalTracks").
  { eapply (Hsame [localTracksLoaded _ _]); [repeat constructor|].
    run_reply. reflexivity. }
  destruct (String.eqb rt "searchTracks").
  { eapply (Hsame [searchResultsReady _]); [repeat constructor|].
    run_reply. reflexivity. }
  eapply (Hsame []); [constructor|]. run_reply. rewrite List.app_nil_r. reflexivity.
Qed.

(** X3.  A finished reply leaves the paged requests of the other channels and
    folders as they are. *)
Theorem other_paged_requests_untouched (p : nat) (res : Finished) (w : World)
    (k : string) :
  k <> channelKey (replyProperty w p "channelId") ->
  k <> folderKey (replyProperty w p "channelId") (replyProperty w p "folderId") ->
  m_paginatedRequests (exec (onReplyFinished p res) w) !! k
  = m_paginatedRequests w !! k.
Proof.
  intros Hc Hf.
  destruct (reply_finished_shape p res w) as (pag' & Hframe & [(sigs & -> & _)|(r & _ & ->)]);
    cbn [m_paginatedRequests]; apply Hframe; assumption.
Qed.

Lemma other_paged_requests_untouched_witness :
  let w := exec (fetchChannelTracks "8" 0 100) firstPageDone in
  m_paginatedRequests
    (exec (onReplyFinished 2 (arrives (envelope [item "x"] 1 true))) w)
    !! channelKey "7"
  = m_paginatedRequests w !! channelKey "7".
Proof.
  apply (other_paged_requests_untouched 2 (arrives (envelope [item "x"] 1 true))
           (exec (fetchChannelTracks "8" 0 100) firstPageDone) (channelKey "7"));
    vm_compute; discriminate.
Defined.

(** *** Invariants of the client in use *)

(** A call that is neither a finished reply nor [cancelPendingRequests]
    sends at most one request. *)
Lemma call_shape (c : Call) (w : World) :
  match c with
  | ReplyFinished _ _ | CancelPendingRequests _ => False
  | _ => True
  end ->
  defined c w = true ->
  (exists url lf sigs,
      exec (call c) w =
        mkWorld url lf (m_pendingReplies w) (m_paginatedRequests w) (replies w)
          (nextReply w) (sent w) (emitted w ++ sigs)
      /\ Forall (fun s => isQuiet s = true) sigs)
  \/ (exists pag' r,
      exec (call c) w =
        mkWorld (m_serverUrl w) (m_localFolder w)
          (m_pendingReplies w ++ [nextReply w]) pag'
          (<[nextReply w := r]> (replies w)) (S (nextReply w))
          (sent w ++ [request r]) (emitted w ++ [requestStarted])).
Proof.
  intros Hc Hd. destruct w as [url lf pend pag reps nxt snt emt].
  destruct c; try contradiction.
  10:{ cbn [defined m_serverUrl] in Hd. destruct url as [|c0 url].
       - left. eexists _, _, [apiError _]. split; [|repeat constructor]. reflexivity.
       - cbn [isEmpty orb] in Hd.
         destruct (searchPage offset limit) as [page|] eqn:Hpage; [|discriminate].
         right. cbv [call searchTracks]. run_reply. rewrite Hpage. run_reply.
         rewrite ?alter_insert_eq. cbn [request properties].
         eexists _, _. f_equal; reflexivity. }
  all: try (left; eexists _, _, []; split; [|constructor];
            cbv [call setServerUrl setLocalFolder exec snd
                 m_pendingReplies m_paginatedRequests replies nextReply sent emitted
                 m_localFolder m_serverUrl];
            rewrite List.app_nil_r; reflexivity);
    try (left; eexists _, _, [apiError _]; split; [|repeat constructor];
         reflexivity);
    (destruct url as [|c0 url];
     [left; eexists _, _, [apiError _]; split; [|repeat constructor]; reflexivity
     |right;
      cbv [call checkConnection fetchChannels fetchChannelTracks
           fetchFolderContents fetchFavorites fetchLocalFolders fetchLocalTracks
           fetchChannelTracksPage fetchFolderContentsPage];
      run_reply; rewrite ?alter_insert_eq; cbn [request properties];
      eexists _, _; f_equal; reflexivity]).
Qed.

Lemma pendingAlive_fresh (w : World) :
  pendingAlive w -> nextReply w ∉ m_pendingReplies w.
Proof.
  intros (_ & Ha & Hd) Hin. rewrite Forall_forall in Ha.
  specialize (Hd _ (Ha _ Hin)). lia.
Qed.

Section PendingAlive.
Variables (url lf url' lf' : string) (pend : list nat).
Variables (pag pag' : gmap string PaginatedRequest.t).
Variables (reps : gmap nat QNetworkReply) (nxt : nat).
Variables (snt snt' : list QNetworkRequest) (emt emt' : list Signal).
Hypothesis Halive : pendingAlive (mkWorld url lf pend pag reps nxt snt emt).

Lemma pendingAlive_sent (r : QNetworkReply) :
  pendingAlive
    (mkWorld url' lf' (pend ++ [nxt]) pag' (<[nxt := r]> reps) (S nxt) snt' emt').
Proof.
  pose proof (pendingAlive_fresh _ Halive) as Hfresh.
  destruct Halive as (Hnd & Ha & Hd).
  cbn [m_pendingReplies replies nextReply] in *.
  repeat split; cbn [m_pendingReplies replies nextReply].
  - apply NoDup_app. repeat split; [assumption| |apply NoDup_singleton].
    intros x Hx Hx'. apply list_elem_of_singleton in Hx'. subst. contradiction.
  - apply Forall_app. split.
    + eapply Forall_impl; [exact Ha|]. intros q Hq. cbv beta in *.
      destruct (decide (q = nxt)) as [->|Hne];
        [rewrite lookup_insert_eq; eauto|rewrite lookup_insert_ne by congruence; exact Hq].
    + repeat constructor. rewrite lookup_insert_eq. eauto.
  - intros q Hq. destruct (decide (q = nxt)) as [->|Hne]; [lia|].
    rewrite lookup_insert_ne in Hq by congruence. specialize (Hd _ Hq). lia.
Qed.

Lemma pendingAlive_done (p : nat) :
  pendingAlive
    (mkWorld url' lf' (filter (fun q => q ≠ p) pend) pag' (delete p reps) nxt
       snt' emt').
Proof.
  destruct Halive as (Hnd & Ha & Hd).
  cbn [m_pendingReplies replies nextReply] in *.
  repeat split; cbn [m_pendingReplies replies nextReply].
  - apply NoDup_filter. assumption.
  - rewrite Forall_forall in Ha. apply Forall_forall. intros q Hq.
    apply list_elem_of_filter in Hq as [Hne Hq].
    rewrite lookup_delete_ne by congruence. auto.
  - intros q [x Hq]. apply lookup_delete_Some in Hq as [_ Hq]. apply Hd. eauto.
Qed.

Lemma pendingAlive_next (p : nat) (r : QNetworkReply) :
  is_Some (reps !! p) ->
  pendingAlive
    (mkWorld url' lf' (filter (fun q => q ≠ p) pend ++ [nxt]) pag'
       (delete p (<[nxt := r]> reps)) (S nxt) snt' emt').
Proof.
  intros Hp.
  pose proof (pendingAlive_fresh _ Halive) as Hfresh.
  destruct Halive as (Hnd & Ha & Hd).
  cbn [m_pendingReplies replies nextReply] in *.
  pose proof (Hd _ Hp) as Hlt.
  repeat split; cbn [m_pendingReplies replies nextReply].
  - apply NoDup_app. repeat split; [apply NoDup_filter; assumption| |apply NoDup_singleton].
    intros x Hx Hx'. apply list_elem_of_singleton in Hx'. subst.
    apply list_elem_of_filter in Hx as [_ Hx]. contradiction.
  - apply Forall_app. split.
    + rewrite Forall_forall in Ha. apply Forall_forall. intros q Hq.
      apply list_elem_of_filter in Hq as [Hne Hq].
      rewrite lookup_delete_ne by congruence.
      rewrite lookup_insert_ne; [auto|]. intros ->. contradiction.
    + repeat constructor. rewrite lookup_delete_ne by lia.
      rewrite lookup_insert_eq. eauto.
  - intros q [x Hq]. apply lookup_delete_Some in Hq as [_ Hq].
    destruct (decide (q = nxt)) as [->|Hne]; [lia|].
    rewrite lookup_insert_ne in Hq by congruence.
    assert (q < nxt)%nat by (apply Hd; eauto). lia.
Qed.

Lemma pendingAlive_cleared :
  pendingAlive (mkWorld url' lf' [] pag' reps nxt snt' emt').
Proof.
  destruct Halive as (_ & _ & Hd). repeat split; [constructor|constructor|exact Hd].
Qed.

End PendingAlive.

Lemma pendingAlive_finished (p : nat) (res : Finished) (w : World) :
  pendingAlive w -> pendingAlive (exec (onReplyFinished p res) w).
Proof.
  intros Hw.
  destruct (reply_finished_shape p res w)
    as (pag' & _ & [(sigs & -> & _)|(r & Hp & ->)]);
    destruct w; [apply pendingAlive_done with (1 := Hw)
                |apply pendingAlive_next with (1 := Hw); exact Hp].
Qed.

Lemma pendingAlive_abortAll (aborted : list (nat * Finished)) :
  forall w : World, pendingAlive w -> pendingAlive (exec (abortAll aborted) w).
Proof.
  induction aborted as [|[p res] rest IH]; intros w Hw; [exact Hw|].
  cbn [abortAll]. rewrite exec_bind. apply IH, pendingAlive_finished, Hw.
Qed.

Lemma exec_cleared (w : World) :
  exec (modifyPending (fun _ => [])) w =
  mkWorld (m_serverUrl w) (m_localFolder w) [] (m_paginatedRequests w) (replies w)
    (nextReply w) (sent w) (emitted w).
Proof. reflexivity. Qed.

Lemma step_inv (c : Call) (w w' : World) :
  step c w = Some w' -> defined c w = true /\ w' = exec (call c) w.
Proof.
  unfold step. destruct (defined c w); [|discriminate]. intros [= <-]. auto.
Qed.

Lemma pendingAlive_step (c : Call) (w w' : World) :
  pendingAlive w -> step c w = Some w' -> pendingAlive w'.
Proof.
  intros Hw Hstep. apply step_inv in Hstep as [Hd ->]. destruct c.
  13:{ apply pendingAlive_finished, Hw. }
  12:{ cbn [call]. unfold cancelPendingRequests. rewrite exec_bind, exec_cleared.
       pose proof (pendingAlive_abortAll aborted w Hw) as H.
       destruct (exec (abortAll aborted) w). apply pendingAlive_cleared with (1 := H). }
  all: match goal with
       | |- pendingAlive (exec (call ?c) _) =>
           destruct (call_shape c w I Hd) as [(? & ? & ? & -> & _)|(? & ? & ->)]
       end;
    destruct w; [exact Hw|apply pendingAlive_sent with (1 := Hw)].
Qed.

(** X6.  Through every run of the client (calls of the public interface
    and finished replies, each with a defined behaviour where it takes
    place, whatever replies [cancelPendingRequests] gets to abort),
    [m_pendingReplies] holds no pointer twice, every pointer in it is a
    reply object that has not been deleted, and every reply object that
    has not been deleted was handed out by the network manager before. *)
Theorem pending_replies_stay_alive (cs : list Call) (w w' : World) :
  pendingAlive w -> steps cs w = Some w' -> pendingAlive w'.
Proof.
  revert w. induction cs as [|c cs IH]; intros w Hw Hsteps.
  - injection Hsteps as <-. exact Hw.
  - cbn [steps] in Hsteps. destruct (step c w) as [w1|] eqn:Hstep; [|discriminate].
    apply (IH w1); [|exact Hsteps]. apply (pendingAlive_step c w w1 Hw Hstep).
Qed.

Lemma pending_replies_stay_alive_witness :
  steps [FetchChannels; SearchTracks "x" 7 0] configured = None
  /\ let canceled := mkFinished (Some "Operation canceled") (ParseError "") in
     let cs := [FetchChannelTracks "7" 0 100; FetchChannels; FetchFavorites;
                ReplyFinished 0 (arrives (envelope [item "a"] 1 true));
                CancelPendingRequests [(1%nat, canceled); (3%nat, canceled)];
                ReplyFinished 2 (arrives refusal); SearchTracks "x" 120 50] in
     let w' :=
       exec (fetchChannelTracks "7" 0 100 ;; fetchChannels ;; fetchFavorites ;;
             onReplyFinished 0 (arrives (envelope [item "a"] 1 true)) ;;
             cancelPendingRequests [(1%nat, canceled); (3%nat, canceled)] ;;
             onReplyFinished 2 (arrives refusal) ;; searchTracks "x" 120 50)
         configured in
     steps cs configured = Some w' /\ pendingAlive w'.
Proof.
  cbv zeta. split; [vm_compute; reflexivity|]. split; [vm_compute; reflexivity|].
  apply (pending_replies_stay_alive
           [FetchChannelTracks "7" 0 100; FetchChannels; FetchFavorites;
            ReplyFinished 0 (arrives (envelope [item "a"] 1 true));
            CancelPendingRequests
              [(1%nat, mkFinished (Some "Operation canceled") (ParseError ""));
               (3%nat, mkFinished (Some "Operation canceled") (ParseError ""))];
            ReplyFinished 2 (arrives refusal); SearchTracks "x" 120 50]
           configured); [|vm_compute; reflexivity].
  repeat split; cbn [m_pendingReplies replies nextReply configured].
  - constructor.
  - constructor.
  - intros p [x Hx]. rewrite lookup_empty in Hx. discriminate.
Defined.

Lemma filter_quiet (p : Signal -> bool) (sigs : list Signal) :
  (forall s, isQuiet s = true -> p s = false) ->
  Forall (fun s => isQuiet s = true) sigs -> List.filter p sigs = [].
Proof.
  intros Hp. induction 1 as [|s sigs Hs _ IH]; [reflexivity|].
  cbn. rewrite (Hp s Hs). exact IH.
Qed.

Lemma quiet_not_started (s : Signal) : isQuiet s = true -> isStarted s = false.
Proof. destruct s; (discriminate || reflexivity). Qed.

Lemma quiet_not_unused (s : Signal) : isQuiet s = true -> isUnused s = false.
Proof. destruct s; (discriminate || reflexivity). Qed.

Lemma count_emit (p : Signal -> bool) (w : World) (url lf : string)
    (pend : list nat) (pag : gmap string PaginatedRequest.t)
    (reps : gmap nat QNetworkReply) (nxt : nat) (snt : list QNetworkRequest)
    (sigs : list Signal) :
  count p (mkWorld url lf pend pag reps nxt snt (emitted w ++ sigs))
  = (count p w + length (List.filter p sigs))%nat.
Proof.
  unfold count. cbn [emitted]. rewrite List.filter_app, List.length_app. reflexivity.
Qed.

Section Count.

(** A kind of signal that is neither [requestFinished] nor an answer or an
    error: what a step adds to its count, against the requests sent. *)
Variable p : Signal -> bool.
Hypothesis Hquiet : forall s, isQuiet s = true -> p s = false.
Hypothesis Hfinished : p requestFinished = false.

Let balance (w w' : World) : Prop :=
  (count p w' + (if p requestStarted then length (sent w) else 0)
   = count p w + (if p requestStarted then length (sent w') else 0))%nat.

Lemma count_finished (reply : nat) (res : Finished) (w : World) :
  balance w (exec (onReplyFinished reply res) w).
Proof.
  unfold balance.
  destruct (reply_finished_shape reply res w)
    as (pag' & _ & [(sigs & -> & Hq)|(r & _ & ->)]);
    rewrite count_emit; cbn [sent List.filter]; rewrite Hfinished.
  - rewrite (filter_quiet p sigs Hquiet Hq). cbn [length]. lia.
  - rewrite List.length_app. destruct (p requestStarted); cbn [length]; lia.
Qed.

Lemma count_abortAll (aborted : list (nat * Finished)) :
  forall w : World, balance w (exec (abortAll aborted) w).
Proof.
  induction aborted as [|[reply res] rest IH]; intros w.
  - unfold balance. cbn [abortAll exec ret snd]. lia.
  - cbn [abortAll]. rewrite exec_bind.
    pose proof (count_finished reply res w) as H1.
    pose proof (IH (exec (onReplyFinished reply res) w)) as H2.
    unfold balance in *. destruct (p requestStarted); lia.
Qed.

Lemma count_step (c : Call) (w w' : World) :
  step c w = Some w' -> balance w w'.
Proof.
  intros Hstep. apply step_inv in Hstep as [Hd ->]. destruct c.
  13:{ apply count_finished. }
  12:{ cbn [call]. unfold cancelPendingRequests. rewrite exec_bind, exec_cleared.
       pose proof (count_abortAll aborted w) as H. unfold balance, count in *.
       cbn [emitted sent]. exact H. }
  all: unfold balance;
    match goal with
    | |- context [exec (call ?c) _] =>
        destruct (call_shape c w I Hd) as [(? & ? & ? & -> & Hq)|(? & ? & ->)]
    end;
    rewrite count_emit; cbn [sent List.filter];
    [rewrite (filter_quiet p _ Hquiet Hq); cbn [length]; lia
    |rewrite List.length_app; destruct (p requestStarted); cbn [length]; lia].
Qed.

End Count.

(** X7.  Through every run of the client, [requestStarted] has been
    emitted as often as a request has gone to the network: a call the
    configuration gate refuses emits none, a following page emits one,
    [cancelPendingRequests] emits none. *)
Theorem every_request_is_announced (cs : list Call) (w w' : World) :
  count isStarted w = length (sent w) ->
  steps cs w = Some w' ->
  count isStarted w' = length (sent w').
Proof.
  revert w. induction cs as [|c cs IH]; intros w Hw Hsteps.
  - injection Hsteps as <-. exact Hw.
  - cbn [steps] in Hsteps. destruct (step c w) as [w1|] eqn:Hstep; [|discriminate].
    apply (IH w1); [|exact Hsteps].
    pose proof (count_step isStarted quiet_not_started eq_refl c w w1 Hstep) as H.
    cbv iota beta delta [isStarted] in H. fold isStarted in H. lia.
Qed.

Lemma every_request_is_announced_witness :
  let canceled := mkFinished (Some "Operation canceled") (ParseError "") in
  let cs := [FetchChannelTracks "7" 0 100; CheckConnection;
             ReplyFinished 0 (arrives (envelope [item "a"] 1 true));
             SearchTracks "x" 0 50; CancelPendingRequests [(2%nat, canceled)];
             DownloadTrack "t" "/tmp/t"] in
  let w' :=
    exec (fetchChannelTracks "7" 0 100 ;; checkConnection ;;
          onReplyFinished 0 (arrives (envelope [item "a"] 1 true)) ;;
          searchTracks "x" 0 50 ;; cancelPendingRequests [(2%nat, canceled)] ;;
          downloadTrack "t" "/tmp/t") configured in
  steps cs configured = Some w' /\ count isStarted w' = length (sent w').
Proof.
  cbv zeta. split; [vm_compute; reflexivity|].
  apply (every_request_is_announced
           [FetchChannelTracks "7" 0 100; CheckConnection;
            ReplyFinished 0 (arrives (envelope [item "a"] 1 true));
            SearchTracks "x" 0 50;
            CancelPendingRequests
              [(2%nat, mkFinished (Some "Operation canceled") (ParseError ""))];
            DownloadTrack "t" "/tmp/t"]
           configured); vm_compute; reflexivity.
Defined.

Lemma unused_steps (cs : list Call) :
  forall w w' : World, steps cs w = Some w' -> count isUnused w' = count isUnused w.
Proof.
  induction cs as [|c cs IH]; intros w w' Hsteps.
  - injection Hsteps as <-. reflexivity.
  - cbn [steps] in Hsteps. destruct (step c w) as [w1|] eqn:Hstep; [|discriminate].
    rewrite (IH w1 w' Hsteps).
    pose proof (count_step isUnused quiet_not_unused eq_refl c w w1 Hstep) as H.
    cbv iota beta delta [isUnused] in H. fold isUnused in H. lia.
Qed.

(** X26.  The header declares the signals [connectionChecked] and
    [trackDownloaded]; the client emits neither in any run.
    [checkConnection] does what [fetchChannels] does, so it answers through
    [channelsLoaded] or [apiError]; [downloadTrack] emits one [apiError]
    and does nothing else. *)
Theorem unused_signals_are_never_emitted :
  (forall (cs : list Call) (w w' : World),
      steps cs w = Some w' -> count isUnused w' = count isUnused w)
  /\ (forall w : World, checkConnection w = fetchChannels w)
  /\ (forall (trackId destPath : string) (w : World),
        exec (downloadTrack trackId destPath) w =
        mkWorld (m_serverUrl w) (m_localFolder w) (m_pendingReplies w)
          (m_paginatedRequests w) (replies w) (nextReply w) (sent w)
          (emitted w
           ++ [apiError "Download not implemented - use streaming instead"])).
Proof.
  split; [exact unused_steps|]. split; [|reflexivity].
  intros w. unfold checkConnection, bind, serverUrl.
  destruct (isEmpty (m_serverUrl w)) eqn:E; [|reflexivity].
  unfold fetchChannels, bind, serverUrl. rewrite E. reflexivity.
Qed.

Lemma unused_signals_are_never_emitted_witness :
  let canceled := mkFinished (Some "Operation canceled") (ParseError "") in
  let cs := [CheckConnection; DownloadTrack "t" "/tmp/t"; FetchFavorites;
             ReplyFinished 0 (arrives (envelope [] 1 false));
             CancelPendingRequests [(1%nat, canceled)]] in
  let w' :=
    exec (checkConnection ;; downloadTrack "t" "/tmp/t" ;; fetchFavorites ;;
          onReplyFinished 0 (arrives (envelope [] 1 false)) ;;
          cancelPendingRequests [(1%nat, canceled)]) configured in
  steps cs configured = Some w' /\ count isUnused w' = count isUnused configured.
Proof.
  cbv zeta. split; [vm_compute; reflexivity|].
  apply (proj1 unused_signals_are_never_emitted
           [CheckConnection; DownloadTrack "t" "/tmp/t"; FetchFavorites;
            ReplyFinished 0 (arrives (envelope [] 1 false));
            CancelPendingRequests
              [(1%nat, mkFinished (Some "Operation canceled") (ParseError ""))]]
           configured).
  vm_compute. reflexivity.
Defined.

(** *** Any number of pages *)

Lemma accumulate_accumulated (c f : string) (tracks : list Track.t)
    (info : PaginationInfo.t) (old : option PaginatedRequest.t) :
  PaginatedRequest.accumulatedTracks (accumulate c f tracks info old)
  = accumulated old ++ tracks.
Proof. destruct old; reflexivity. Qed.

(** The pages of a channel arrive one after the other, from a world in
    which the reply [p] of the channel is in flight. *)
Lemma channel_pages_from (docs : list QJsonValue) :
  forall (w : World) (p : nat) (channelId : string) (page pageSize : Z)
         (last : QJsonValue),
    replies w !! p = Some (channelPageReply (m_serverUrl w) channelId page pageSize) ->
    nextReply w = S p ->
    Forall (fun doc => continues doc = true) docs ->
    succeeded last = true -> PaginationInfo.hasNext (pagination last) = false ->
    let w' := exec (deliver p (docs ++ [last])) w in
    emitted w' =
      emitted w
      ++ concat (map (fun _ => [requestFinished; requestStarted]) docs)
      ++ [requestFinished;
          tracksLoaded channelId
            (accumulated (m_paginatedRequests w !! channelKey channelId)
             ++ concat (map (pageTracks channelId) (docs ++ [last])))]
    /\ sent w' = sent w ++ map (nextChannelPage (m_serverUrl w) channelId) docs
    /\ m_paginatedRequests w' !! channelKey channelId = None.
Proof.
  induction docs as [|doc docs IH];
    intros w p channelId page pageSize last Hr Hn Hall Hs Hl; cbv zeta.
  - cbn [app deliver]. rewrite exec_bind. unfold arrives.
    rewrite (channel_page_finished p _ channelId last w Hr
               (channelPageReply_type _ _ _ _) (channelPageReply_channel _ _ _ _) Hs).
    rewrite Hl. cbn [exec ret snd emitted m_paginatedRequests sent concat map app].
    rewrite accumulate_accumulated, !List.app_nil_r, lookup_delete_eq.
    repeat split.
  - apply Forall_cons in Hall as [Hdoc Hall].
    unfold continues in Hdoc. apply andb_true_iff in Hdoc as [Hsd Hnd].
    cbn [app deliver]. rewrite exec_bind. unfold arrives.
    rewrite (channel_page_finished p _ channelId doc w Hr
               (channelPageReply_type _ _ _ _) (channelPageReply_channel _ _ _ _) Hsd).
    rewrite Hnd. cbv zeta.
    match goal with |- context [exec (deliver (S p) _) ?w1] => set (w1' := w1) end.
    specialize (IH w1' (S p) channelId
                  (wrap_int (PaginationInfo.page (pagination doc) + 1))
                  (PaginationInfo.pageSize (pagination doc)) last).
    cbv zeta in IH.
    destruct IH as (He & Hsent & Hk); try assumption.
    + unfold w1'. cbn [replies m_serverUrl]. rewrite Hn.
      rewrite lookup_delete_ne by lia. apply lookup_insert_eq.
    + unfold w1'. cbn [nextReply]. rewrite Hn. reflexivity.
    + rewrite He, Hk, Hsent. unfold w1'.
      cbn [emitted m_paginatedRequests sent m_serverUrl]. rewrite lookup_insert_eq.
      cbn [accumulated]. rewrite accumulate_accumulated.
      cbn [map concat]. rewrite <- !List.app_assoc. repeat split.
Qed.

Lemma channel_pages_sent (w : World) (channelId : string)
    (offset limit : Z) (docs : list QJsonValue) (last : QJsonValue) :
  m_serverUrl w <> "" ->
  Forall (fun doc => continues doc = true) docs ->
  succeeded last = true -> PaginationInfo.hasNext (pagination last) = false ->
  let w' :=
    exec (fetchChannelTracks channelId offset limit ;;
          deliver (nextReply w) (docs ++ [last])) w in
  emitted w' =
    emitted w
    ++ requestStarted
       :: concat (map (fun _ => [requestFinished; requestStarted]) docs)
    ++ [requestFinished;
        tracksLoaded channelId
          (concat (map (pageTracks channelId) (docs ++ [last])))]
  /\ sent w' =
       sent w
       ++ channelPageRequest (m_serverUrl w) channelId 1 limit
          :: map (nextChannelPage (m_serverUrl w) channelId) docs
  /\ m_paginatedRequests w' !! channelKey channelId = None.
Proof.
  intros Hurl Hall Hs Hl. cbv zeta. rewrite exec_bind.
  rewrite (fetchChannelTracks_eq channelId offset limit w Hurl).
  match goal with |- context [exec (deliver _ _) ?w1] => set (w1' := w1) end.
  destruct (channel_pages_from docs w1' (nextReply w) channelId 1 limit last)
    as (He & Hsent & Hk); try assumption.
  - unfold w1'. cbn [replies m_serverUrl]. apply lookup_insert_eq.
  - reflexivity.
  - rewrite He, Hsent, Hk. unfold w1'.
    cbn [emitted sent m_paginatedRequests m_serverUrl].
    rewrite lookup_delete_eq. cbn [accumulated app].
    rewrite <- !List.app_assoc. repeat split.
Qed.

(** X1.  A listing of a channel over any number of pages:
    [fetchChannelTracks], then the replies of the pages one after the
    other, each a success and all but the last announcing a next page.
    One [tracksLoaded] is emitted, at the end, with the items of all pages
    in the order of arrival, and the entry of the channel is gone from the
    map.  Where the id of the channel has no per cent sign, the URLs
    requested are those the template reads: first page 1 with the limit of
    the caller, then, for every page that announces another one, the page
    after the one the server reported, with the page size the server
    reported. *)
Theorem channel_pages_aggregate (localized : Z -> string) (w : World)
    (channelId : string) (offset limit : Z) (docs : list QJsonValue)
    (last : QJsonValue) :
  m_serverUrl w <> "" ->
  hasNoPercent channelId = true ->
  Forall (fun doc => continues doc = true) docs ->
  succeeded last = true -> PaginationInfo.hasNext (pagination last) = false ->
  let w' :=
    exec (fetchChannelTracks channelId offset limit ;;
          deliver (nextReply w) (docs ++ [last])) w in
  emitted w' =
    emitted w
    ++ requestStarted
       :: concat (map (fun _ => [requestFinished; requestStarted]) docs)
    ++ [requestFinished;
        tracksLoaded channelId
          (concat (map (pageTracks channelId) (docs ++ [last])))]
  /\ map (requestUrl localized) (sent w') =
       map (requestUrl localized) (sent w)
       ++ channelPageUrl (m_serverUrl w) channelId 1 limit
          :: map (nextChannelPageUrl (m_serverUrl w) channelId) docs
  /\ m_paginatedRequests w' !! channelKey channelId = None.
Proof.
  intros Hurl Hc Hall Hs Hl.
  destruct (channel_pages_sent w channelId offset limit docs last Hurl Hall Hs Hl)
    as (He & Hsent & Hk).
  cbv zeta. split; [exact He|]. split; [|exact Hk].
  rewrite Hsent, List.map_app. cbn [map].
  rewrite (render_channel_page localized _ _ _ _ Hc), List.map_map.
  do 2 f_equal. apply List.map_ext. intros doc.
  apply (render_channel_page localized _ _ _ _ Hc).
Qed.

Lemma channel_pages_aggregate_witness :
  let w' :=
    exec (fetchChannelTracks "7" 0 25 ;;
          deliver 0 ([envelope [item "a"] 1 true; envelope [item "b"] 2 true]
                     ++ [envelope [item "c"] 3 false])) configured in
  emitted w' =
    [requestStarted; requestFinished; requestStarted; requestFinished;
     requestStarted; requestFinished;
     tracksLoaded "7" [track "7" "a"; track "7" "b"; track "7" "c"]]
  /\ map (requestUrl number) (sent w') =
       [channelPageUrl "http://tfm" "7" 1 25;
        channelPageUrl "http://tfm" "7" 2 100;
        channelPageUrl "http://tfm" "7" 3 100]
  /\ m_paginatedRequests w' !! channelKey "7" = None.
Proof.
  apply (channel_pages_aggregate number configured "7" 0 25
           [envelope [item "a"] 1 true; envelope [item "b"] 2 true]
           (envelope [item "c"] 3 false)).
  - discriminate.
  - reflexivity.
  - repeat constructor.
  - reflexivity.
  - reflexivity.
Defined.

Lemma folder_pages_from (docs : list QJsonValue) :
  forall (w : World) (p : nat) (channelId folderId : string) (page pageSize : Z)
         (last : QJsonValue),
    replies w !! p
    = Some (folderPageReply (m_serverUrl w) channelId folderId page pageSize) ->
    nextReply w = S p ->
    Forall (fun doc => continues doc = true) docs ->
    succeeded last = true -> PaginationInfo.hasNext (pagination last) = false ->
    let w' := exec (deliver p (docs ++ [last])) w in
    emitted w' =
      emitted w
      ++ concat (map (fun _ => [requestFinished; requestStarted]) docs)
      ++ [requestFinished;
          folderContentsLoaded channelId folderId
            (accumulated (m_paginatedRequests w !! folderKey channelId folderId)
             ++ concat (map (pageTracks channelId) (docs ++ [last])))]
    /\ sent w' = sent w ++ map (nextFolderPage (m_serverUrl w) channelId folderId) docs
    /\ m_paginatedRequests w' !! folderKey channelId folderId = None.
Proof.
  induction docs as [|doc docs IH];
    intros w p channelId folderId page pageSize last Hr Hn Hall Hs Hl; cbv zeta.
  - cbn [app deliver]. rewrite exec_bind. unfold arrives.
    rewrite (folder_page_finished p _ channelId folderId last w Hr
               (folderPageReply_type _ _ _ _ _) (folderPageReply_channel _ _ _ _ _)
               (folderPageReply_folder _ _ _ _ _) Hs).
    rewrite Hl. cbn [exec ret snd emitted m_paginatedRequests sent concat map app].
    rewrite accumulate_accumulated, !List.app_nil_r, lookup_delete_eq.
    repeat split.
  - apply Forall_cons in Hall as [Hdoc Hall].
    unfold continues in Hdoc. apply andb_true_iff in Hdoc as [Hsd Hnd].
    cbn [app deliver]. rewrite exec_bind. unfold arrives.
    rewrite (folder_page_finished p _ channelId folderId doc w Hr
               (folderPageReply_type _ _ _ _ _) (folderPageReply_channel _ _ _ _ _)
               (folderPageReply_folder _ _ _ _ _) Hsd).
    rewrite Hnd. cbv zeta.
    match goal with |- context [exec (deliver (S p) _) ?w1] => set (w1' := w1) end.
    specialize (IH w1' (S p) channelId folderId
                  (wrap_int (PaginationInfo.page (pagination doc) + 1))
                  (PaginationInfo.pageSize (pagination doc)) last).
    cbv zeta in IH.
    destruct IH as (He & Hsent & Hk); try assumption.
    + unfold w1'. cbn [replies m_serverUrl]. rewrite Hn.
      rewrite lookup_delete_ne by lia. apply lookup_insert_eq.
    + unfold w1'. cbn [nextReply]. rewrite Hn. reflexivity.
    + rewrite He, Hk, Hsent. unfold w1'.
      cbn [emitted m_paginatedRequests sent m_serverUrl]. rewrite lookup_insert_eq.
      cbn [accumulated]. rewrite accumulate_accumulated.
      cbn [map concat]. rewrite <- !List.app_assoc. repeat split.
Qed.

Lemma folder_pages_sent (w : World) (channelId folderId : string)
    (offset limit : Z) (docs : list QJsonValue) (last : QJsonValue) :
  m_serverUrl w <> "" ->
  Forall (fun doc => continues doc = true) docs ->
  succeeded last = true -> PaginationInfo.hasNext (pagination last) = false ->
  let w' :=
    exec (fetchFolderContents channelId folderId offset limit ;;
          deliver (nextReply w) (docs ++ [last])) w in
  emitted w' =
    emitted w
    ++ requestStarted
       :: concat (map (fun _ => [requestFinished; requestStarted]) docs)
    ++ [requestFinished;
        folderContentsLoaded channelId folderId
          (concat (map (pageTracks channelId) (docs ++ [last])))]
  /\ sent w' =
       sent w
       ++ folderPageRequest (m_serverUrl w) channelId folderId 1 limit
          :: map (nextFolderPage (m_serverUrl w) channelId folderId) docs
  /\ m_paginatedRequests w' !! folderKey channelId folderId = None.
Proof.
  intros Hurl Hall Hs Hl. cbv zeta. rewrite exec_bind.
  rewrite (fetchFolderContents_eq channelId folderId offset limit w Hurl).
  match goal with |- context [exec (deliver _ _) ?w1] => set (w1' := w1) end.
  destruct (folder_pages_from docs w1' (nextReply w) channelId folderId 1 limit last)
    as (He & Hsent & Hk); try assumption.
  - unfold w1'. cbn [replies m_serverUrl]. apply lookup_insert_eq.
  - reflexivity.
  - rewrite He, Hsent, Hk. unfold w1'.
    cbn [emitted sent m_paginatedRequests m_serverUrl].
    rewrite lookup_delete_eq. cbn [accumulated app].
    rewrite <- !List.app_assoc. repeat split.
Qed.

(** X2.  The same for the contents of a folder: one
    [folderContentsLoaded] at the end with the items of all pages in order,
    and no entry of the folder left in the map.  Where neither the id of
    the channel nor the id of the folder has a per cent sign, the URLs
    requested are those the template reads: page 1 with the limit of the
    caller, then the pages and page sizes the server reported. *)
Theorem folder_pages_aggregate (localized : Z -> string) (w : World)
    (channelId folderId : string) (offset limit : Z) (docs : list QJsonValue)
    (last : QJsonValue) :
  m_serverUrl w <> "" ->
  hasNoPercent channelId = true -> hasNoPercent folderId = true ->
  Forall (fun doc => continues doc = true) docs ->
  succeeded last = true -> PaginationInfo.hasNext (pagination last) = false ->
  let w' :=
    exec (fetchFolderContents channelId folderId offset limit ;;
          deliver (nextReply w) (docs ++ [last])) w in
  emitted w' =
    emitted w
    ++ requestStarted
       :: concat (map (fun _ => [requestFinished; requestStarted]) docs)
    ++ [requestFinished;
        folderContentsLoaded channelId folderId
          (concat (map (pageTracks channelId) (docs ++ [last])))]
  /\ map (requestUrl localized) (sent w') =
       map (requestUrl localized) (sent w)
       ++ folderPageUrl (m_serverUrl w) channelId folderId 1 limit
          :: map (nextFolderPageUrl (m_serverUrl w) channelId folderId) docs
  /\ m_paginatedRequests w' !! folderKey channelId folderId = None.
Proof.
  intros Hurl Hc Hf Hall Hs Hl.
  destruct (folder_pages_sent w channelId folderId offset limit docs last
              Hurl Hall Hs Hl) as (He & Hsent & Hk).
  cbv zeta. split; [exact He|]. split; [|exact Hk].
  rewrite Hsent, List.map_app. cbn [map].
  rewrite (render_folder_page localized _ _ _ _ _ Hc Hf), List.map_map.
  do 2 f_equal. apply List.map_ext. intros doc.
  apply (render_folder_page localized _ _ _ _ _ Hc Hf).
Qed.

Lemma folder_pages_aggregate_witness :
  let w' :=
    exec (fetchFolderContents "7" "f" 0 25 ;;
          deliver 0 ([envelope [item "a"] 1 true; envelope [item "b"] 2 true]
                     ++ [envelope [item "c"] 3 false])) configured in
  emitted w' =
    [requestStarted; requestFinished; requestStarted; requestFinished;
     requestStarted; requestFinished;
     folderContentsLoaded "7" "f" [track "7" "a"; track "7" "b"; track "7" "c"]]
  /\ map (requestUrl number) (sent w') =
       [folderPageUrl "http://tfm" "7" "f" 1 25;
        folderPageUrl "http://tfm" "7" "f" 2 100;
        folderPageUrl "http://tfm" "7" "f" 3 100]
  /\ m_paginatedRequests w' !! folderKey "7" "f" = None.
Proof.
  apply (folder_pages_aggregate number configured "7" "f" 0 25
           [envelope [item "a"] 1 true; envelope [item "b"] 2 true]
           (envelope [item "c"] 3 false)).
  - discriminate.
  - reflexivity.
  - reflexivity.
  - repeat constructor.
  - reflexivity.
  - reflexivity.
Defined.

(** *** Errors *)

Lemma append_nonempty (s t : string) : s <> "" -> s +:+ t <> "".
Proof. destruct s; [congruence|discriminate]. Qed.

(** X4.  Every finished reply that is an error (a network error, a body that
    is not JSON, a failure envelope) is reported by one [apiError] whose
    text is not empty, sends nothing and keeps the paged requests. *)
Theorem every_error_is_reported (p : nat) (res : Finished) (w : World) :
  isError res = true ->
  exists msg : string,
    msg <> ""
    /\ exec (onReplyFinished p res) w =
       mkWorld (m_serverUrl w) (m_localFolder w)
         (filter (fun q => q ≠ p) (m_pendingReplies w)) (m_paginatedRequests w)
         (delete p (replies w)) (nextReply w) (sent w)
         (emitted w ++ [requestFinished; apiError msg]).
Proof.
  intros He. destruct w as [url lf pend pag reps nxt snt emt], res as [err data].
  unfold isError in He. cbn [networkError body] in He.
  unfold onReplyFinished, handleResponse. destruct err as [e|].
  - eexists. split; [|run; rewrite <- List.app_assoc; reflexivity]. discriminate.
  - destruct data as [e|doc]; cbn [failure] in He.
    + eexists. split; [|run; rewrite <- List.app_assoc; reflexivity]. discriminate.
    + apply negb_true_iff in He. unfold succeeded in He.
      eexists. split; [|run; rewrite He; run; rewrite <- List.app_assoc; reflexivity].
      destruct (toString (value (toObject doc) "error")) as [|c s];
        [|discriminate].
      destruct (toString (value (toObject doc) "message")); discriminate.
Qed.

Lemma every_error_is_reported_witness :
  exists msg : string,
    msg <> ""
    /\ exec (onReplyFinished 1
               (mkFinished (Some "timeout") (Document (envelope [item "b"] 2 false))))
         firstPageDone =
       mkWorld (m_serverUrl firstPageDone) (m_localFolder firstPageDone)
         (filter (fun q => q ≠ 1%nat) (m_pendingReplies firstPageDone))
         (m_paginatedRequests firstPageDone)
         (delete 1%nat (replies firstPageDone)) (nextReply firstPageDone)
         (sent firstPageDone)
         (emitted firstPageDone ++ [requestFinished; apiError msg]).
Proof.
  apply (every_error_is_reported 1
           (mkFinished (Some "timeout") (Document (envelope [item "b"] 2 false)))
           firstPageDone).
  reflexivity.
Defined.

(** *** Lists that are not paged *)

(** X8.  The folders of [localFoldersLoaded] are the items of [data.items]
    that are flagged [isFolder], in order; every folder reported has the
    flag. *)
Theorem local_folders_are_folders (p : nat) (r : QNetworkReply)
    (doc : QJsonValue) (w : World) :
  replies w !! p = Some r ->
  properties r !! "requestType" = Some (VString "fetchLocalFolders") ->
  succeeded doc = true ->
  exists folders : list Folder.t,
    emitted (exec (onReplyFinished p (arrives doc)) w)
    = emitted w ++ [requestFinished; localFoldersLoaded folders]
    /\ Forall (fun f => Folder.isFolder f = true) folders
    /\ (length folders
        <= length (toArray (value (toObject (value (toObject doc) "data")) "items")))%nat.
Proof.
  intros Hr Ht Hs. destruct w as [url lf pend pag reps nxt snt emt], r as [rq props].
  cbn [replies properties] in Hr, Ht. unfold succeeded in Hs.
  unfold onReplyFinished, arrives. run. rewrite Hr. cbn [mbind option_bind properties].
  rewrite Ht. unfold handleResponse. rewrite Hs. run.
  change (String.eqb "fetchLocalFolders" "fetchChannels") with false.
  change (String.eqb "fetchLocalFolders" "fetchChannelTracks") with false.
  change (String.eqb "fetchLocalFolders" "fetchFolderContents") with false.
  change (String.eqb "fetchLocalFolders" "fetchFavorites") with false.
  change (String.eqb "fetchLocalFolders" "fetchLocalFolders") with true.
  cbv iota beta delta [orb]. run.
  eexists. split; [rewrite <- List.app_assoc; reflexivity|]. split.
  - apply List.Forall_map, Forall_forall. intros o Ho.
    apply list_elem_of_filter in Ho as [Ho _]. exact Ho.
  - rewrite List.length_map.
    destruct (isObject (value (toObject doc) "data")); [|cbn; lia].
    etransitivity; [apply length_filter|]. rewrite List.length_map. lia.
Qed.

Lemma local_folders_are_folders_witness :
  let doc :=
    JObject [("success", JBool true);
             ("data",
               JObject [("items",
                 JArray [JObject [("name", JString "a"); ("isFolder", JBool true)];
                         JObject [("name", JString "b.mp3")]])])] in
  let w := exec fetchLocalFolders configured in
  exists folders : list Folder.t,
    emitted (exec (onReplyFinished 0 (arrives doc)) w)
    = emitted w ++ [requestFinished; localFoldersLoaded folders]
    /\ Forall (fun f => Folder.isFolder f = true) folders
    /\ (length folders
        <= length (toArray (value (toObject (value (toObject doc) "data")) "items")))%nat.
Proof.
  cbv zeta.
  eapply (local_folders_are_folders 0 _ _ (exec fetchLocalFolders configured));
    reflexivity.
Defined.

(** X9.  Every channel of [favoritesLoaded] is flagged as a favourite,
    whatever the server says of it, and there is one for every element of
    [data]. *)
Theorem favorites_are_flagged (p : nat) (r : QNetworkReply)
    (doc : QJsonValue) (w : World) :
  replies w !! p = Some r ->
  properties r !! "requestType" = Some (VString "fetchFavorites") ->
  succeeded doc = true ->
  exists favorites : list Channel.t,
    emitted (exec (onReplyFinished p (arrives doc)) w)
    = emitted w ++ [requestFinished; favoritesLoaded favorites]
    /\ Forall (fun ch => Channel.isFavorite ch = true) favorites
    /\ length favorites = length (toArray (value (toObject doc) "data")).
Proof.
  intros Hr Ht Hs. destruct w as [url lf pend pag reps nxt snt emt], r as [rq props].
  cbn [replies properties] in Hr, Ht. unfold succeeded in Hs.
  unfold onReplyFinished, arrives. run. rewrite Hr. cbn [mbind option_bind properties].
  rewrite Ht. unfold handleResponse. rewrite Hs. run.
  change (String.eqb "fetchFavorites" "fetchChannels") with false.
  change (String.eqb "fetchFavorites" "fetchChannelTracks") with false.
  change (String.eqb "fetchFavorites" "fetchFolderContents") with false.
  change (String.eqb "fetchFavorites" "fetchFavorites") with true.
  cbv iota. run.
  eexists. split; [rewrite <- List.app_assoc; reflexivity|]. split.
  - apply List.Forall_map, Forall_forall. intros; reflexivity.
  - apply List.length_map.
Qed.

Lemma favorites_are_flagged_witness :
  let doc :=
    JObject [("success", JBool true);
             ("data", JArray [JObject [("name", JString "a");
                                       ("isFavorite", JBool false)]])] in
  let w := exec fetchFavorites configured in
  exists favorites : list Channel.t,
    emitted (exec (onReplyFinished 0 (arrives doc)) w)
    = emitted w ++ [requestFinished; favoritesLoaded favorites]
    /\ Forall (fun ch => Channel.isFavorite ch = true) favorites
    /\ length favorites = length (toArray (value (toObject doc) "data")).
Proof.
  cbv zeta.
  eapply (favorites_are_flagged 0 _ _ (exec fetchFavorites configured));
    reflexivity.
Defined.

End ApiClientFacts.

(* ===================================================================== *)
(** ** Facts about TFMTrackModel *)
(* ===================================================================== *)

Module TrackModelFacts.
Import Qt TrackModel.

(** *** The name of the cache file *)

Lemma length_app (s t : string) :
  String.length (s +:+ t) = (String.length s + String.length t)%nat.
Proof. induction s as [|c s IH]; simpl; [reflexivity | now rewrite IH]. Qed.

Lemma substring_all (s : string) : String.substring 0 (String.length s) s = s.
Proof. induction s as [|c s IH]; simpl; [reflexivity | now rewrite IH]. Qed.

Lemma substring_app_r (s t : string) :
  String.substring (String.length s) (String.length t) (s +:+ t) = t.
Proof. induction s as [|c s IH]; simpl; [apply substring_all | exact IH]. Qed.

Lemma substring_app_l (s t : string) :
  String.substring 0 (String.length s) (s +:+ t) = s.
Proof.
  induction s as [|c s IH]; simpl.
  - destruct t; reflexivity.
  - now rewrite IH.
Qed.

Lemma length_substring_0 (n : nat) (s : string) :
  (n <= String.length s)%nat -> String.length (String.substring 0 n s) = n.
Proof.
  revert s; induction n as [|n IH]; intros [|c s] H; simpl in *; try reflexivity; try lia.
  rewrite IH; [reflexivity | lia].
Qed.

Lemma right_app (s t : string) : right (String.length t) (s +:+ t) = t.
Proof.
  unfold right. rewrite length_app.
  replace (String.length s + String.length t - String.length t)%nat
    with (String.length s) by lia.
  apply substring_app_r.
Qed.

Lemma left_app (s t : string) :
  left (String.length (s +:+ t) - String.length t) (s +:+ t) = s.
Proof.
  unfold left. rewrite length_app.
  replace (String.length s + String.length t - String.length t)%nat
    with (String.length s) by lia.
  apply substring_app_l.
Qed.

Lemma endsWith_app (s t : string) : endsWith (s +:+ t) t = true.
Proof.
  unfold endsWith. rewrite right_app, String.eqb_refl, length_app.
  rewrite andb_true_r. apply Nat.leb_le. lia.
Qed.

(** C10, as stated, fails: an identifier that ends with the extension twice
    keeps one of them, and the file name ends with two. *)
Lemma doubled_extension :
  endsWithCI "a.mp3.mp3" ".mp3" = true
  /\ cacheFileName "a.mp3.mp3" ".mp3" = "a.mp3.mp3"
  /\ endsWithOnce (cacheFileName "a.mp3.mp3" ".mp3") ".mp3" = false.
Proof. repeat split. Qed.

(** C10, as the code has it.  When the sanitized identifier ends with the
    extension, whatever the letter case, one occurrence is cut off before
    the extension is appended: the file name is the identifier without its
    last extension followed by the inferred one, it is as long as the
    identifier, and it ends with the extension.  It ends with the extension
    exactly once whenever what is left of the identifier does not end with
    it again. *)
Theorem single_strip (sanitizedId fileExt : string) :
  endsWithCI sanitizedId fileExt = true ->
  let stem :=
    left (String.length sanitizedId - String.length fileExt) sanitizedId in
  let name := cacheFileName sanitizedId fileExt in
  name = stem +:+ fileExt
  /\ String.length name = String.length sanitizedId
  /\ endsWith name fileExt = true
  /\ (endsWithCI stem fileExt = false -> endsWithOnce name fileExt = true).
Proof.
  intros H. cbv zeta. unfold cacheFileName. rewrite H.
  set (stem := left _ _).
  assert (Hlen : (String.length fileExt <= String.length sanitizedId)%nat).
  { unfold endsWithCI in H. apply andb_true_iff in H as [H _].
    now apply Nat.leb_le in H. }
  repeat split.
  - rewrite length_app. unfold stem, left. rewrite length_substring_0; lia.
  - apply endsWith_app.
  - intros Hs. unfold endsWithOnce. rewrite endsWith_app, left_app, Hs. reflexivity.
Qed.

Lemma single_strip_witness :
  cacheFileName "Song.MP3" ".mp3" = "Song.mp3"
  /\ endsWithOnce (cacheFileName "Song.MP3" ".mp3") ".mp3" = true.
Proof.
  destruct (single_strip "Song.MP3" ".mp3" eq_refl) as (H1 & _ & _ & H4).
  split; [exact H1 | apply H4; reflexivity].
Defined.

(** *** The probe of the cache *)

Lemma writeFile_requested (env : Env) (destPath : string) (data : QByteArray)
    (w : Host) : requested (snd (writeFile env destPath data w)) = requested w.
Proof.
  unfold writeFile. destruct (storage env destPath data); [reflexivity|].
  repeat (match goal with |- context [if ?b then _ else _] => destruct b end);
    reflexivity.
Qed.

Lemma downloadTrackSync_requested (env : Env) (url destPath : string)
    (expectedSize : Z) (w : Host) :
  requested (snd (downloadTrackSync env url destPath expectedSize w))
  = requested w ++ [url].
Proof.
  unfold downloadTrackSync.
  repeat (match goal with |- context [if ?b then _ else _] => destruct b end);
    try reflexivity.
  apply writeFile_requested.
Qed.

Lemma getTrackLocation_remove (index : Row) (w : Host) (path : string) :
  getTrackLocation index w <> path ->
  getTrackLocation index (remove path w) = getTrackLocation index w.
Proof.
  unfold getTrackLocation, isFile, exists_, remove. cbn [files].
  destruct (decide (path = local_path index)) as [->|Hne].
  - rewrite lookup_delete_eq.
    destruct (5 <? Z.of_nat (String.length (local_path index))); cbn [andb]; [|reflexivity].
    destruct (files w !! local_path index); [congruence | reflexivity].
  - rewrite lookup_delete_ne by exact Hne. reflexivity.
Qed.

(** C1, as stated, fails: where the stored local path of the track is a
    file, [getTrackLocation] answers with that path and [getTrack] hands it
    out without a look at the cache.  A file at the cache path that is
    valid is not reused, and one that is not valid is not deleted. *)
Lemma local_path_skips_the_probe :
  cachePath (serving notFound) "/cache" localSong songUrl = "/cache/abc.mp3"
  /\ (cacheValid (fileSize "/cache/abc.mp3" (localAndCached 5000))
        (file_size localSong) = true
      /\ getTrack (serving notFound) "/cache" localSong (localAndCached 5000)
         = (Some "/music/song.mp3", localAndCached 5000))
  /\ (cacheValid (fileSize "/cache/abc.mp3" (localAndCached 10))
        (file_size localSong) = false
      /\ getTrack (serving notFound) "/cache" localSong (localAndCached 10)
         = (Some "/music/song.mp3", localAndCached 10)
      /\ exists_ "/cache/abc.mp3" (localAndCached 10) = true).
Proof. vm_compute. repeat split. Qed.

(** C1, as the code has it.  Let the location of the track, as
    [getTrackLocation] gives it, be an [http://] or [https://] URL other
    than the cache path, and let a file sit at the cache path.  Then
    [getTrack] hands out the cache path and leaves the disk and the network
    alone if and only if the file is larger than 1000 bytes and the expected
    size is unknown (at most 0) or equal to the size of the file.  In every
    other case the probe deletes the file and goes on as if there had been
    none: probing again finds nothing, and [getTrack] behaves as on the disk
    without the file. *)
Theorem cache_reuse_law (env : Env) (m_cacheDir : string) (index : Row)
    (w : Host) (url : string) (content : QByteArray) :
  getTrackLocation index w = url ->
  isRemote url = true ->
  let localPath := cachePath env m_cacheDir index url in
  localPath <> url ->
  files w !! localPath = Some content ->
  let valid := cacheValid (size content) (file_size index) in
  (getTrack env m_cacheDir index w = (Some localPath, w) <-> valid = true)
  /\ (valid = false ->
      probeCache localPath url (file_size index) w = (url, remove localPath w)
      /\ files (remove localPath w) !! localPath = None
      /\ probeCache localPath url (file_size index) (remove localPath w)
         = (url, remove localPath w)
      /\ getTrack env m_cacheDir index w
         = getTrack env m_cacheDir index (remove localPath w)).
Proof.
  intros Hloc Hremote localPath Hne Hfile valid.
  assert (Hnonempty : isEmpty url = false).
  { destruct url; [discriminate Hremote | reflexivity]. }
  assert (Hprobe : probeCache localPath url (file_size index) w
                   = if valid then (localPath, w) else (url, remove localPath w)).
  { unfold probeCache, exists_, fileSize. rewrite !Hfile. reflexivity. }
  assert (Hgone : files (remove localPath w) !! localPath = None).
  { apply lookup_delete_eq. }
  assert (Hprobe' : probeCache localPath url (file_size index) (remove localPath w)
                    = (url, remove localPath w)).
  { unfold probeCache, exists_. rewrite Hgone. reflexivity. }
  assert (Hloc' : getTrackLocation index (remove localPath w) = url).
  { rewrite getTrackLocation_remove; [exact Hloc | congruence]. }
  assert (Hneq : String.eqb url localPath = false).
  { apply String.eqb_neq. congruence. }
  assert (Hget : getTrack env m_cacheDir index w =
                 if valid then (Some localPath, w)
                 else getTrack env m_cacheDir index (remove localPath w)).
  { unfold getTrack at 1. rewrite Hloc, Hnonempty, Hremote. fold localPath.
    rewrite Hprobe. destruct valid.
    - rewrite String.eqb_refl. reflexivity.
    - unfold getTrack. rewrite Hloc', Hnonempty, Hremote. fold localPath.
      rewrite Hprobe'. reflexivity. }
  split.
  - rewrite Hget. destruct valid; [tauto|]. split; [|discriminate].
    intros Heq. exfalso.
    unfold getTrack in Heq. rewrite Hloc', Hnonempty, Hremote in Heq.
    fold localPath in Heq. rewrite Hprobe', Hneq in Heq. cbn [negb] in Heq.
    destruct ((5 <? Z.of_nat (String.length (local_path index)))
              && isFile (local_path index) (remove localPath w)).
    + injection Heq as _ Hw. rewrite <- Hw in Hfile. congruence.
    + pose proof (downloadTrackSync_requested env url localPath (file_size index)
                    (remove localPath w)) as Hreq.
      destruct (downloadTrackSync env url localPath (file_size index)
                  (remove localPath w)) as [path w2].
      cbn [snd] in Hreq.
      assert (Hw : w2 = w) by (destruct (negb (isEmpty path)); congruence).
      rewrite Hw in Hreq. cbn [remove requested] in Hreq.
      apply (f_equal (@List.length string)) in Hreq.
      rewrite List.length_app in Hreq. cbn in Hreq. lia.
  - intros Hv. rewrite Hget, Hprobe, Hv. auto.
Qed.


Lemma cache_reuse_law_witness :
  getTrack (serving notFound) "/cache" song cachedDisk
  = (Some "/cache/abc.mp3", cachedDisk).
Proof.
  assert (H1 : getTrackLocation song cachedDisk = songUrl) by reflexivity.
  assert (H2 : isRemote songUrl = true) by reflexivity.
  assert (H3 : cachePath (serving notFound) "/cache" song songUrl <> songUrl)
    by (vm_compute; discriminate).
  assert (H4 : files cachedDisk !! cachePath (serving notFound) "/cache" song songUrl
               = Some (audio 5000)) by (vm_compute; reflexivity).
  destruct (cache_reuse_law (serving notFound) "/cache" song cachedDisk songUrl
              (audio 5000) H1 H2 H3 H4) as [[_ Hreuse] _].
  apply Hreuse. vm_compute. reflexivity.
Defined.

(** *** The download *)

(** On a disk that stores what it is given, the write phase returns the
    destination path and the file holds the body. *)
Lemma writeFile_stores (env : Env) (destPath : string) (data : QByteArray)
    (w : Host) :
  storage env destPath data = Written (size data) data ->
  writeFile env destPath data w = (destPath, store destPath data w).
Proof.
  intros H. unfold writeFile. rewrite H, Z.eqb_refl. cbn [negb].
  unfold fileSize, store. cbn [files]. rewrite lookup_insert_eq.
  fold (size data). rewrite Z.eqb_refl. reflexivity.
Qed.

Section Download.

(** One call [downloadTrackSync(url, destPath, expectedSize)] on host [w];
    [rejected] is its outcome when a check turns the reply down: no path,
    and the host as the GET left it. *)
Variables (env : Env) (url destPath : string) (expectedSize : Z) (w : Host).

Let outcome : string * Host := downloadTrackSync env url destPath expectedSize w.
Let rejected : string * Host := ("", get url w).

(** Decides the first [if] of a chain of checks. *)
Local Ltac decide_checks :=
  repeat (match goal with |- context [if ?b then _ else _] => destruct b end).

(** C7. A reply whose HTTP status is not 200, and a reply whose content
    type says [text/html], make [downloadTrackSync] return the empty path
    after its one GET; the files on disk are those from before. *)
Theorem http_error_and_content_type_gate :
  statusCode (download env url) <> 200
  \/ containsCI (contentType (download env url)) "text/html" = true ->
  outcome = rejected /\ files (snd outcome) = files w.
Proof.
  intros H. assert (E : outcome = rejected).
  { unfold outcome, rejected, downloadTrackSync.
    destruct (finishedInTime (download env url)); [|reflexivity].
    destruct (failed (download env url)); [reflexivity|]. cbn [negb].
    destruct (Z.eqb_spec (statusCode (download env url)) 200) as [E|E];
      [|reflexivity]. cbn [negb].
    destruct H as [H|H]; [contradiction | rewrite H; reflexivity]. }
  rewrite E. split; reflexivity.
Qed.

(** C9. A reply with an empty body makes [downloadTrackSync] return the
    empty path and write nothing, also when neither a Content-Length nor an
    expected size is known; so a path is only ever returned for a body of at
    least one byte. *)
Theorem empty_body_rejected :
  (payload (download env url) = [] ->
   outcome = rejected /\ files (snd outcome) = files w)
  /\ (fst outcome <> "" -> 0 < size (payload (download env url))).
Proof.
  split.
  - intros H. assert (E : outcome = rejected).
    { unfold outcome, rejected, downloadTrackSync. rewrite H.
      change (size [] =? 0) with true. decide_checks; reflexivity. }
    rewrite E. split; reflexivity.
  - unfold outcome, downloadTrackSync. intros H.
    destruct (Z.eqb_spec (size (payload (download env url))) 0) as [E|E].
    + exfalso. apply H. decide_checks; reflexivity.
    + unfold size in *. lia.
Qed.

(** C5. Take a reply that is complete, has status 200 and is not HTML,
    with a body below 2^45 bytes (the size of a [QByteArray] is an [int] in
    Qt 5) and with a Content-Length or an expected size that is known, that
    is, positive.  If the body has at least 99% of every known size,
    [downloadTrackSync] goes on to write it, an exact match not being
    needed; if the body has less than 99% of one known size, it returns the
    empty path and writes nothing. *)
Theorem download_size_tolerance (reply : Reply) :
  download env url = reply ->
  finishedInTime reply = true ->
  failed reply = false ->
  statusCode reply = 200 ->
  containsCI (contentType reply) "text/html" = false ->
  size (payload reply) < 2 ^ 45 ->
  contentLength reply <= qint64_max ->
  expectedSize <= qint64_max ->
  0 < contentLength reply \/ 0 < expectedSize ->
  ((0 < contentLength reply -> 99 * contentLength reply <= 100 * size (payload reply))
   /\ (0 < expectedSize -> 99 * expectedSize <= 100 * size (payload reply)) ->
   outcome = writeFile env destPath (payload reply) (get url w))
  /\ ((0 < contentLength reply
       /\ 100 * size (payload reply) < 99 * contentLength reply)
      \/ (0 < expectedSize /\ 100 * size (payload reply) < 99 * expectedSize) ->
      outcome = rejected).
Proof.
  intros Hreply Hdone Hok Hstatus Hhtml Hsize Hcl Hex Hknown.
  unfold outcome, rejected, downloadTrackSync.
  rewrite Hreply, Hdone, Hok, Hstatus, Hhtml.
  cbn [negb Z.eqb Pos.eqb].
  set (n := size (payload reply)) in *.
  assert (Hn : 0 <= n) by (unfold n, size; lia).
  assert (Hcheck : forall total, total <= qint64_max ->
            (0 <? total) && negb (n =? total) && belowTolerance n total
            = (0 <? total) && (100 * n <? 99 * total)).
  { intros total Ht. destruct (Z.ltb_spec 0 total) as [Hpos|Hneg]; [|reflexivity].
    cbn [andb]. rewrite Binary64Facts.belowTolerance_exact.
    - destruct (Z.eqb_spec n total) as [->|Hne]; [|reflexivity].
      cbn [negb andb]. symmetry. apply Z.ltb_ge. lia.
    - lia.
    - unfold qint64_max in Ht. change (2 ^ 63) with 9223372036854775808 in *. lia. }
  rewrite (Hcheck _ Hcl), (Hcheck _ Hex).
  split.
  - intros [Hc He].
    assert (Hn0 : (n =? 0) = false) by (apply Z.eqb_neq; lia).
    rewrite Hn0.
    replace ((0 <? contentLength reply) && (100 * n <? 99 * contentLength reply))
      with false.
    2:{ symmetry. destruct (Z.ltb_spec 0 (contentLength reply)); [|reflexivity].
        cbn [andb]. apply Z.ltb_ge. auto. }
    replace ((0 <? expectedSize) && (100 * n <? 99 * expectedSize)) with false.
    2:{ symmetry. destruct (Z.ltb_spec 0 expectedSize); [|reflexivity].
        cbn [andb]. apply Z.ltb_ge. auto. }
    reflexivity.
  - intros Hshort. destruct (n =? 0); [reflexivity|].
    destruct Hshort as [[Hp Hlt]|[Hp Hlt]].
    + apply Z.ltb_lt in Hp, Hlt. rewrite Hp, Hlt. reflexivity.
    + apply Z.ltb_lt in Hp, Hlt. rewrite Hp, Hlt. cbn [andb].
      destruct ((0 <? contentLength reply) && (100 * n <? 99 * contentLength reply));
        reflexivity.
Qed.

End Download.

Lemma http_error_and_content_type_gate_witness :
  downloadTrackSync (serving notFound) songUrl "/cache/abc.mp3" 5000 emptyDisk
  = ("", get songUrl emptyDisk)
  /\ files (snd (downloadTrackSync (serving notFound) songUrl "/cache/abc.mp3"
                   5000 emptyDisk))
     = files emptyDisk.
Proof.
  apply http_error_and_content_type_gate. left. vm_compute. discriminate.
Defined.

Lemma empty_body_rejected_witness :
  downloadTrackSync (serving emptyAnswer) songUrl "/cache/abc.mp3" 0 emptyDisk
  = ("", get songUrl emptyDisk).
Proof.
  exact (proj1 (proj1 (empty_body_rejected (serving emptyAnswer) songUrl
                         "/cache/abc.mp3" 0 emptyDisk) eq_refl)).
Defined.

Lemma download_size_tolerance_witness :
  downloadTrackSync (serving slightlyShort) songUrl "/cache/abc.mp3" 5000 emptyDisk
  = writeFile (serving slightlyShort) "/cache/abc.mp3" (audio 4960)
      (get songUrl emptyDisk).
Proof.
  assert (Hsize : size (payload slightlyShort) < 2 ^ 45) by (vm_compute; reflexivity).
  assert (Hcl : contentLength slightlyShort <= qint64_max)
    by (vm_compute; discriminate).
  assert (Hex : 5000 <= qint64_max) by (vm_compute; discriminate).
  assert (Hknown : 0 < contentLength slightlyShort \/ 0 < 5000)
    by (left; vm_compute; reflexivity).
  destruct (download_size_tolerance (serving slightlyShort) songUrl "/cache/abc.mp3"
              5000 emptyDisk slightlyShort eq_refl eq_refl eq_refl eq_refl eq_refl
              Hsize Hcl Hex Hknown) as [Hwrite _].
  apply Hwrite. split; intros _; vm_compute; discriminate.
Defined.

(** *** The extension and the name of the cache file, again *)

Import QtFacts.

Lemma extensionOf_known (name ext : string) :
  extensionOf name = Some ext -> knownExtension ext = true.
Proof.
  unfold extensionOf. destruct (0 <? lastIndexOf "." name); [|discriminate].
  destruct (knownExtension _) eqn:E; [|discriminate]. intros [= <-]. exact E.
Qed.

Lemma getFileExtension_cases (env : Env) (trackName url : string) :
  knownExtension (getFileExtension env trackName url) = true.
Proof.
  unfold getFileExtension.
  destruct (if negb (isEmpty trackName) then extensionOf trackName else None)
    as [ext|] eqn:E.
  - destruct (negb (isEmpty trackName)); [|discriminate].
    apply (extensionOf_known _ _ E).
  - destruct (extensionOf (urlPath env url)) as [ext|] eqn:E'; [|reflexivity].
    apply (extensionOf_known _ _ E').
Qed.

(** X15.  Whatever the name of the track and its URL, [getFileExtension]
    answers with one of the eight extensions it knows, in lower case: an
    extension of the name or of the URL that it does not know is never
    passed on, [.mp3] is given instead. *)
Theorem getFileExtension_known (env : Env) (trackName url : string) :
  knownExtension (getFileExtension env trackName url) = true
  /\ (extensionOf trackName = None -> extensionOf (urlPath env url) = None ->
      getFileExtension env trackName url = ".mp3").
Proof.
  split; [apply getFileExtension_cases|].
  intros Hn Hu. unfold getFileExtension. rewrite Hn, Hu.
  destruct (negb (isEmpty trackName)); reflexivity.
Qed.

Lemma getFileExtension_known_witness :
  getFileExtension (serving notFound) "song.xyz" "http://tfm/files/abc.bin" = ".mp3".
Proof.
  apply (proj2 (getFileExtension_known (serving notFound) "song.xyz"
                  "http://tfm/files/abc.bin")); reflexivity.
Defined.

Lemma knownExtension_noSeparator (ext : string) :
  knownExtension ext = true -> noSeparator ext = true.
Proof.
  unfold knownExtension. rewrite !orb_true_iff, !String.eqb_eq.
  intros [[[[[[[->| ->]| ->]| ->]| ->]| ->]| ->]| ->]; reflexivity.
Qed.

Lemma sanitize_noSeparator (externalId : string) :
  noSeparator (sanitize externalId) = true.
Proof.
  unfold noSeparator, sanitize.
  induction externalId as [|c s IH]; [reflexivity|].
  cbn [replace allChars]. rewrite IH, andb_true_r. unfold isSeparator.
  destruct (Ascii.eqb c "/") eqn:E1; [reflexivity|].
  destruct (Ascii.eqb c "\") eqn:E2; [reflexivity|].
  destruct (Ascii.eqb c ":") eqn:E3; [reflexivity|].
  rewrite E1, E2, E3. reflexivity.
Qed.

(** X16.  The cache file of a track lies in the cache directory itself: its
    name, which follows the directory and a slash, has no slash, backslash
    or colon, whatever the external id of the track is. *)
Theorem cache_file_stays_in_cache_dir (env : Env) (m_cacheDir : string)
    (index : Row) (location : string) :
  exists fileName : string,
    cachePath env m_cacheDir index location = m_cacheDir +:+ "/" +:+ fileName
    /\ noSeparator fileName = true.
Proof.
  eexists. split; [reflexivity|]. unfold cacheFileName.
  set (externalId := if isEmpty (external_id index) then id index else external_id index).
  set (fileExt := getFileExtension env _ location).
  assert (Hext : noSeparator fileExt = true)
    by apply knownExtension_noSeparator, getFileExtension_cases.
  pose proof (sanitize_noSeparator externalId) as Hid.
  unfold noSeparator in *. rewrite allChars_app, Hext, andb_true_r.
  destruct (endsWithCI (sanitize externalId) fileExt); [|exact Hid].
  apply allChars_substring, Hid.
Qed.

(** *** What a download leaves on disk *)

Lemma writeFile_outcome (env : Env) (destPath : string) (data : QByteArray)
    (w : Host) :
  let r := writeFile env destPath data w in
  (forall q, q <> destPath -> files (snd r) !! q = files w !! q)
  /\ ((fst r = destPath /\ exists_ destPath (snd r) = true
       /\ fileSize destPath (snd r) = size data)
      \/ (fst r = ""
          /\ (files (snd r) !! destPath = files w !! destPath
              \/ files (snd r) !! destPath = None))).
Proof.
  cbv zeta. unfold writeFile.
  destruct (storage env destPath data) as [|written stored];
    [split; [reflexivity|right; split; [reflexivity|left; reflexivity]]|].
  destruct (written =? size data) eqn:E1; cbn [negb].
  - destruct (fileSize destPath (store destPath stored w) =? size data) eqn:E2;
      cbn [negb fst snd].
    + split.
      * intros q Hq. unfold store. cbn [files]. apply lookup_insert_ne. congruence.
      * left. split; [reflexivity|]. split; [|apply Z.eqb_eq, E2].
        unfold exists_, store. cbn [files]. rewrite lookup_insert_eq. reflexivity.
    + split.
      * intros q Hq. unfold remove, store. cbn [files].
        rewrite lookup_delete_ne, lookup_insert_ne by congruence. reflexivity.
      * right. split; [reflexivity|]. right. unfold remove. cbn [files].
        apply lookup_delete_eq.
  - cbn [fst snd]. split.
    + intros q Hq. unfold remove, store. cbn [files].
      rewrite lookup_delete_ne, lookup_insert_ne by congruence. reflexivity.
    + right. split; [reflexivity|]. right. unfold remove. cbn [files].
      apply lookup_delete_eq.
Qed.

Lemma downloadTrackSync_outcome (env : Env) (url destPath : string)
    (expectedSize : Z) (w : Host) :
  let r := downloadTrackSync env url destPath expectedSize w in
  (forall q, q <> destPath -> files (snd r) !! q = files w !! q)
  /\ ((fst r = destPath /\ exists_ destPath (snd r) = true
       /\ fileSize destPath (snd r) = size (payload (download env url)))
      \/ (fst r = ""
          /\ (files (snd r) !! destPath = files w !! destPath
              \/ files (snd r) !! destPath = None))).
Proof.
  cbv zeta. unfold downloadTrackSync.
  repeat (match goal with |- context [if ?b then _ else _] => destruct b end);
    try (split; [reflexivity|right; split; [reflexivity|left; reflexivity]]).
  apply (writeFile_outcome env destPath (payload (download env url)) (get url w)).
Qed.

(** X17.  A download changes no file but its destination.  When it returns a
    path, that is the destination, and the file there has as many bytes as
    the body of the reply; when it returns none, the destination is as it
    was or, after a write that failed, gone: no partial file is left. *)
Theorem download_touches_only_destination (env : Env) (url destPath : string)
    (expectedSize : Z) (w : Host) :
  destPath <> "" ->
  let r := downloadTrackSync env url destPath expectedSize w in
  (forall q, q <> destPath -> files (snd r) !! q = files w !! q)
  /\ (if isEmpty (fst r)
      then files (snd r) !! destPath = files w !! destPath
           \/ files (snd r) !! destPath = None
      else fst r = destPath
           /\ exists_ destPath (snd r) = true
           /\ fileSize destPath (snd r) = size (payload (download env url))).
Proof.
  intros Hd. cbv zeta.
  destruct (downloadTrackSync_outcome env url destPath expectedSize w)
    as [Hframe [(Hp & He & Hs)|(Hp & Hf)]];
    (split; [exact Hframe|]); rewrite Hp.
  - destruct destPath; [congruence|]. cbn [isEmpty]. auto.
  - exact Hf.
Qed.

Lemma download_touches_only_destination_witness :
  let r := downloadTrackSync (serving slightlyShort) songUrl "/cache/abc.mp3" 5000
             emptyDisk in
  (forall q, q <> "/cache/abc.mp3" -> files (snd r) !! q = files emptyDisk !! q)
  /\ (if isEmpty (fst r)
      then files (snd r) !! "/cache/abc.mp3" = files emptyDisk !! "/cache/abc.mp3"
           \/ files (snd r) !! "/cache/abc.mp3" = None
      else fst r = "/cache/abc.mp3"
           /\ exists_ "/cache/abc.mp3" (snd r) = true
           /\ fileSize "/cache/abc.mp3" (snd r)
              = size (payload (download (serving slightlyShort) songUrl))).
Proof.
  apply (download_touches_only_destination (serving slightlyShort) songUrl
           "/cache/abc.mp3" 5000 emptyDisk).
  discriminate.
Defined.

(** X18.  The probe of the cache after a download that returned a path.  The
    file is kept when it has more than 1000 bytes and the expected size is
    unknown or is its size; otherwise the probe deletes it, although the
    download accepted it: this is so for a body of at most 1000 bytes and
    for a body within the tolerance of 1 % but not of the expected size. *)
Theorem download_then_probe (env : Env) (url destPath : string)
    (expectedSize : Z) (w : Host) :
  let r := downloadTrackSync env url destPath expectedSize w in
  fst r <> "" ->
  probeCache destPath url expectedSize (snd r)
  = if cacheValid (size (payload (download env url))) expectedSize
    then (destPath, snd r)
    else (url, remove destPath (snd r)).
Proof.
  cbv zeta. intros Hp.
  destruct (downloadTrackSync_outcome env url destPath expectedSize w)
    as [_ [(_ & He & Hs)|(Hp' & _)]]; [|congruence].
  unfold probeCache, cacheValid. rewrite He, Hs. reflexivity.
Qed.

Lemma download_then_probe_witness :
  let r := downloadTrackSync (serving slightlyShort) songUrl "/cache/abc.mp3" 5000
             emptyDisk in
  probeCache "/cache/abc.mp3" songUrl 5000 (snd r)
  = if cacheValid (size (payload (download (serving slightlyShort) songUrl))) 5000
    then ("/cache/abc.mp3", snd r)
    else (songUrl, remove "/cache/abc.mp3" (snd r)).
Proof.
  apply (download_then_probe (serving slightlyShort) songUrl "/cache/abc.mp3" 5000
           emptyDisk).
  vm_compute. discriminate.
Defined.

(** *** What [getTrack] touches *)

Lemma probeCache_frame (localPath location : string) (expectedSize : Z) (w : Host) :
  let r := probeCache localPath location expectedSize w in
  requested (snd r) = requested w
  /\ (snd r = w \/ snd r = remove localPath w)
  /\ forall q, q <> localPath -> files (snd r) !! q = files w !! q.
Proof.
  cbv zeta. unfold probeCache.
  repeat (match goal with |- context [if ?b then _ else _] => destruct b end);
    cbn [snd remove files requested]; repeat split; auto.
  intros q Hq. apply lookup_delete_ne. congruence.
Qed.

(** X19.  [getTrack] changes no file but the cache file of the track, and asks
    the network at most once, for the location of the track. *)
Theorem getTrack_footprint (env : Env) (m_cacheDir : string) (index : Row)
    (w : Host) :
  let location := getTrackLocation index w in
  let r := getTrack env m_cacheDir index w in
  (forall q, q <> cachePath env m_cacheDir index location ->
             files (snd r) !! q = files w !! q)
  /\ (requested (snd r) = requested w
      \/ requested (snd r) = requested w ++ [location]).
Proof.
  cbv zeta. unfold getTrack.
  set (location := getTrackLocation index w).
  set (localPath := cachePath env m_cacheDir index location).
  destruct (isEmpty location); [cbn [snd]; auto|].
  destruct (isRemote location); [|cbn [snd]; auto].
  pose proof (probeCache_frame localPath location (file_size index) w) as Hprobe.
  destruct (probeCache localPath location (file_size index) w) as [location' wp] eqn:Ep.
  cbv zeta in Hprobe. cbn [snd] in Hprobe. destruct Hprobe as (Hreq & Hwp & Hframe).
  destruct (negb (String.eqb location' localPath)) eqn:Ene;
    [|cbn [snd]; rewrite Hreq; auto].
  destruct ((5 <? Z.of_nat (String.length (local_path index)))
            && isFile (local_path index) wp);
    [cbn [snd]; rewrite Hreq; auto|].
  assert (Hloc : location' = location).
  { unfold probeCache in Ep.
    destruct (exists_ localPath w); [|congruence].
    destruct (_ && _) in Ep; [|congruence].
    injection Ep as <- _. rewrite String.eqb_refl in Ene. discriminate. }
  rewrite Hloc.
  pose proof (downloadTrackSync_outcome env location localPath (file_size index) wp)
    as [Hd _].
  pose proof (downloadTrackSync_requested env location localPath (file_size index) wp)
    as Hr.
  destruct (downloadTrackSync env location localPath (file_size index) wp)
    as [downloadedPath w'].
  cbn [snd] in Hd, Hr.
  assert (Hgoal : (forall q, q <> localPath -> files w' !! q = files w !! q)
                  /\ (requested w' = requested w
                      \/ requested w' = requested w ++ [location])).
  { split; [|right; rewrite Hr, Hreq; reflexivity].
    intros q Hq. rewrite (Hd q Hq). apply Hframe, Hq. }
  destruct (negb (isEmpty downloadedPath)); exact Hgoal.
Qed.

(** *** What [getTrack] hands out *)

(** The run of [getTrack] on a remote track, step by step. *)
Lemma getTrack_remote (env : Env) (m_cacheDir : string) (index : Row) (w : Host) :
  let location := getTrackLocation index w in
  let localPath := cachePath env m_cacheDir index location in
  let expectedSize := file_size index in
  isEmpty location = false -> isRemote location = true -> location <> localPath ->
  (exists_ localPath w = true
   /\ cacheValid (fileSize localPath w) expectedSize = true
   /\ getTrack env m_cacheDir index w = (Some localPath, w))
  \/ (exists wp : Host,
        (wp = w \/ wp = remove localPath w)
        /\ exists_ localPath wp = false
        /\ let stored := local_path index in
           if (5 <? Z.of_nat (String.length stored)) && isFile stored wp
           then getTrack env m_cacheDir index w = (Some stored, wp)
           else
             let d := downloadTrackSync env location localPath expectedSize wp in
             getTrack env m_cacheDir index w
             = (if negb (isEmpty (fst d)) then Some (fst d) else None, snd d)).
Proof.
  cbv zeta. intros Hne Hrem Hdiff. unfold getTrack. rewrite Hne, Hrem.
  set (location := getTrackLocation index w) in *.
  set (localPath := cachePath env m_cacheDir index location) in *.
  assert (Heqb : String.eqb location localPath = false)
    by (apply String.eqb_neq; exact Hdiff).
  unfold probeCache. fold (cacheValid (fileSize localPath w) (file_size index)).
  destruct (exists_ localPath w) eqn:Hex.
  - destruct (cacheValid (fileSize localPath w) (file_size index)) eqn:Hv.
    + left. rewrite String.eqb_refl. cbn [negb]. auto.
    + right. exists (remove localPath w). rewrite Heqb. cbn [negb].
      split; [auto|]. split.
      { unfold exists_, remove. cbn [files]. rewrite lookup_delete_eq. reflexivity. }
      destruct (_ && _); [reflexivity|].
      destruct (downloadTrackSync env location localPath (file_size index)
                  (remove localPath w)) as [d w']. cbn [fst snd].
      destruct (negb (isEmpty d)); reflexivity.
  - right. exists w. rewrite Heqb. cbn [negb]. split; [auto|]. split; [exact Hex|].
    destruct (_ && _); [reflexivity|].
    destruct (downloadTrackSync env location localPath (file_size index) w)
      as [d w']. cbn [fst snd].
    destruct (negb (isEmpty d)); reflexivity.
Qed.

Lemma getTrackLocation_cases (index : Row) (w : Host) :
  let location := getTrackLocation index w in
  location = ""
  \/ (location = local_path index /\ isFile location w = true)
  \/ startsWith location "http" = true.
Proof.
  cbv zeta. unfold getTrackLocation.
  destruct ((5 <? Z.of_nat (String.length (local_path index)))
            && isFile (local_path index) w) eqn:E1.
  - right. left. apply andb_true_iff in E1 as [_ E1]. auto.
  - destruct (negb (isEmpty (file_url index)) && startsWith (file_url index) "http")
      eqn:E2.
    + right. right. apply andb_true_iff in E2 as [_ E2]. exact E2.
    + destruct (negb (isEmpty (location index)) && startsWith (location index) "http")
        eqn:E3; [|left; reflexivity].
      right. right. apply andb_true_iff in E3 as [_ E3]. exact E3.
Qed.

(** X20.  What [getTrack] hands to the track collection is a file on disk,
    with one exception: a location that starts with [http] without being
    an [http://] or [https://] URL is handed over as it is. *)
Theorem getTrack_hands_out_a_file (env : Env) (m_cacheDir : string)
    (index : Row) (w : Host) (path : string) (w' : Host) :
  let location := getTrackLocation index w in
  location <> cachePath env m_cacheDir index location ->
  getTrack env m_cacheDir index w = (Some path, w') ->
  isFile path w' = true
  \/ (path = location /\ startsWith path "http" = true /\ isRemote path = false).
Proof.
  cbv zeta. intros Hdiff Hget.
  destruct (isEmpty (getTrackLocation index w)) eqn:Hne.
  { unfold getTrack in Hget. rewrite Hne in Hget. discriminate. }
  destruct (isRemote (getTrackLocation index w)) eqn:Hrem.
  - left.
    destruct (getTrack_remote env m_cacheDir index w Hne Hrem Hdiff)
      as [(Hex & _ & Hg)|(wp & _ & _ & Hg)].
    + rewrite Hg in Hget. injection Hget as <- <-. exact Hex.
    + cbv zeta in Hg.
      destruct ((5 <? Z.of_nat (String.length (local_path index)))
                && isFile (local_path index) wp) eqn:Hst.
      * rewrite Hg in Hget. injection Hget as <- <-.
        apply andb_true_iff in Hst as [_ Hst]. exact Hst.
      * rewrite Hg in Hget.
        destruct (downloadTrackSync_outcome env (getTrackLocation index w)
                    (cachePath env m_cacheDir index (getTrackLocation index w))
                    (file_size index) wp) as [_ [(Hp & He & _)|(Hp & _)]].
        -- destruct (negb (isEmpty _)); [|discriminate].
           injection Hget as <- <-. rewrite Hp. exact He.
        -- rewrite Hp in Hget. discriminate.
  - unfold getTrack in Hget. rewrite Hne, Hrem in Hget. injection Hget as <- <-.
    destruct (getTrackLocation_cases index w) as [H|[[_ H]|H]].
    + rewrite H in Hne. discriminate.
    + left. exact H.
    + right. auto.
Qed.

Lemma getTrack_hands_out_a_file_witness :
  isFile "/cache/abc.mp3" cachedDisk = true
  \/ ("/cache/abc.mp3" = getTrackLocation song cachedDisk
      /\ startsWith "/cache/abc.mp3" "http" = true
      /\ isRemote "/cache/abc.mp3" = false).
Proof.
  apply (getTrack_hands_out_a_file (serving notFound) "/cache" song cachedDisk
           "/cache/abc.mp3" cachedDisk).
  - vm_compute. discriminate.
  - vm_compute. reflexivity.
Defined.

(** *** Loading a track a second time *)

Lemma getTrackLocation_frame (index : Row) (w w' : Host) :
  files w' !! local_path index = files w !! local_path index ->
  getTrackLocation index w' = getTrackLocation index w.
Proof.
  intros H. unfold getTrackLocation, isFile, exists_. rewrite H. reflexivity.
Qed.

(** X21.  A track that [getTrack] has just downloaded is loaded again.  If the
    size of the body passes the validity test of the cache, the second call
    answers from the cache: the same path, no request, nothing changed.  If
    it does not (at most 1000 bytes, or not the expected size although
    within the tolerance of the download), the second call deletes the file
    and downloads it again. *)
Theorem reload_after_download (env : Env) (m_cacheDir : string) (index : Row)
    (w w1 : Host) (path : string) :
  let location := getTrackLocation index w in
  let localPath := cachePath env m_cacheDir index location in
  getTrack env m_cacheDir index w = (Some path, w1) ->
  requested w1 <> requested w ->
  location <> localPath ->
  local_path index <> localPath ->
  if cacheValid (size (payload (download env location))) (file_size index)
  then getTrack env m_cacheDir index w1 = (Some path, w1)
  else requested (snd (getTrack env m_cacheDir index w1))
       = requested w1 ++ [location].
Proof.
  cbv zeta. intros Hget Hreq Hdiff Hstored.
  set (location := getTrackLocation index w) in *.
  set (localPath := cachePath env m_cacheDir index location) in *.
  destruct (isEmpty location) eqn:Hne.
  { unfold getTrack in Hget. fold location in Hget. rewrite Hne in Hget. discriminate. }
  destruct (isRemote location) eqn:Hrem.
  2:{ unfold getTrack in Hget. fold location in Hget. rewrite Hne, Hrem in Hget.
      injection Hget as _ <-. congruence. }
  destruct (getTrack_remote env m_cacheDir index w Hne Hrem Hdiff)
    as [(_ & _ & Hg)|(wp & Hwp & Hexp & Hg)].
  { fold location localPath in Hg. rewrite Hg in Hget. injection Hget as _ <-.
    congruence. }
  cbv zeta in Hg. fold location localPath in Hg, Hwp, Hexp.
  assert (Hwpreq : requested wp = requested w) by (destruct Hwp as [->| ->]; reflexivity).
  assert (Hwpfiles : forall q, q <> localPath -> files wp !! q = files w !! q).
  { intros q Hq. destruct Hwp as [->| ->]; [reflexivity|].
    unfold remove. cbn [files]. apply lookup_delete_ne. congruence. }
  destruct ((5 <? Z.of_nat (String.length (local_path index)))
            && isFile (local_path index) wp) eqn:Hst.
  { rewrite Hg in Hget. injection Hget as _ <-. congruence. }
  rewrite Hg in Hget.
  destruct (downloadTrackSync_outcome env location localPath (file_size index) wp)
    as [Hframe [(Hp & He & Hs)|(Hp & _)]];
    [|rewrite Hp in Hget; discriminate].
  assert (Hpath : path = localPath /\ w1 = snd (downloadTrackSync env location localPath
                                                  (file_size index) wp)).
  { destruct (negb (isEmpty _)) in Hget; [|discriminate].
    injection Hget as <- <-. auto. }
  destruct Hpath as [-> Hw1]. rewrite <- Hw1 in Hframe, He, Hs. clear Hg Hget Hp.
  (* the location of the track is the same on the new disk *)
  assert (Hloc1 : getTrackLocation index w1 = location).
  { apply getTrackLocation_frame.
    rewrite (Hframe _ Hstored). apply Hwpfiles, Hstored. }
  assert (Hst1 : forall w2, files w2 !! local_path index = files w1 !! local_path index ->
                 (5 <? Z.of_nat (String.length (local_path index)))
                 && isFile (local_path index) w2 = false).
  { intros w2 H2. rewrite <- Hst. unfold isFile, exists_.
    rewrite H2, (Hframe _ Hstored). reflexivity. }
  unfold getTrack. rewrite Hloc1. fold localPath. rewrite Hne, Hrem.
  unfold probeCache. rewrite He, Hs.
  fold (cacheValid (size (payload (download env location))) (file_size index)).
  destruct (cacheValid (size (payload (download env location))) (file_size index)).
  - rewrite String.eqb_refl. reflexivity.
  - assert (Heqb : String.eqb location localPath = false)
      by (apply String.eqb_neq; exact Hdiff).
    rewrite Heqb. cbn [negb].
    rewrite (Hst1 (remove localPath w1)).
    2:{ unfold remove. cbn [files]. apply lookup_delete_ne. congruence. }
    pose proof (downloadTrackSync_requested env location localPath (file_size index)
                  (remove localPath w1)) as Hr.
    destruct (downloadTrackSync env location localPath (file_size index)
                (remove localPath w1)) as [d w2].
    cbn [snd] in Hr. destruct (negb (isEmpty d)); exact Hr.
Qed.

Lemma reload_after_download_witness :
  let w1 := snd (getTrack (serving slightlyShort) "/cache" song emptyDisk) in
  if cacheValid (size (payload (download (serving slightlyShort)
                                  (getTrackLocation song emptyDisk))))
       (file_size song)
  then getTrack (serving slightlyShort) "/cache" song w1 = (Some "/cache/abc.mp3", w1)
  else requested (snd (getTrack (serving slightlyShort) "/cache" song w1))
       = requested w1 ++ [getTrackLocation song emptyDisk].
Proof.
  apply (reload_after_download (serving slightlyShort) "/cache" song emptyDisk
           (snd (getTrack (serving slightlyShort) "/cache" song emptyDisk))
           "/cache/abc.mp3").
  - vm_compute. reflexivity.
  - vm_compute. discriminate.
  - vm_compute. discriminate.
  - vm_compute. discriminate.
Defined.

End TrackModelFacts.

(* ===================================================================== *)
(** ** Facts about the URLs of the client *)
(* ===================================================================== *)

Module UrlFacts.
Import Qt ApiClient ApiClientFacts TrackModelFacts.
Local Open Scope api_scope.

(** *** The server URL *)

Lemma chopSlashes_rev_spec (r : list ascii) :
  exists n : nat,
    r = repeat "/"%char n ++ chopSlashes_rev r
    /\ match chopSlashes_rev r with
       | c :: _ => c <> "/"%char
       | [] => True
       end.
Proof.
  induction r as [|c r (n & Hr & Hc)]; [exists 0%nat; split; [reflexivity|exact I]|].
  cbn [chopSlashes_rev]. destruct (Ascii.eqb c "/") eqn:E.
  - apply Ascii.eqb_eq in E. subst c. exists (S n). split; [|exact Hc].
    cbn [repeat app]. f_equal. exact Hr.
  - exists 0%nat. split; [reflexivity|]. apply Ascii.eqb_neq. exact E.
Qed.

Lemma string_of_list_ascii_snoc (l : list ascii) (c : ascii) :
  string_of_list_ascii (l ++ [c]) = string_of_list_ascii l +:+ String c "".
Proof. induction l as [|d l IH]; [reflexivity|]. cbn. now rewrite IH. Qed.

Lemma rev_repeat {A} (x : A) (n : nat) : List.rev (repeat x n) = repeat x n.
Proof.
  induction n as [|n IH]; [reflexivity|]. cbn [repeat List.rev]. rewrite IH.
  clear IH. induction n as [|n IH]; [reflexivity|]. cbn. now rewrite IH.
Qed.

Lemma chopSlashes_spec (url : string) :
  endsWith (chopSlashes url) "/" = false
  /\ exists n : nat, url = chopSlashes url +:+ slashes n.
Proof.
  unfold chopSlashes.
  destruct (chopSlashes_rev_spec (List.rev (list_ascii_of_string url)))
    as (n & Hr & Hc).
  split.
  - destruct (chopSlashes_rev (List.rev (list_ascii_of_string url))) as [|c l];
      [reflexivity|].
    cbn [List.rev]. rewrite string_of_list_ascii_snoc.
    unfold endsWith.
    change (String.length "/") with (String.length (String c "")).
    rewrite right_app. apply andb_false_iff. right.
    cbn. apply Ascii.eqb_neq in Hc. rewrite Hc. reflexivity.
  - exists n. apply (f_equal (@List.rev ascii)) in Hr.
    rewrite List.rev_involutive, List.rev_app_distr, rev_repeat in Hr.
    apply (f_equal string_of_list_ascii) in Hr.
    rewrite string_of_list_ascii_of_string in Hr.
    etransitivity; [exact Hr|]. unfold slashes.
    generalize (List.rev (chopSlashes_rev (List.rev (list_ascii_of_string url)))).
    intros l. induction l as [|d l IH]; [reflexivity|].
    cbn. now rewrite IH.
Qed.

(** X11.  [setServerUrl] stores the URL without its trailing slashes, all of
    them and nothing else: the stored URL does not end with a slash, and
    the URL given is the stored one followed by slashes only. *)
Theorem server_url_is_normalised (url : string) (w : World) :
  let stored := m_serverUrl (exec (setServerUrl url) w) in
  endsWith stored "/" = false
  /\ exists n : nat, url = stored +:+ slashes n.
Proof. cbv zeta. cbn [exec setServerUrl snd m_serverUrl]. apply chopSlashes_spec. Qed.

Lemma chopSlashes_slashes (n : nat) : chopSlashes (slashes n) = "".
Proof.
  unfold chopSlashes, slashes.
  rewrite list_ascii_of_string_of_list_ascii, rev_repeat.
  induction n as [|n IH]; [reflexivity|exact IH].
Qed.

(** X27.  The feature counts as configured after [setServerUrl] unless the
    URL given is empty or made of slashes only. *)
Theorem only_slashes_is_unconfigured (url : string) (w : World) :
  Feature.isConfigured (exec (Feature.setServerUrl url) w) = false
  <-> exists n : nat, url = slashes n.
Proof.
  unfold Feature.isConfigured, Feature.setServerUrl.
  cbn [exec setServerUrl snd m_serverUrl]. split.
  - intros H. destruct (chopSlashes_spec url) as [_ [n Hn]]. exists n.
    destruct (chopSlashes url); [exact Hn|discriminate].
  - intros [n ->]. rewrite chopSlashes_slashes. reflexivity.
Qed.

(** *** The URL of a local file *)

Lemma nat_of_toHexUpper (n : nat) :
  (n < 16)%nat ->
  nat_of_ascii (toHexUpper n) = if (n <? 10)%nat then (48 + n)%nat else (55 + n)%nat.
Proof.
  intros Hn. unfold toHexUpper. apply nat_ascii_embedding.
  destruct (n <? 10)%nat; lia.
Qed.

Lemma toHexUpper_inj (a b : nat) :
  (a < 16)%nat -> (b < 16)%nat -> toHexUpper a = toHexUpper b -> a = b.
Proof.
  intros Ha Hb H. apply (f_equal nat_of_ascii) in H.
  rewrite !nat_of_toHexUpper in H by assumption.
  destruct (a <? 10)%nat eqn:Ea, (b <? 10)%nat eqn:Eb;
    try apply Nat.ltb_lt in Ea; try apply Nat.ltb_lt in Eb;
    try apply Nat.ltb_ge in Ea; try apply Nat.ltb_ge in Eb; lia.
Qed.

Lemma isUnreserved_percent : isUnreserved "%" = false.
Proof. reflexivity. Qed.

Lemma toPercentEncoding_inj (s : string) :
  forall t : string, toPercentEncoding s = toPercentEncoding t -> s = t.
Proof.
  induction s as [|c s IH]; intros [|d t] H; cbn [toPercentEncoding] in H.
  - reflexivity.
  - destruct (isUnreserved d); discriminate.
  - destruct (isUnreserved c); discriminate.
  - destruct (isUnreserved c) eqn:Ec, (isUnreserved d) eqn:Ed.
    + injection H as -> H. f_equal. apply IH, H.
    + injection H as -> _. rewrite isUnreserved_percent in Ec. discriminate.
    + injection H as <- _. rewrite isUnreserved_percent in Ed. discriminate.
    + injection H as Hhi Hlo H.
      change (toHexUpper (nat_of_ascii c / 16) = toHexUpper (nat_of_ascii d / 16))
        in Hhi.
      change (toHexUpper (nat_of_ascii c mod 16) = toHexUpper (nat_of_ascii d mod 16))
        in Hlo.
      pose proof (nat_ascii_bounded c) as Bc. pose proof (nat_ascii_bounded d) as Bd.
      apply toHexUpper_inj in Hhi;
        [|apply Nat.Div0.div_lt_upper_bound; lia..].
      apply toHexUpper_inj in Hlo; [|apply Nat.mod_upper_bound; lia..].
      assert (Hn : nat_of_ascii c = nat_of_ascii d).
      { rewrite (Nat.div_mod_eq (nat_of_ascii c) 16),
                (Nat.div_mod_eq (nat_of_ascii d) 16), Hhi, Hlo. reflexivity. }
      apply (f_equal ascii_of_nat) in Hn. rewrite !ascii_nat_embedding in Hn.
      subst d. f_equal. apply IH, H.
Qed.

Lemma append_inj_r (s a b : string) : s +:+ a = s +:+ b -> a = b.
Proof. induction s as [|c s IH]; cbn; [auto|]. intros H. injection H as H. auto. Qed.

(** X12.  Two local files never share a URL: [getLocalTrackUrl] gives
    different URLs for different paths. *)
Theorem local_track_urls_are_distinct (p q : string) (w : World) :
  p <> q -> getLocalTrackUrl p w <> getLocalTrackUrl q w.
Proof.
  intros Hne H. apply Hne. unfold getLocalTrackUrl in H.
  apply append_inj_r, append_inj_r in H.
  apply toPercentEncoding_inj, toPercentEncoding_inj in H. exact H.
Qed.

Lemma local_track_urls_are_distinct_witness :
  getLocalTrackUrl "/music/a b.mp3" configured
  <> getLocalTrackUrl "/music/a%20b.mp3" configured.
Proof.
  apply (local_track_urls_are_distinct "/music/a b.mp3" "/music/a%20b.mp3" configured).
  discriminate.
Defined.

Lemma isUnreserved_toHexUpper (n : nat) :
  (n < 16)%nat -> isUnreserved (toHexUpper n) = true.
Proof.
  intros Hn. unfold isUnreserved. rewrite nat_of_toHexUpper by assumption.
  cbv zeta.
  destruct (n <? 10)%nat eqn:E; [apply Nat.ltb_lt in E|apply Nat.ltb_ge in E].
  - replace ((48 <=? 48 + n)%nat && (48 + n <=? 57)%nat) with true;
      [now rewrite !orb_true_r|].
    symmetry. apply andb_true_iff. split; apply Nat.leb_le; lia.
  - replace ((65 <=? 55 + n)%nat && (55 + n <=? 90)%nat) with true;
      [now rewrite !orb_true_r|].
    symmetry. apply andb_true_iff. split; apply Nat.leb_le; lia.
Qed.

Lemma toPercentEncoding_safe (s : string) :
  allChars isUrlSafe (toPercentEncoding s) = true.
Proof.
  induction s as [|c s IH]; [reflexivity|]. cbn [toPercentEncoding].
  pose proof (nat_ascii_bounded c) as Bc.
  destruct (isUnreserved c) eqn:Ec; cbn [allChars].
  - unfold isUrlSafe at 1. rewrite Ec. exact IH.
  - unfold isUrlSafe at 1 2 3.
    rewrite !isUnreserved_toHexUpper, IH;
      [reflexivity|apply Nat.mod_upper_bound; lia
      |apply Nat.Div0.div_lt_upper_bound; lia].
Qed.

(** X13.  Whatever the path of a local file, what [getLocalTrackUrl] puts
    after [path=] is made of letters, digits, [-._~] and [%] only. *)
Theorem local_track_url_is_safe (p : string) (w : World) :
  exists query : string,
    getLocalTrackUrl p w
    = m_serverUrl w +:+ "/api/mobile/stream/local?path=" +:+ query
    /\ allChars isUrlSafe query = true.
Proof.
  eexists. split; [reflexivity|]. apply toPercentEncoding_safe.
Qed.

(** *** The page of a search *)

(** X14.  On a configured client, with a search text that has no per cent
    sign, an offset from 0 to below [INT_MAX] and a limit above 0,
    [searchTracks] requests the URL of the template with the search text
    as it is, the limit as page size and, as page, the page that holds the
    item at [offset], pages counted from 1 and of [limit] items each. *)
Theorem search_page_holds_offset (localized : Z -> string) (query : string)
    (offset limit : Z) (w : World) :
  m_serverUrl w <> "" ->
  hasNoPercent query = true ->
  0 <= offset < int_max -> 0 < limit ->
  exists page : Z,
    map (requestUrl localized) (sent (exec (searchTracks query offset limit) w))
    = map (requestUrl localized) (sent w)
      ++ [searchUrl (m_serverUrl w) query page limit]
    /\ (page - 1) * limit <= offset < page * limit.
Proof.
  intros Hurl Hq Ho Hl. exists (offset ÷ limit + 1).
  assert (Hdiv : 0 <= offset / limit <= offset).
  { split; [apply Z.div_pos; lia|]. apply Z.div_le_upper_bound; nia. }
  assert (Hpage : searchPage offset limit = Some (offset ÷ limit + 1)).
  { unfold searchPage.
    replace (limit =? 0) with false by (symmetry; apply Z.eqb_neq; lia).
    replace (offset =? int_min) with false
      by (symmetry; apply Z.eqb_neq; unfold int_min; lia).
    cbn [orb andb]. rewrite Z.quot_div_nonneg by lia.
    replace (offset / limit + 1 <=? int_max) with true; [reflexivity|].
    symmetry. apply Z.leb_le. lia. }
  split.
  - destruct w as [url lf pend pag reps nxt snt emt]. cbn [m_serverUrl] in Hurl.
    unfold searchTracks. cbv beta iota zeta delta [exec bind serverUrl m_serverUrl].
    rewrite (isEmpty_false _ Hurl). run. rewrite Hpage. run.
    rewrite List.map_app. cbn [map]. rewrite (render_search localized _ _ _ _ Hq).
    reflexivity.
  - rewrite Z.quot_div_nonneg by lia.
    replace (offset / limit + 1 - 1) with (offset / limit) by lia.
    pose proof (Z.mul_div_le offset limit Hl).
    pose proof (Z.mul_succ_div_gt offset limit Hl). nia.
Qed.

Lemma search_page_holds_offset_witness :
  exists page : Z,
    map (requestUrl number) (sent (exec (searchTracks "abba" 120 50) configured))
    = [searchUrl "http://tfm" "abba" page 50]
    /\ (page - 1) * 50 <= 120 < page * 50.
Proof.
  apply (search_page_holds_offset number "abba" 120 50 configured).
  - discriminate.
  - reflexivity.
  - unfold int_max. lia.
  - lia.
Defined.

(** *** The folder of a local listing *)

Lemma fetchLocalTracks_sent (folderPath : string) (w : World) :
  m_serverUrl w <> "" ->
  exists r : QNetworkReply,
    properties r !! "requestType" = Some (VString "fetchLocalTracks")
    /\ properties r !! "folderPath" = Some (VString folderPath)
    /\ exec (fetchLocalTracks folderPath) w =
       mkWorld (m_serverUrl w) (m_localFolder w) (m_pendingReplies w ++ [nextReply w])
         (m_paginatedRequests w) (<[nextReply w := r]> (replies w))
         (S (nextReply w)) (sent w ++ [request r]) (emitted w ++ [requestStarted]).
Proof.
  intros Hurl. destruct w as [url lf pend pag reps nxt snt emt].
  cbn [m_serverUrl] in Hurl. unfold fetchLocalTracks.
  cbv beta iota zeta delta [exec bind serverUrl m_serverUrl].
  rewrite (isEmpty_false _ Hurl). run_reply. rewrite !alter_insert_eq.
  cbn [request properties].
  match goal with |- context [<[nxt := ?r]> reps] => exists r end.
  cbn [request properties]. split; [|split; [|reflexivity]].
  - rewrite lookup_insert_ne by discriminate. apply lookup_insert_eq.
  - apply lookup_insert_eq.
Qed.

Lemma local_tracks_finished (p : nat) (r : QNetworkReply) (folderPath : string)
    (doc : QJsonValue) (w : World) :
  replies w !! p = Some r ->
  properties r !! "requestType" = Some (VString "fetchLocalTracks") ->
  properties r !! "folderPath" = Some (VString folderPath) ->
  succeeded doc = true ->
  emitted (exec (onReplyFinished p (arrives doc)) w)
  = emitted w
    ++ [requestFinished;
        localTracksLoaded folderPath
          (map (fun val => parseTrack (toObject val))
             (if isObject (value (toObject doc) "data")
              then toArray (value (toObject (value (toObject doc) "data")) "items")
              else []))].
Proof.
  intros Hr Ht Hf Hs. destruct w as [url lf pend pag reps nxt snt emt], r as [rq props].
  cbn [replies properties] in Hr, Ht, Hf. unfold succeeded in Hs.
  unfold onReplyFinished, arrives. run. rewrite Hr. cbn [mbind option_bind properties].
  rewrite Ht. unfold handleResponse. rewrite Hs. run.
  change (String.eqb "fetchLocalTracks" "fetchChannels") with false.
  change (String.eqb "fetchLocalTracks" "fetchChannelTracks") with false.
  change (String.eqb "fetchLocalTracks" "fetchFolderContents") with false.
  change (String.eqb "fetchLocalTracks" "fetchFavorites") with false.
  change (String.eqb "fetchLocalTracks" "fetchLocalFolders") with false.
  change (String.eqb "fetchLocalTracks" "fetchLocalTracks") with true.
  cbv iota beta delta [orb]. run. rewrite Hr. cbn [mbind option_bind properties].
  rewrite Hf. run. rewrite <- List.app_assoc. reflexivity.
Qed.

(** X10.  The answer to [fetchLocalTracks] is reported under the folder path
    that was asked for, as it was given, with one track for every element
    of [data.items]. *)
Theorem local_tracks_name_their_folder (folderPath : string) (doc : QJsonValue)
    (w : World) :
  m_serverUrl w <> "" ->
  succeeded doc = true ->
  exists tracks : list Track.t,
    emitted (exec (fetchLocalTracks folderPath ;;
                   onReplyFinished (nextReply w) (arrives doc)) w)
    = emitted w ++ [requestStarted; requestFinished;
                    localTracksLoaded folderPath tracks]
    /\ length tracks
       = length (toArray (value (toObject (value (toObject doc) "data")) "items")).
Proof.
  intros Hurl Hs. rewrite exec_bind.
  destruct (fetchLocalTracks_sent folderPath w Hurl) as (r & Ht & Hf & ->).
  erewrite local_tracks_finished;
    [|apply lookup_insert_eq|exact Ht|exact Hf|exact Hs].
  cbn [emitted]. eexists. split; [rewrite <- List.app_assoc; reflexivity|].
  rewrite List.length_map.
  destruct (value (toObject doc) "data"); reflexivity.
Qed.

Lemma local_tracks_name_their_folder_witness :
  let doc :=
    JObject [("success", JBool true);
             ("data", JObject [("items", JArray [item "a"; item "b"])])] in
  exists tracks : list Track.t,
    emitted (exec (fetchLocalTracks "/music/a b" ;;
                   onReplyFinished 0 (arrives doc)) configured)
    = [requestStarted; requestFinished; localTracksLoaded "/music/a b" tracks]
    /\ length tracks
       = length (toArray (value (toObject (value (toObject doc) "data")) "items")).
Proof.
  cbv zeta.
  apply (local_tracks_name_their_folder "/music/a b" _ configured);
    [discriminate|reflexivity].
Defined.

(** X28.  The local listing reads its items from [data.items] only: when
    [data] is a bare array, which the listing of a channel accepts, the
    answer to [fetchLocalTracks] reports no track at all. *)
Theorem local_listing_wants_an_object (p : nat) (r : QNetworkReply)
    (folderPath channelId : string) (doc : QJsonValue) (w : World) :
  replies w !! p = Some r ->
  properties r !! "requestType" = Some (VString "fetchLocalTracks") ->
  properties r !! "folderPath" = Some (VString folderPath) ->
  succeeded doc = true ->
  isArray (value (toObject doc) "data") = true ->
  emitted (exec (onReplyFinished p (arrives doc)) w)
  = emitted w ++ [requestFinished; localTracksLoaded folderPath []]
  /\ length (pageTracks channelId doc)
     = length (toArray (value (toObject doc) "data")).
Proof.
  intros Hr Ht Hf Hs Ha.
  rewrite (local_tracks_finished p r folderPath doc w Hr Ht Hf Hs).
  unfold pageTracks, itemArray. rewrite Ha, List.length_map.
  destruct (value (toObject doc) "data"); try discriminate. split; reflexivity.
Qed.

Lemma local_listing_wants_an_object_witness :
  let doc := envelope [item "a"; item "b"] 1 false in
  let w := exec (fetchLocalTracks "/music") configured in
  emitted (exec (onReplyFinished 0 (arrives doc)) w)
  = emitted w ++ [requestFinished; localTracksLoaded "/music" []]
  /\ length (pageTracks "7" doc) = length (toArray (value (toObject doc) "data")).
Proof.
  cbv zeta.
  eapply (local_listing_wants_an_object 0 _ "/music" "7"
            (envelope [item "a"; item "b"] 1 false)
            (exec (fetchLocalTracks "/music") configured));
    reflexivity.
Defined.

End UrlFacts.

(* ===================================================================== *)
(** ** Facts about the library feature *)
(* ===================================================================== *)

Module FeatureFacts.
Import Qt ApiClient Feature TrackModelFacts.

(** *** From a sidebar item to the request *)

Lemma startsWith_app (p s : string) : startsWith (p +:+ s) p = true.
Proof. unfold startsWith. apply String.prefix_correct, substring_app_l. Qed.

(** X22.  A click on the sidebar item of a channel, or of a favourite, asks
    for the tracks of that channel: the id in the request is the decimal
    text of the id the item was made from, negative ids included. *)
Theorem channel_item_round_trip (ch : Channel.t) :
  activateChild (channelItemData ch)
  = Some (mkActivated (Some kChannelType)
            (FetchChannelTracks (number (Channel.id ch)) 0 100))
  /\ activateChild (favoriteItemData ch)
     = Some (mkActivated (Some kFavoriteType)
               (FetchChannelTracks (number (Channel.id ch)) 0 100)).
Proof.
  unfold channelItemData, favoriteItemData.
  generalize (number (Channel.id ch)). intros s. unfold activateChild.
  change (kChannelType +:+ ":" +:+ s) with ((kChannelType +:+ ":") +:+ s).
  change (kFavoriteType +:+ ":" +:+ s) with ((kFavoriteType +:+ ":") +:+ s).
  rewrite !startsWith_app.
  change (startsWith ((kFavoriteType +:+ ":") +:+ s) (kChannelType +:+ ":"))
    with false.
  split; reflexivity.
Qed.

Lemma split_colon_app (a b : string) :
  hasNoColon a = true -> split ":" (a +:+ ":" +:+ b) = a :: split ":" b.
Proof.
  unfold hasNoColon. induction a as [|c a IH]; intros H; [reflexivity|].
  cbn [allChars] in H. apply andb_true_iff in H as [Hc Ha].
  apply negb_true_iff in Hc.
  change (String c a +:+ ":" +:+ b) with (String c (a +:+ ":" +:+ b)).
  cbn [split]. rewrite Hc, (IH Ha). reflexivity.
Qed.

Lemma split_colon_none (a : string) : hasNoColon a = true -> split ":" a = [a].
Proof.
  unfold hasNoColon. induction a as [|c a IH]; intros H; [reflexivity|].
  cbn [allChars] in H. apply andb_true_iff in H as [Hc Ha].
  apply negb_true_iff in Hc. cbn [split]. rewrite Hc, (IH Ha). reflexivity.
Qed.

(** X23.  A click on the sidebar item of a folder asks for the contents of
    that folder of that channel, provided neither id has a colon; the id
    of the folder is read up to its first colon. *)
Theorem folder_item_round_trip (channelId : string) (folder : Track.t) :
  hasNoColon channelId = true ->
  hasNoColon (Track.id folder) = true ->
  activateChild (folderItemData channelId folder)
  = Some (mkActivated None (FetchFolderContents channelId (Track.id folder) 0 100))
  /\ forall (rest : string) (other : Track.t),
       Track.id other = Track.id folder +:+ ":" +:+ rest ->
       activateChild (folderItemData channelId other)
       = activateChild (folderItemData channelId folder).
Proof.
  intros Hc Hf.
  assert (Hdata : forall f, split ":" (folderItemData channelId f)
                            = "folder" :: channelId :: split ":" (Track.id f)).
  { intros f. unfold folderItemData, kFolderType.
    rewrite (split_colon_app "folder" _ eq_refl), (split_colon_app _ _ Hc).
    reflexivity. }
  assert (Hact : forall f, activateChild (folderItemData channelId f)
                           = match split ":" (Track.id f) with
                             | folderId :: _ =>
                                 Some (mkActivated None
                                         (FetchFolderContents channelId folderId 0 100))
                             | [] => None
                             end).
  { intros f. unfold activateChild.
    change (startsWith (folderItemData channelId f) (kChannelType +:+ ":")) with false.
    change (startsWith (folderItemData channelId f) (kFavoriteType +:+ ":")) with false.
    cbv iota.
    replace (startsWith (folderItemData channelId f) (kFolderType +:+ ":")) with true
      by (symmetry; apply (startsWith_app (kFolderType +:+ ":"))).
    rewrite Hdata. reflexivity. }
  split.
  - rewrite Hact, (split_colon_none _ Hf). reflexivity.
  - intros rest other Hother.
    rewrite !Hact, Hother, (split_colon_app _ _ Hf), (split_colon_none _ Hf).
    reflexivity.
Qed.

Lemma folder_item_round_trip_witness :
  let folder := track "7" "5f2a" in
  activateChild (folderItemData "-1007" folder)
  = Some (mkActivated None (FetchFolderContents "-1007" (Track.id folder) 0 100))
  /\ forall (rest : string) (other : Track.t),
       Track.id other = Track.id folder +:+ ":" +:+ rest ->
       activateChild (folderItemData "-1007" other)
       = activateChild (folderItemData "-1007" folder).
Proof.
  apply (folder_item_round_trip "-1007" (track "7" "5f2a")); reflexivity.
Defined.

(** X24.  A click on the sidebar item of a local folder asks for the listing
    of the path the item was made from, whatever the path: colons, as in
    [C:/music], are kept. *)
Theorem local_folder_item_round_trip (folder : Track.t) :
  activateChild (localFolderItemData folder)
  = Some (mkActivated None (FetchLocalTracks (Track.path folder))).
Proof.
  unfold activateChild.
  change (startsWith (localFolderItemData folder) (kChannelType +:+ ":")) with false.
  change (startsWith (localFolderItemData folder) (kFavoriteType +:+ ":")) with false.
  change (startsWith (localFolderItemData folder) (kFolderType +:+ ":")) with false.
  change (String.eqb (localFolderItemData folder) kRootLocal) with false.
  cbv iota.
  replace (startsWith (localFolderItemData folder) (kLocalFolderType +:+ ":"))
    with true by (symmetry; apply (startsWith_app (kLocalFolderType +:+ ":"))).
  do 3 f_equal. unfold mid, localFolderItemData.
  change (kLocalFolderType +:+ ":" +:+ Track.path folder)
    with ((kLocalFolderType +:+ ":") +:+ Track.path folder).
  generalize (kLocalFolderType +:+ ":"). intros p.
  rewrite length_app.
  replace (String.length p + String.length (Track.path folder) - String.length p)%nat
    with (String.length (Track.path folder)) by lia.
  apply substring_app_r.
Qed.

(** *** The items of an answer *)

Lemma separate_from (tracks : list Track.t) :
  forall audioTracks folders : list Track.t,
    fold_left separateItem tracks (audioTracks, folders)
    = (audioTracks
       ++ List.filter (fun item => negb (itemIsFolder item) && itemIsAudio item) tracks,
       folders ++ List.filter itemIsFolder tracks).
Proof.
  induction tracks as [|item tracks IH]; intros audioTracks folders.
  - cbn. now rewrite !List.app_nil_r.
  - cbn [fold_left List.filter]. unfold separateItem at 2.
    destruct (itemIsFolder item); cbn [negb andb].
    + rewrite IH, <- List.app_assoc. reflexivity.
    + destruct (itemIsAudio item); rewrite IH, <- ?List.app_assoc; reflexivity.
Qed.

Lemma skipped_not_audio (tr : Track.t) : skipped tr = negb (itemIsAudio tr).
Proof.
  unfold skipped, itemIsAudio.
  destruct (String.eqb _ _), (endsWithCI _ ".mp3"), (endsWithCI _ ".flac"),
    (endsWithCI _ ".wav"), (endsWithCI _ ".ogg"), (endsWithCI _ ".m4a");
    reflexivity.
Qed.

(** X25.  The three slots split an answer into folders and audio tracks in
    the order of the answer, a folder never counting as a track; and what
    they pass on as audio is never skipped by [insertTracksIntoDatabase]. *)
Theorem separated_items (tracks : list Track.t) :
  let (audioTracks, folders) := separate tracks in
  folders = List.filter itemIsFolder tracks
  /\ audioTracks
     = List.filter (fun item => negb (itemIsFolder item) && itemIsAudio item) tracks
  /\ Forall (fun tr => skipped tr = false) audioTracks.
Proof.
  unfold separate. rewrite separate_from. cbn [app]. repeat split.
  apply Forall_forall. intros tr Htr. apply list_elem_of_In, List.filter_In in Htr.
  destruct Htr as [_ Htr]. apply andb_true_iff in Htr as [_ Htr].
  rewrite skipped_not_audio, Htr. reflexivity.
Qed.

End FeatureFacts.
